(** * Timeline layout engine of down-roadmap (src/lib/timeline.ts)

    A shallow embedding of the text utilities, the stage classifier and
    [layoutTimeline], followed by the properties of the layout that the
    renderers rely on.

    Numbers.  Every number the module computes is an integer (day
    indexes, pixel coordinates, time values in milliseconds), so a JS
    number is a [Z].  Time values are those of well-formed calendar
    dates, as the data source guarantees; Invalid Date is outside the
    model.  The three date helpers are embedded twice: over [Z], as the
    layout uses them, and in [Runtime] over the binary64 arithmetic and
    the calendar of the Date object, with the range of dates on which
    the two agree.

    Strings.  A JS string is the list of its UTF-16 code units.

    Built-ins.  The module is embedded over the built-ins it calls (the
    Date parser, [localeCompare], [toLowerCase]); the general properties
    hold for every such built-in, the examples are evaluated on
    [Builtins]. *)

From Stdlib Require Import ZArith NArith QArith Qround Qabs SpecFloat.
From Stdlib Require Import String Ascii Lia Lqa Bool.
From Stdlib Require Qcanon.
From stdpp Require Import list sorting gmap strings.

Local Open Scope Z_scope.

(* ===================================================================== *)
(** * JS strings as code-unit lists *)
(* ===================================================================== *)

Abbreviation jsstring := (list N).

(** An ASCII literal as a JS string. *)
Definition js (s : string) : jsstring :=
  map N_of_ascii (list_ascii_of_string s).

(** [s.length] *)
Definition jslength (s : jsstring) : Z := Z.of_nat (length s).

(** [s.slice(start, end)]: a negative bound counts from the end of the
    string, both bounds are clamped to [0 .. length]. *)
Definition slice (s : jsstring) (from to : Z) : jsstring :=
  let len := jslength s in
  let lo := if from <? 0 then Z.max (len + from) 0 else Z.min from len in
  let hi := if to <? 0 then Z.max (len + to) 0 else Z.min to len in
  take (Z.to_nat (Z.max (hi - lo) 0)) (drop (Z.to_nat lo) s).

Fixpoint startsWith (s pat : jsstring) : bool :=
  match pat, s with
  | [], _ => true
  | _ :: _, [] => false
  | p :: pat', c :: s' => N.eqb p c && startsWith s' pat'
  end.

(** [s.includes(pat)] *)
Fixpoint includes (s pat : jsstring) : bool :=
  startsWith s pat ||
  match s with
  | [] => false
  | _ :: s' => includes s' pat
  end.

(** [s.replace(pat, rep)] with a string pattern: only the first
    occurrence is replaced ([rep] holds no [$] pattern here). *)
Fixpoint replace (s pat rep : jsstring) : jsstring :=
  if startsWith s pat then rep ++ drop (length pat) s
  else match s with
       | [] => []
       | c :: s' => c :: replace s' pat rep
       end.

(* ===================================================================== *)
(** * Backtracking matcher for the release-label pattern *)
(* ===================================================================== *)

Module RegExp.

(** Character classes of a pattern without the [u] and [s] flags. *)
Definition isLineTerminator (c : N) : bool :=
  (N.eqb c 10 || N.eqb c 13 || N.eqb c 8232 || N.eqb c 8233)%N.

(** [.] *)
Definition dot (c : N) : bool := negb (isLineTerminator c).

(** [\d] *)
Definition digit (c : N) : bool := (N.leb 48 c && N.leb c 57)%N.

(** [\s]: white space and line terminators. *)
Definition space (c : N) : bool :=
  (N.leb 9 c && N.leb c 13)%N
  || N.eqb c 32 || N.eqb c 160 || N.eqb c 5760
  || (N.leb 8192 c && N.leb c 8202)%N
  || N.eqb c 8232 || N.eqb c 8233 || N.eqb c 8239 || N.eqb c 8287
  || N.eqb c 12288 || N.eqb c 65279.

(** [[\d.]] and its complement [[^\d.]] *)
Definition digitOrDot (c : N) : bool := digit c || N.eqb c 46.
Definition notDigitOrDot (c : N) : bool := negb (digitOrDot c).

Section Matcher.
Context {R : Type}.

(** A continuation receives the text a piece consumed and the rest of
    the input; [None] makes the piece backtrack. *)
Definition orElse (a b : option R) : option R :=
  match a with Some r => Some r | None => b end.

(** [c+?]: the shortest run first. *)
Fixpoint lazyPlus (p : N -> bool) (s : jsstring)
    (k : jsstring -> jsstring -> option R) : option R :=
  match s with
  | [] => None
  | c :: s' =>
      if p c
      then orElse (k [c] s') (lazyPlus p s' (fun g rest => k (c :: g) rest))
      else None
  end.

(** [c+]: the longest run first. *)
Fixpoint greedyPlus (p : N -> bool) (s : jsstring)
    (k : jsstring -> jsstring -> option R) : option R :=
  match s with
  | [] => None
  | c :: s' =>
      if p c
      then orElse (greedyPlus p s' (fun g rest => k (c :: g) rest)) (k [c] s')
      else None
  end.

(** [c*]: the longest run first, the empty run last. *)
Fixpoint greedyStar (p : N -> bool) (s : jsstring)
    (k : jsstring -> jsstring -> option R) : option R :=
  match s with
  | [] => k [] []
  | c :: s' =>
      if p c
      then orElse (greedyStar p s' (fun g rest => k (c :: g) rest)) (k [] s)
      else k [] s
  end.

(** One character of a class. *)
Definition one (p : N -> bool) (s : jsstring)
    (k : jsstring -> jsstring -> option R) : option R :=
  match s with
  | c :: s' => if p c then k [c] s' else None
  | [] => None
  end.

(** [(m)?]: with the group first, then without it (undefined capture). *)
Definition optional
    (m : jsstring -> (jsstring -> jsstring -> option R) -> option R)
    (s : jsstring) (k : option jsstring -> jsstring -> option R) : option R :=
  orElse (m s (fun g rest => k (Some g) rest)) (k None s).
End Matcher.

(** The captures 1 to 4 of a successful match. *)
Record captures := Captures {
  group1 : jsstring;
  group2 : jsstring;
  group3 : jsstring;
  group4 : option jsstring
}.

(** [exec] of the label pattern: [^], capture 1 [.+?], capture 2
    [\s+], capture 3 [[\d.]+], the optional capture 4 (one [[^\d.]],
    then a greedy run of [.]), and [$].  The pattern is anchored at the
    start and has no [m] flag, so only position 0 can match and [$] is
    the end of the input. *)
Definition execLabel (label : jsstring) : option captures :=
  lazyPlus dot label (fun g1 r1 =>
  greedyPlus space r1 (fun g2 r2 =>
  greedyPlus digitOrDot r2 (fun g3 r3 =>
  optional
    (fun s k => one notDigitOrDot s (fun h t =>
                greedyStar dot t (fun g rest => k (h ++ g) rest)))
    r3 (fun g4 r4 =>
  match r4 with
  | [] => Some (Captures g1 g2 g3 g4)
  | _ :: _ => None
  end)))).

End RegExp.

(* ===================================================================== *)
(** * Text utilities *)
(* ===================================================================== *)

(** The tail of the template literal in [clampText], as it stands in the
    file: the code units U+00E2 U+20AC U+00A6. *)
Definition ELLIPSIS : jsstring := [226; 8364; 166]%N.

Definition clampText (input : jsstring) (maxChars : Z) : jsstring :=
  if jslength input <=? maxChars then input
  else slice input 0 (maxChars - 1) ++ ELLIPSIS.

Definition compactReleaseLabel (label : jsstring) : jsstring :=
  let short :=
    match RegExp.execLabel label with
    | Some m => RegExp.group1 m ++ RegExp.group2 m ++ RegExp.group3 m
    | None => label
    end in
  replace short (js "Backend") (js "BE").


(* ===================================================================== *)
(** * Records of the data source and of the layout *)
(* ===================================================================== *)

Module ExperimentItem.
Record t := mk {
  id : jsstring;
  name : jsstring;
  url : jsstring;
  startDate : jsstring;
  endDate : jsstring;
  stage : jsstring
}.
End ExperimentItem.

Module ReleaseItem.
Record t := mk {
  id : jsstring;
  name : jsstring;
  url : jsstring;
  date : jsstring;
  platform : jsstring;
  status : jsstring
}.
End ReleaseItem.

(** [ExperimentItem & { row, startIndex, endIndex }] *)
Module PositionedExperiment.
Record t := mk {
  item : ExperimentItem.t;
  row : Z;
  startIndex : Z;
  endIndex : Z
}.
End PositionedExperiment.

(** [ReleaseItem & { lane, dayIndex, labelEnd }] *)
Module PositionedRelease.
Record t := mk {
  item : ReleaseItem.t;
  lane : Z;
  dayIndex : Z;
  labelEnd : Z
}.
End PositionedRelease.

(** Dates are held by their time value (milliseconds since the epoch). *)
Module TimelineLayout.
Record t := mk {
  startDate : Z;
  endDate : Z;
  totalDays : Z;
  positionedExperiments : list PositionedExperiment.t;
  positionedReleases : list PositionedRelease.t;
  experimentRows : Z;
  releaseLanes : Z;
  canvasWidth : Z
}.
End TimelineLayout.

Inductive StageTone := running | winner | ended | neutral.

(* ===================================================================== *)
(** * Array helpers *)
(* ===================================================================== *)

(** [l.findIndex(p)]: the index of the first element that satisfies [p],
    or -1. *)
Fixpoint findIndex {A} (p : A -> bool) (l : list A) : Z :=
  match l with
  | [] => -1
  | x :: l' =>
      if p x then 0
      else let i := findIndex p l' in if i <? 0 then -1 else i + 1
  end.

(** [l.map(f)] for a callback that updates variables of the enclosing
    scope: the captured variables are the state [S] threaded through the
    calls, in index order. *)
Fixpoint mapWithState {S A B} (f : S -> A -> B * S) (st : S) (l : list A)
    : list B * S :=
  match l with
  | [] => ([], st)
  | x :: l' =>
      let '(y, st1) := f st x in
      let '(ys, st2) := mapWithState f st1 l' in
      (y :: ys, st2)
  end.

(** [[...l].sort(compareFn)].  The sort of an array is stable: an element
    moves in front of another only when [compareFn] puts it strictly
    before. *)
Fixpoint insertSorted {A} (compareFn : A -> A -> Z) (x : A) (l : list A)
    : list A :=
  match l with
  | [] => [x]
  | y :: l' =>
      if compareFn x y <=? 0 then x :: l
      else y :: insertSorted compareFn x l'
  end.

Definition sort {A} (compareFn : A -> A -> Z) (l : list A) : list A :=
  foldr (insertSorted compareFn) [] l.

(** [Math.round(n / d)] for integers [n] and [d > 0]: the nearest integer,
    a half rounds up. *)
Definition roundDiv (n d : Z) : Z := (2 * n + d) / (2 * d).

(* ===================================================================== *)
(** * The module [timeline.ts] *)
(* ===================================================================== *)

Definition DAY_WIDTH : Z := 34.
Definition MS_PER_DAY : Z := 24 * 60 * 60 * 1000.

Section Timeline.

(** Built-ins of the platform the module calls.
    [Date_parse s] is the time value of [new Date(s)],
    [localeCompare a b] is [a.localeCompare(b)] and
    [toLowerCase s] is [s.toLowerCase()]. *)
Variable Date_parse : jsstring -> Z.
Variable localeCompare : jsstring -> jsstring -> Z.
Variable toLowerCase : jsstring -> jsstring.

Definition utcDate (isoDate : jsstring) : Z :=
  Date_parse (isoDate ++ js "T00:00:00.000Z").

(** The date helpers over the integers, as the layout uses them.  The
    start of a day is the midnight at or before [date]; a move by days
    and a difference in days are exact.  [Runtime] below has the same
    helpers over the arithmetic of Numbers and the calendar of the Date
    object; the two agree on valid dates less than [2^53] milliseconds
    apart whose year is not one of 0 to 99 ([Runtime_startOfUtcDay_exact],
    [Runtime_addUtcDays_exact], [Runtime_diffDays_exact]). *)
Definition startOfUtcDay (date : Z) : Z := (date / MS_PER_DAY) * MS_PER_DAY.

Definition addUtcDays (date days : Z) : Z :=
  date + days * 24 * 60 * 60 * 1000.

Definition diffDays (start end_ : Z) : Z :=
  roundDiv (end_ - start) MS_PER_DAY.

Definition stageTone (stage : jsstring) : StageTone :=
  let lower := toLowerCase stage in
  if includes lower (js "running") || includes lower (js "active")
     || includes lower (js "exploring") then running
  else if includes lower (js "winner") || includes lower (js "rollout")
     || includes lower (js "shipped") then winner
  else if includes lower (js "ended") || includes lower (js "stop")
     || includes lower (js "backlog") then ended
  else neutral.

(** The callback of [sortedExperiments.map]; the captured array
    [experimentRowEnds] is the state. *)
Definition placeExperiment (startDate : Z) (experimentRowEnds : list Z)
    (item : ExperimentItem.t) : PositionedExperiment.t * list Z :=
  let startIndex :=
    Z.max 0 (diffDays startDate (utcDate (ExperimentItem.startDate item))) in
  let endIndex :=
    Z.max startIndex
          (diffDays startDate (utcDate (ExperimentItem.endDate item))) in
  let row := findIndex (fun rowEnd => startIndex >? rowEnd) experimentRowEnds in
  if row <? 0 then
    (PositionedExperiment.mk item (Z.of_nat (length experimentRowEnds))
                             startIndex endIndex,
     experimentRowEnds ++ [endIndex])
  else
    (PositionedExperiment.mk item row startIndex endIndex,
     <[Z.to_nat row := endIndex]> experimentRowEnds).

(** The callback of [sortedReleases.map]; the captured [laneOccupancy]
    and [maxReleaseLabelEnd] are the state. *)
Definition placeRelease (startDate : Z) (st : list Z * Z)
    (item : ReleaseItem.t) : PositionedRelease.t * (list Z * Z) :=
  let '(laneOccupancy, maxReleaseLabelEnd) := st in
  let dayIndex :=
    Z.max 0 (diffDays startDate (utcDate (ReleaseItem.date item))) in
  let x := dayIndex * DAY_WIDTH + DAY_WIDTH / 2 in
  let label := compactReleaseLabel (ReleaseItem.name item) in
  let labelWidth := Z.max 92 (Z.min 240 (jslength label * 7 + 44)) in
  let lane :=
    findIndex (fun occupiedUntil => x >? occupiedUntil + 12) laneOccupancy in
  let maxReleaseLabelEnd' := Z.max maxReleaseLabelEnd (x + labelWidth + 20) in
  if lane <? 0 then
    (PositionedRelease.mk item (Z.of_nat (length laneOccupancy))
                          dayIndex (x + labelWidth),
     (laneOccupancy ++ [x + labelWidth], maxReleaseLabelEnd'))
  else
    (PositionedRelease.mk item lane dayIndex (x + labelWidth),
     (<[Z.to_nat lane := x + labelWidth]> laneOccupancy, maxReleaseLabelEnd')).

(** [layoutTimeline(experiments, releases, windowStartIso)], with the
    clock reading of [new Date()] as the parameter [now]. *)
Definition layoutTimeline (now : Z)
    (experiments : list ExperimentItem.t) (releases : list ReleaseItem.t)
    (windowStartIso : jsstring) : TimelineLayout.t :=
  let startDate := utcDate windowStartIso in
  let today := startOfUtcDay now in
  let allEndDates :=
    [today]
    ++ map (fun exp => utcDate (ExperimentItem.endDate exp)) experiments
    ++ map (fun rel => utcDate (ReleaseItem.date rel)) releases in
  let endDate :=
    fold_left (fun latest candidate =>
                 if candidate >? latest then candidate else latest)
              allEndDates today in
  let totalDays := Z.max 1 (diffDays startDate endDate + 1) in
  let sortedExperiments :=
    sort (fun a b => localeCompare (ExperimentItem.startDate a)
                                   (ExperimentItem.startDate b))
         experiments in
  let '(positionedExperiments, experimentRowEnds) :=
    mapWithState (placeExperiment startDate) [] sortedExperiments in
  let sortedReleases :=
    sort (fun a b => localeCompare (ReleaseItem.date a) (ReleaseItem.date b))
         releases in
  let '(positionedReleases, (laneOccupancy, maxReleaseLabelEnd)) :=
    mapWithState (placeRelease startDate) ([], totalDays * DAY_WIDTH)
                 sortedReleases in
  TimelineLayout.mk
    startDate endDate totalDays positionedExperiments positionedReleases
    (Z.max 1 (Z.of_nat (length experimentRowEnds)))
    (Z.max 1 (Z.of_nat (length laneOccupancy)))
    (Z.max (totalDays * DAY_WIDTH) maxReleaseLabelEnd).

End Timeline.

(* ===================================================================== *)
(** * The built-ins on the data of the input contract *)
(* ===================================================================== *)

(** The data source hands over dates as [YYYY-MM-DD] and the keywords of
    the classifiers are ASCII.  On such data the built-ins are the
    following functions. *)
Module Builtins.

(** Days from the epoch to the 1st of January of year [y]. *)
Definition dayFromYear (y : Z) : Z :=
  365 * (y - 1970) + (y - 1969) / 4 - (y - 1901) / 100 + (y - 1601) / 400.

Definition isLeapYear (y : Z) : bool :=
  (y mod 4 =? 0) && (negb (y mod 100 =? 0) || (y mod 400 =? 0)).

Definition daysInMonth (y m : Z) : Z :=
  if m =? 2 then (if isLeapYear y then 29 else 28)
  else if (m =? 4) || (m =? 6) || (m =? 9) || (m =? 11) then 30
  else 31.

(** Days from the 1st of January to the 1st of month [m] (1 to 12). *)
Definition dayOfYearOfMonth (y m : Z) : Z :=
  foldr Z.add 0 (map (daysInMonth y) (map Z.of_nat (seq 1 (Z.to_nat (m - 1))))).

(** The decimal number written by exactly [len] digits at [from]. *)
Definition digitsAt (s : jsstring) (from len : nat) : option Z :=
  let ds := take len (drop from s) in
  if (length ds =? len)%nat && forallb RegExp.digit ds
  then Some (fold_left (fun acc c => 10 * acc + (Z.of_N c - 48)) ds 0)
  else None.

Definition charAt (s : jsstring) (pos : nat) (c : string) : bool :=
  bool_decide (take 1 (drop pos s) = js c).

(** The time value of a date-time string [YYYY-MM-DDTHH:mm:ss.sssZ]. *)
Definition isoTimeValue (s : jsstring) : option Z :=
  if (length s =? 24)%nat
     && charAt s 4 "-" && charAt s 7 "-" && charAt s 10 "T"
     && charAt s 13 ":" && charAt s 16 ":" && charAt s 19 "."
     && charAt s 23 "Z"
  then
    y ← digitsAt s 0 4;
    mo ← digitsAt s 5 2;
    d ← digitsAt s 8 2;
    h ← digitsAt s 11 2;
    mi ← digitsAt s 14 2;
    sec ← digitsAt s 17 2;
    ms ← digitsAt s 20 3;
    if (1 <=? mo) && (mo <=? 12) && (1 <=? d) && (d <=? daysInMonth y mo)
       && (h <=? 23) && (mi <=? 59) && (sec <=? 59)
    then Some ((dayFromYear y + dayOfYearOfMonth y mo + (d - 1)) * MS_PER_DAY
               + h * 3600000 + mi * 60000 + sec * 1000 + ms)
    else None
  else None.

(** [new Date(s)] on a well-formed date-time string.  Any other string
    has no time value; the layout is never evaluated on one below. *)
Definition Date_parse (s : jsstring) : Z := default 0 (isoTimeValue s).

(** Comparison by code units.  Date strings of one format hold digits
    and hyphens at the same places, where every collation agrees with it. *)
Fixpoint localeCompare (a b : jsstring) : Z :=
  match a, b with
  | [], [] => 0
  | [], _ :: _ => -1
  | _ :: _, [] => 1
  | x :: a', y :: b' =>
      if (x <? y)%N then -1
      else if (y <? x)%N then 1
      else localeCompare a' b'
  end.

(** Lower-casing of the letters A to Z; the other ASCII characters have
    no lower-case form. *)
Definition toLowerCase (s : jsstring) : jsstring :=
  map (fun c => if (65 <=? c)%N && (c <=? 90)%N then (c + 32)%N else c) s.

End Builtins.

(* ===================================================================== *)
(** * Vocabulary of the specification *)
(* ===================================================================== *)

(** The keyword tables of the stage classifier, in priority order. *)
Definition runningKeywords : list string := ["running"; "active"; "exploring"]%string.
Definition winnerKeywords : list string := ["winner"; "rollout"; "shipped"]%string.
Definition endedKeywords : list string := ["ended"; "stop"; "backlog"]%string.

(** A lower-cased text holds one of the keywords. *)
Definition hasAny (lower : jsstring) (keywords : list string) : bool :=
  existsb (fun kw => includes lower (js kw)) keywords.

(** The two orders of the layout: experiments by start date, releases
    by date, each as the raw string of the record. *)
Definition byStartDate (localeCompare : jsstring -> jsstring -> Z)
    (a b : ExperimentItem.t) : Z :=
  localeCompare (ExperimentItem.startDate a) (ExperimentItem.startDate b).

Definition byDate (localeCompare : jsstring -> jsstring -> Z)
    (a b : ReleaseItem.t) : Z :=
  localeCompare (ReleaseItem.date a) (ReleaseItem.date b).

(** The pixel anchor of a release and the width reserved for its label. *)
Definition anchorX (dayIndex : Z) : Z := dayIndex * DAY_WIDTH + DAY_WIDTH / 2.

Definition labelWidthOf (label : jsstring) : Z :=
  Z.min 240 (Z.max 92 (jslength label * 7 + 44)).

(** [lane] is the lowest lane of [occupancy] that is free at [x] with the
    gutter of 12 pixels, or the next new lane when none is. *)
Definition firstFreeLane (occupancy : list Z) (x lane : Z) : Prop :=
  0 <= lane <= Z.of_nat (length occupancy)
  /\ (forall (j : nat) (o : Z),
        occupancy !! j = Some o -> Z.of_nat j < lane -> ~ x > o + 12)
  /\ (lane < Z.of_nat (length occupancy) ->
      exists o, occupancy !! Z.to_nat lane = Some o /\ x > o + 12).

(** [occupancy'] is [occupancy] with [lane] occupied until [until]. *)
Definition occupyLane (occupancy : list Z) (lane until : Z)
    (occupancy' : list Z) : Prop :=
  occupancy' !! Z.to_nat lane = Some until
  /\ (forall j : nat, j <> Z.to_nat lane -> occupancy' !! j = occupancy !! j).

(** The running maximum of a list, from a start value. *)
Definition runningMax (init : Z) (l : list Z) : Z := fold_left Z.max l init.

(** A comparison function that orders consistently: swapping the
    arguments swaps the sign, and "not after" is transitive. *)
Definition consistentComparator {A} (compareFn : A -> A -> Z) : Prop :=
  (forall a b, compareFn a b < 0 <-> 0 < compareFn b a)
  /\ (forall a b c, compareFn a b <= 0 -> compareFn b c <= 0 -> compareFn a c <= 0).

(** No element of the list comes after a later one. *)
Definition ascending {A} (compareFn : A -> A -> Z) (l : list A) : Prop :=
  forall (i j : nat) (a b : A),
    l !! i = Some a -> l !! j = Some b -> (i < j)%nat -> compareFn a b <= 0.

(** The elements that compare equal to [k], in the order of the list. *)
Definition equalTo {A} (compareFn : A -> A -> Z) (k : A) (l : list A) : list A :=
  filter (fun e => compareFn k e = 0) l.

(** The loop invariant of the row assignment: every placed experiment
    ends no later than the end marker of its row, and within a row each
    experiment starts after the ones placed before it have ended. *)
Definition rowsInvariant (placed : list PositionedExperiment.t)
    (rowEnds : list Z) : Prop :=
  (forall (k : nat) (p : PositionedExperiment.t),
      placed !! k = Some p ->
      0 <= PositionedExperiment.startIndex p <= PositionedExperiment.endIndex p
      /\ 0 <= PositionedExperiment.row p
      /\ exists o, rowEnds !! Z.to_nat (PositionedExperiment.row p) = Some o
                   /\ PositionedExperiment.endIndex p <= o)
  /\ (forall (i j : nat) (a b : PositionedExperiment.t),
        placed !! i = Some a -> placed !! j = Some b -> (i < j)%nat ->
        PositionedExperiment.row a = PositionedExperiment.row b ->
        PositionedExperiment.startIndex b > PositionedExperiment.endIndex a).

(** Records for the examples. *)
Definition experiment (id startDate endDate : string) : ExperimentItem.t :=
  ExperimentItem.mk (js id) (js id) [] (js startDate) (js endDate) [].

Definition release (name date : string) : ReleaseItem.t :=
  ReleaseItem.mk (js name) (js name) [] (js date) [] [].

(* ===================================================================== *)
(** * The rest of [timeline.ts]: platform tone and band layout *)
(* ===================================================================== *)

Definition EXPERIMENT_ROW_HEIGHT : Z := 40.
Definition EXPERIMENT_BAR_HEIGHT : Z := 30.
Definition RELEASE_LANE_HEIGHT : Z := 28.
Definition HEADER_HEIGHT : Z := 74.

Definition EXPERIMENT_BAND_TOP : Z := 18.
Definition RELEASE_BAND_GAP : Z := 44.
Definition RELEASE_BAND_EXTRA_HEIGHT : Z := 50.
Definition BODY_BOTTOM_PADDING : Z := 24.

Inductive PlatformTone := ios | android | backend | other.

Module BandLayout.
Record t := mk {
  experimentBandTop : Z;
  experimentBandHeight : Z;
  releaseBandTop : Z;
  releaseBandHeight : Z;
  bodyHeight : Z
}.
End BandLayout.

Section Tones.
Variable toLowerCase : jsstring -> jsstring.

Definition platformTone (platform : jsstring) : PlatformTone :=
  let lower := toLowerCase platform in
  if includes lower (js "ios") then ios
  else if includes lower (js "android") then android
  else if includes lower (js "backend") || includes lower (js "server")
  then backend
  else other.

End Tones.

Definition getBandLayout (timeline : TimelineLayout.t) : BandLayout.t :=
  let experimentBandHeight :=
    TimelineLayout.experimentRows timeline * EXPERIMENT_ROW_HEIGHT + 10 in
  let releaseBandTop :=
    EXPERIMENT_BAND_TOP + experimentBandHeight + RELEASE_BAND_GAP in
  let releaseBandHeight :=
    TimelineLayout.releaseLanes timeline * RELEASE_LANE_HEIGHT
    + RELEASE_BAND_EXTRA_HEIGHT in
  let bodyHeight := releaseBandTop + releaseBandHeight + BODY_BOTTOM_PADDING in
  BandLayout.mk EXPERIMENT_BAND_TOP experimentBandHeight releaseBandTop
                releaseBandHeight bodyHeight.

(* ===================================================================== *)
(** * The page component: where the layout is drawn *)
(* ===================================================================== *)

(** The geometry the page computes from a layout (the constants [left],
    [width], [top], [x], [y], [todayIndex], [hasToday] and [days] of
    [Home]); the SVG route computes the same values and adds
    [HEADER_HEIGHT] to the vertical ones. *)
Module Page.

Definition barLeft (exp : PositionedExperiment.t) : Z :=
  PositionedExperiment.startIndex exp * DAY_WIDTH + 2.

Definition barWidth (exp : PositionedExperiment.t) : Z :=
  Z.max DAY_WIDTH
        ((PositionedExperiment.endIndex exp - PositionedExperiment.startIndex exp + 1)
         * DAY_WIDTH - 4).

Definition barTop (experimentBandTop : Z) (exp : PositionedExperiment.t) : Z :=
  experimentBandTop + PositionedExperiment.row exp * EXPERIMENT_ROW_HEIGHT.

Definition releaseX (release : PositionedRelease.t) : Z :=
  PositionedRelease.dayIndex release * DAY_WIDTH + DAY_WIDTH / 2.

Definition releaseY (releaseBandTop : Z) (release : PositionedRelease.t) : Z :=
  releaseBandTop + PositionedRelease.lane release * RELEASE_LANE_HEIGHT.

(** [now] is the clock reading of the page's own [new Date()]. *)
Definition todayIndex (timeline : TimelineLayout.t) (now : Z) : Z :=
  diffDays (TimelineLayout.startDate timeline) (startOfUtcDay now).

Definition hasToday (timeline : TimelineLayout.t) (now : Z) : bool :=
  (todayIndex timeline now >=? 0)
  && (todayIndex timeline now <? TimelineLayout.totalDays timeline).

(** [Array.from({ length: totalDays }, (_, idx) => addUtcDays(startDate, idx))] *)
Definition days (timeline : TimelineLayout.t) : list Z :=
  map (fun idx => addUtcDays (TimelineLayout.startDate timeline) (Z.of_nat idx))
      (seq 0 (Z.to_nat (TimelineLayout.totalDays timeline))).

End Page.

(* ===================================================================== *)
(** * The SVG routes: variants and XML escaping *)
(* ===================================================================== *)

(** [s.trim()]: white space and line terminators are removed at both
    ends. *)
Fixpoint trimStart (s : jsstring) : jsstring :=
  match s with
  | [] => []
  | c :: s' => if RegExp.space c then trimStart s' else s
  end.

Definition trimEnd (s : jsstring) : jsstring := rev (trimStart (rev s)).

Definition trim (s : jsstring) : jsstring := trimEnd (trimStart s).

(** [a === b] on strings *)
Definition strictEquals (a b : jsstring) : bool := bool_decide (a = b).

(** [s.replaceAll(pat, rep)] with a string pattern: the occurrences are
    found from left to right and do not overlap; [skip] counts the
    characters of the last occurrence still to pass.  An empty pattern
    occurs before every character and at the end.  ([rep] holds no [$]
    pattern here.) *)
Fixpoint replaceAllFrom (skip : nat) (s pat rep : jsstring) : jsstring :=
  match s with
  | [] => []
  | c :: s' =>
      match skip with
      | Datatypes.S k => replaceAllFrom k s' pat rep
      | O =>
          if startsWith s pat
          then rep ++ replaceAllFrom (length pat - 1) s' pat rep
          else c :: replaceAllFrom 0 s' pat rep
      end
  end.

Definition replaceAll (s pat rep : jsstring) : jsstring :=
  match pat with
  | [] => rep ++ flat_map (fun c => c :: rep) s
  | _ :: _ => replaceAllFrom 0 s pat rep
  end.

(** The route [api/timeline-svg]. *)
Module TimelineSvg.

Record VariantSettings := mkVariant {
  id : jsstring;
  fontScale : Q;
  filenameTag : jsstring
}.

Section Variant.
Variable toLowerCase : jsstring -> jsstring.

(** [raw] is [None] for [null]. *)
Definition resolveVariant (raw : option jsstring) : VariantSettings :=
  let value := toLowerCase (trim (default (js "default") raw)) in
  if strictEquals value (js "small") || strictEquals value (js "figma")
     || strictEquals value (js "figma-small")
  then mkVariant (js "figma-small") (74 # 100) (js "figma-small")
  else if strictEquals value (js "tiny") || strictEquals value (js "figma-xs")
          || strictEquals value (js "figma-tiny")
  then mkVariant (js "figma-tiny") (6 # 10) (js "figma-tiny")
  else mkVariant (js "default") 1 (js "").

End Variant.

Definition escapeXml (value : jsstring) : jsstring :=
  replaceAll
    (replaceAll
       (replaceAll
          (replaceAll (replaceAll value (js "&") (js "&amp;"))
                      (js "<") (js "&lt;"))
          (js ">") (js "&gt;"))
       [34%N] (js "&quot;"))
    (js "'") (js "&#39;").

End TimelineSvg.

(** The route [api/figma-svg], which redirects to [api/timeline-svg]. *)
Module FigmaSvg.

Section Variant.
Variable toLowerCase : jsstring -> jsstring.

Definition mapVariant (raw : option jsstring) : jsstring :=
  let value := toLowerCase (trim (default (js "small") raw)) in
  if strictEquals value (js "tiny") || strictEquals value (js "figma-xs")
     || strictEquals value (js "figma-tiny")
  then js "figma-tiny"
  else js "figma-small".

End Variant.

End FigmaSvg.

(* ===================================================================== *)
(** * The data source [notion.ts]: reading a page *)
(* ===================================================================== *)

(** The properties of a page, by name.  A property is read through the
    optional fields the getters cast it to; an absent field is [None] (for
    the [end] of a date, [null] too). *)
Module Notion.

Record TitlePart := mkTitlePart { plain_text : option jsstring }.

Record DateProperty := mkDateProperty {
  start : option jsstring;
  end_ : option jsstring
}.

Record NameProperty := mkNameProperty { name : option jsstring }.

Record NotionProperty := mkNotionProperty {
  title : option (list TitlePart);
  date : option DateProperty;
  status : option NameProperty;
  select : option NameProperty
}.

Record DateRange := mkDateRange {
  rangeStart : option (option Z);
  rangeEnd : option (option Z)
}.

(** [test] of the day pattern: four digits, a hyphen, two digits, a
    hyphen, two digits, and nothing else. *)
Definition isIsoDay (value : jsstring) : bool :=
  match value with
  | [y1; y2; y3; y4; h1; m1; m2; h2; d1; d2] =>
      RegExp.digit y1 && RegExp.digit y2 && RegExp.digit y3 && RegExp.digit y4
      && N.eqb h1 45
      && RegExp.digit m1 && RegExp.digit m2
      && N.eqb h2 45
      && RegExp.digit d1 && RegExp.digit d2
  | _ => false
  end.

Section Dates.

(** [newDate s] is the time value of [new Date(s)], [None] for an Invalid
    Date.  A [Date | null] is an [option (option Z)]: [None] is [null],
    [Some None] a Date object that is invalid. *)
Variable newDate : jsstring -> option Z.

Definition parseDateString (value : option jsstring) : option (option Z) :=
  match value with
  | None => None
  | Some [] => None
  | Some v =>
      if isIsoDay v then Some (newDate (v ++ js "T00:00:00.000Z"))
      else match newDate v with
           | None => None
           | Some t => Some (Some t)
           end
  end.

Definition getDateRange (properties : gmap string NotionProperty)
    (key : string) : DateRange :=
  let property := properties !! key in
  let parsedStart := parseDateString ((property ≫= date) ≫= start) in
  let parsedEnd :=
    match parseDateString ((property ≫= date) ≫= end_) with
    | Some d => Some d
    | None => parsedStart
    end in
  mkDateRange parsedStart parsedEnd.

End Dates.

Definition getTitle (properties : gmap string NotionProperty) (key : string)
    : jsstring :=
  let property := properties !! key in
  let title := default [] (property ≫= title) in
  let value :=
    trim (concat (map (fun part => default [] (plain_text part)) title)) in
  match value with
  | [] => js "Untitled"
  | _ :: _ => value
  end.

Definition getStatus (properties : gmap string NotionProperty) (key : string)
    : jsstring :=
  let property := properties !! key in
  match (property ≫= status) ≫= name with
  | Some n => trim n
  | None => []
  end.

Definition getSelect (properties : gmap string NotionProperty) (key : string)
    : jsstring :=
  let property := properties !! key in
  match (property ≫= select) ≫= name with
  | Some n => trim n
  | None => []
  end.

End Notion.

(* ===================================================================== *)
(** * The Number type: binary64 arithmetic *)
(* ===================================================================== *)

Module Double.

(** A finite Number is the rational it stands for; [None] stands for an
    infinite result.  An operation is the exact operation followed by
    rounding to the nearest Number, a tie going to the even mantissa. *)

(** [2^e] *)
Definition pow2 (e : Z) : Q :=
  if 0 <=? e then inject_Z (2 ^ e) else 1 # Z.to_pos (2 ^ (- e)).

(** The [e] with [2^e <= q < 2^(e+1)], for [q > 0]. *)
Definition floorLog2 (q : Q) : Z :=
  let a := Qnum q in
  let b := Zpos (Qden q) in
  if b <=? a then Z.log2 (a / b) else - Z.log2_up ((b + a - 1) / a).

(** The integer nearest to [q], a tie going to the even one. *)
Definition roundHalfEven (q : Q) : Z :=
  let f := Qfloor q in
  match (q - inject_Z f ?= 1 # 2)%Q with
  | Lt => f
  | Gt => f + 1
  | Eq => if Z.even f then f else f + 1
  end.

(** The Number nearest to [q]: a mantissa of 53 bits whose last bit is
    worth [2^e], with [e] no less than -1074; a result of magnitude
    [2^1024] or more is infinite. *)
Definition round (q : Q) : option Q :=
  if Qeq_bool q 0 then Some 0%Q
  else
    let e := Z.max (floorLog2 (Qabs q) - 52) (-1074) in
    let r := Qred (inject_Z (roundHalfEven (q / pow2 e)) * pow2 e) in
    if Qle_bool (pow2 1024) (Qabs r) then None else Some r.

Definition add (a b : Q) : option Q := round (a + b).
Definition sub (a b : Q) : option Q := round (a - b).
Definition mul (a b : Q) : option Q := round (a * b).
Definition div (a b : Q) : option Q :=
  if Qeq_bool b 0 then None else round (a / b).

(** [Math.round(x)]: the nearest integer, a half going up. *)
Definition Math_round (x : Q) : Z := Qfloor (x + (1 # 2)).

End Double.

(** The same operations of the standard library's IEEE 754 model, at
    the precision and exponent range of binary64, to compare with. *)
Module Reference.

Definition ofInteger (z : Z) : spec_float := binary_normalize 53 1024 z 0 false.

Definition valueOf (f : spec_float) : option Q :=
  match f with
  | S754_zero _ => Some 0%Q
  | S754_finite s m e => Some (inject_Z (cond_Zopp s (Zpos m)) * Double.pow2 e)%Q
  | _ => None
  end.

Definition sameNumber (x y : option Q) : bool :=
  match x, y with
  | Some a, Some b => Qeq_bool a b
  | None, None => true
  | _, _ => false
  end.

(** The quotient that [diffDays] rounds. *)
Definition quotientOfDays (start end_ : Z) : option Q :=
  valueOf (SFdiv 53 1024 (SFsub 53 1024 (ofInteger end_) (ofInteger start))
                         (ofInteger MS_PER_DAY)).

End Reference.

(* ===================================================================== *)
(** * The Date object: time values and the calendar *)
(* ===================================================================== *)

Module DateObject.

(** [TimeClip]: a time value is an integer of at most 8.64e15
    milliseconds from the epoch; [None] is the time value of an Invalid
    Date. *)
Definition TimeClip (time : Q) : option Z :=
  if Qle_bool (Qabs time) (inject_Z 8640000000000000)
  then Some (Z.quot (Qnum time) (Zpos (Qden time)))
  else None.

Definition Day (t : Z) : Z := t / MS_PER_DAY.

(** The largest year whose first day is not after [t]: the year of the
    mean Gregorian year length, or one of its neighbours. *)
Definition YearFromTime (t : Z) : Z :=
  let day := Day t in
  let y := 1970 + (400 * day) / 146097 in
  if Builtins.dayFromYear (y + 1) <=? day then y + 1
  else if Builtins.dayFromYear y <=? day then y
  else y - 1.

Definition DayWithinYear (t : Z) : Z :=
  Day t - Builtins.dayFromYear (YearFromTime t).

Definition InLeapYear (t : Z) : Z :=
  if Builtins.isLeapYear (YearFromTime t) then 1 else 0.

(** Months count from 0. *)
Definition MonthFromTime (t : Z) : Z :=
  let d := DayWithinYear t in
  let leap := InLeapYear t in
  if d <? 31 then 0
  else if d <? 59 + leap then 1
  else if d <? 90 + leap then 2
  else if d <? 120 + leap then 3
  else if d <? 151 + leap then 4
  else if d <? 181 + leap then 5
  else if d <? 212 + leap then 6
  else if d <? 243 + leap then 7
  else if d <? 273 + leap then 8
  else if d <? 304 + leap then 9
  else if d <? 334 + leap then 10
  else 11.

Definition DateFromTime (t : Z) : Z :=
  let d := DayWithinYear t in
  let leap := InLeapYear t in
  match MonthFromTime t with
  | 0 => d + 1
  | 1 => d - 30
  | 2 => d - 58 - leap
  | 3 => d - 89 - leap
  | 4 => d - 119 - leap
  | 5 => d - 150 - leap
  | 6 => d - 180 - leap
  | 7 => d - 211 - leap
  | 8 => d - 242 - leap
  | 9 => d - 272 - leap
  | 10 => d - 303 - leap
  | _ => d - 333 - leap
  end.

(** The day number of a year, a month from 0 and a day of the month. *)
Definition MakeDay (year month date : Z) : Z :=
  let ym := year + month / 12 in
  let mn := month mod 12 in
  Builtins.dayFromYear ym + Builtins.dayOfYearOfMonth ym (mn + 1) + date - 1.

(** Days and milliseconds are integers below [2^53] here, on which the
    arithmetic of Numbers is exact. *)
Definition MakeDate (day time : Z) : Z := day * MS_PER_DAY + time.

(** [Date.UTC(year, month, date)]: a year from 0 to 99 stands for the
    year 1900 later. *)
Definition Date_UTC (year month date : Z) : option Z :=
  let yr := if (0 <=? year) && (year <=? 99) then 1900 + year else year in
  TimeClip (inject_Z (MakeDate (MakeDay yr month date) 0)).

Definition getUTCFullYear (t : Z) : Z := YearFromTime t.
Definition getUTCMonth (t : Z) : Z := MonthFromTime t.
Definition getUTCDate (t : Z) : Z := DateFromTime t.

End DateObject.

(* ===================================================================== *)
(** * The date helpers of [timeline.ts] as the runtime computes them *)
(* ===================================================================== *)

(** A date is the time value of a valid Date object and [days] an
    integer below [2^53], which are Numbers; a result of [None] is an
    Invalid Date, or a number that is not finite. *)
Module Runtime.

Definition startOfUtcDay (date : Z) : option Z :=
  DateObject.Date_UTC (DateObject.getUTCFullYear date)
    (DateObject.getUTCMonth date) (DateObject.getUTCDate date).

Definition addUtcDays (date days : Z) : option Z :=
  a ← Double.mul (inject_Z days) (inject_Z 24);
  b ← Double.mul a (inject_Z 60);
  c ← Double.mul b (inject_Z 60);
  ms ← Double.mul c (inject_Z 1000);
  time ← Double.add (inject_Z date) ms;
  DateObject.TimeClip time.

Definition diffDays (start end_ : Z) : option Z :=
  difference ← Double.sub (inject_Z end_) (inject_Z start);
  quotient ← Double.div difference (inject_Z (24 * 60 * 60 * 1000));
  Some (Double.Math_round quotient).

End Runtime.

(** The time values of valid Date objects, and those within 50,000,000
    days of the epoch: any two of the latter are less than [2^53]
    milliseconds apart. *)
Definition validTime (t : Z) : Prop := Z.abs t <= 8640000000000000.
Definition nearEpoch (t : Z) : Prop := Z.abs t <= 4320000000000000.

(* ===================================================================== *)
(** * Vocabulary of first-fit placement *)
(* ===================================================================== *)

(** Rows and lanes are filled the same way.  A placed item has a slot (its
    row or lane), a start and an end coordinate; a slot is marked with the
    end of the last item put in it, and an item fits a slot when it starts
    more than [gap] after that mark. *)
Section FirstFitVocabulary.
Context {B : Type} (slotOf startOf endOf : B -> Z) (gap : Z).

(** One placement: the item goes behind the marks [slots], which become
    [slots']. *)
Definition firstFitStep (slots : list Z) (p : B) (slots' : list Z) : Prop :=
  startOf p <= endOf p
  /\ ((slotOf p = Z.of_nat (length slots)
       /\ slots' = slots ++ [endOf p]
       /\ (forall (j : nat) (o : Z), slots !! j = Some o -> startOf p <= o + gap))
      \/ (0 <= slotOf p < Z.of_nat (length slots)
          /\ (exists o, slots !! Z.to_nat (slotOf p) = Some o /\ startOf p > o + gap)
          /\ slots' = <[Z.to_nat (slotOf p) := endOf p]> slots)).

(** What holds between the items placed so far and the marks: every item
    ends at or before the mark of its slot; two items of one slot are more
    than [gap] apart; every slot is marked with the end of an item in it
    ([lastOf] lists these items by slot); there are no more slots than
    items. *)
Definition firstFitInvariant (placed : list B) (slots : list Z) : Prop :=
  (forall (k : nat) (p : B),
      placed !! k = Some p ->
      startOf p <= endOf p /\ 0 <= slotOf p
      /\ exists o, slots !! Z.to_nat (slotOf p) = Some o /\ endOf p <= o)
  /\ (forall (i j : nat) (a b : B),
        placed !! i = Some a -> placed !! j = Some b -> (i < j)%nat ->
        slotOf a = slotOf b -> startOf b > endOf a + gap)
  /\ (exists lastOf : list nat,
        length lastOf = length slots
        /\ forall (r k : nat), lastOf !! r = Some k ->
             exists p, placed !! k = Some p /\ slotOf p = Z.of_nat r
                       /\ slots !! r = Some (endOf p))
  /\ (length slots <= length placed)%nat.

(** The items are placed in the order of their starts. *)
Definition startsAscend (placed : list B) : Prop :=
  forall (i j : nat) (a b : B),
    placed !! i = Some a -> placed !! j = Some b -> (i < j)%nat ->
    startOf a <= startOf b.

(** [n] different items are busy at one coordinate [d]: each has started
    and is less than [gap] past its end. *)
Definition busyTogether (placed : list B) (n : nat) : Prop :=
  exists (d : Z) (ks : list nat),
    NoDup ks /\ length ks = n
    /\ forall k : nat, k ∈ ks ->
         exists p, placed !! k = Some p /\ startOf p <= d <= endOf p + gap.

End FirstFitVocabulary.

(* ===================================================================== *)
(** * Vocabulary of XML escaping *)
(* ===================================================================== *)

(** The five characters with an entity: ampersand, less-than, greater-than,
    double quote and apostrophe. *)
Definition needsEscape (c : N) : bool :=
  N.eqb 38 c || N.eqb 60 c || N.eqb 62 c || N.eqb 34 c || N.eqb 39 c.

(** The entity of a character, or the character itself. *)
Definition escapeChar (c : N) : jsstring :=
  if N.eqb 38 c then js "&amp;"
  else if N.eqb 60 c then js "&lt;"
  else if N.eqb 62 c then js "&gt;"
  else if N.eqb 34 c then js "&quot;"
  else if N.eqb 39 c then js "&#39;"
  else [c].

(* ===================================================================== *)
(** * Text utilities: truncation *)
(* ===================================================================== *)

Section ClampText.

(** [slice(0, e)] with a bound inside the string keeps [e] characters. *)
Lemma slice_from_start (s : jsstring) (e : Z) :
  0 <= e -> slice s 0 e = take (Z.to_nat e) s.
Proof.
  intros He. unfold slice, jslength.
  replace (0 <? 0) with false by reflexivity.
  destruct (e <? 0) eqn:Hneg; [lia|].
  rewrite (Z.min_l 0) by lia. simpl drop. rewrite Z.sub_0_r.
  destruct (Z.le_gt_cases e (Z.of_nat (length s))) as [Hle|Hgt].
  - rewrite Z.min_l, Z.max_l by lia. reflexivity.
  - rewrite Z.min_r, Z.max_l by lia.
    rewrite Nat2Z.id, (take_ge s (Z.to_nat e)) by lia. apply firstn_all.
Qed.

(** [slice(0, e)] with a negative bound drops the last [-e] characters. *)
Lemma slice_negative_end (s : jsstring) (e : Z) :
  e < 0 -> slice s 0 e = take (Z.to_nat (jslength s + e)) s.
Proof.
  intros He. unfold slice, jslength.
  replace (0 <? 0) with false by reflexivity.
  destruct (e <? 0) eqn:Hneg; [|lia].
  rewrite (Z.min_l 0) by lia. simpl drop. rewrite Z.sub_0_r.
  f_equal. lia.
Qed.

Lemma clampText_fits (input : jsstring) (maxChars : Z) :
  jslength input <= maxChars -> clampText input maxChars = input.
Proof.
  intros H. unfold clampText.
  destruct (jslength input <=? maxChars) eqn:E; [reflexivity|lia].
Qed.

Lemma clampText_cut (input : jsstring) (maxChars : Z) :
  1 <= maxChars < jslength input ->
  clampText input maxChars = take (Z.to_nat (maxChars - 1)) input ++ ELLIPSIS.
Proof.
  intros H. unfold clampText.
  destruct (jslength input <=? maxChars) eqn:E; [lia|].
  rewrite slice_from_start by lia. reflexivity.
Qed.

Lemma clampText_cut_from_end (input : jsstring) (maxChars : Z) :
  maxChars < 1 -> maxChars < jslength input ->
  clampText input maxChars
  = take (Z.to_nat (jslength input - (1 - maxChars))) input ++ ELLIPSIS.
Proof.
  intros H1 H2. unfold clampText.
  destruct (jslength input <=? maxChars) eqn:E; [lia|].
  rewrite slice_negative_end by lia. do 2 f_equal. lia.
Qed.

(** A bound below 1 is not read as 1: on a text of more than
    [1 - maxChars] characters the two results differ in length. *)
Lemma clampText_below_one_differs (input : jsstring) (maxChars : Z) :
  maxChars < 1 -> 1 - maxChars < jslength input ->
  clampText input maxChars <> clampText input (Z.max 1 maxChars).
Proof.
  intros H1 H2. rewrite Z.max_l by lia.
  rewrite clampText_cut_from_end, (clampText_cut input 1) by lia.
  intros Heq. apply (f_equal length) in Heq.
  rewrite !length_app, !length_take in Heq. unfold jslength in *.
  change (Z.to_nat (1 - 1)) with 0%nat in Heq. lia.
Qed.

End ClampText.

Example clampText_short : clampText (js "hello") 5 = js "hello".
Proof. reflexivity. Qed.

Example clampText_long :
  clampText (js "hello world") 5 = js "hell" ++ ELLIPSIS.
Proof. reflexivity. Qed.

(** C6, as the code has it.  A text that fits is returned unchanged.  A
    longer text is cut and the truncation suffix is appended: with
    [maxChars >= 1] the first [maxChars - 1] characters are kept; with
    [maxChars < 1] the call still returns, and keeps the text without its
    last [1 - maxChars] characters, which on a text of more than
    [1 - maxChars] characters is not the result for [max(1, maxChars)]. *)
Theorem clampText_cases (input : jsstring) (maxChars : Z) :
  (jslength input <= maxChars -> clampText input maxChars = input)
  /\ (1 <= maxChars < jslength input ->
      clampText input maxChars
      = take (Z.to_nat (maxChars - 1)) input ++ ELLIPSIS)
  /\ (maxChars < 1 -> maxChars < jslength input ->
      clampText input maxChars
      = take (Z.to_nat (jslength input - (1 - maxChars))) input ++ ELLIPSIS)
  /\ (maxChars < 1 -> 1 - maxChars < jslength input ->
      clampText input maxChars <> clampText input (Z.max 1 maxChars)).
Proof.
  split; [apply clampText_fits|].
  split; [apply clampText_cut|].
  split; [apply clampText_cut_from_end | apply clampText_below_one_differs].
Qed.

Lemma clampText_cases_witness :
  clampText (js "hello world") 5 = take 4 (js "hello world") ++ ELLIPSIS.
Proof.
  apply (proj1 (proj2 (clampText_cases (js "hello world") 5))).
  vm_compute. split; [discriminate | reflexivity].
Defined.

(** C6 as stated fails below 1: with [maxChars = 0] the text keeps all but
    its last character, which is not the result for [max(1, 0)]. *)
Lemma clampText_below_one_counterexample :
  clampText (js "hello") 0 = js "hell" ++ ELLIPSIS
  /\ clampText (js "hello") (Z.max 1 0) = ELLIPSIS
  /\ clampText (js "hello") 0 <> clampText (js "hello") (Z.max 1 0).
Proof. repeat split. vm_compute. discriminate. Qed.

(** On a text of at most [1 - maxChars] characters the two results can
    be the same: both are the bare suffix. *)
Example clampText_below_one_short :
  clampText (js "ab") (-1) = ELLIPSIS
  /\ clampText (js "ab") (Z.max 1 (-1)) = ELLIPSIS.
Proof. split; reflexivity. Qed.

(** C7, as the code has it: truncation is idempotent for every
    [n >= 1]. *)
Theorem clampText_idempotent (s : jsstring) (n : Z) :
  1 <= n -> clampText (clampText s n) n = clampText s n.
Proof.
  intros Hn. destruct (Z.le_gt_cases (jslength s) n) as [Hfit|Hlong].
  - rewrite (clampText_fits s n) by assumption. apply clampText_fits, Hfit.
  - rewrite (clampText_cut s n) by lia.
    set (kept := take (Z.to_nat (n - 1)) s).
    assert (Hkept : length kept = Z.to_nat (n - 1)).
    { subst kept. rewrite length_take. unfold jslength in Hlong. lia. }
    unfold clampText.
    destruct (jslength (kept ++ ELLIPSIS) <=? n); [reflexivity|].
    rewrite slice_from_start by lia.
    rewrite take_app_length' by (symmetry; exact Hkept). reflexivity.
Qed.

Lemma clampText_idempotent_witness :
  clampText (clampText (js "hello world") 5) 5 = clampText (js "hello world") 5.
Proof. apply (clampText_idempotent (js "hello world") 5). lia. Defined.

(** C7 as stated fails for a negative bound: each pass drops two more
    characters of what the pass before returned. *)
Lemma clampText_idempotent_counterexample :
  clampText (clampText (js "hello") (-1)) (-1) <> clampText (js "hello") (-1).
Proof. vm_compute. discriminate. Qed.

(** With the suffix as it stands, a bound of 0 is not idempotent either:
    the second pass cuts into the suffix of the first. *)
Example clampText_zero_twice :
  clampText (js "hello") 0 = js "hell" ++ ELLIPSIS
  /\ clampText (clampText (js "hello") 0) 0
     = js "hell" ++ take 2 ELLIPSIS ++ ELLIPSIS.
Proof. split; reflexivity. Qed.

(* ===================================================================== *)
(** * Text utilities: release labels *)
(* ===================================================================== *)

(** C8.  The pattern matches with the prefix up to the version in the
    first three captures and the suffix in the fourth; the suffix is
    dropped and "Backend" becomes "BE". *)
Theorem compactReleaseLabel_growth_backend :
  RegExp.execLabel (js "Growth Backend 2.3.1 rollout")
  = Some (RegExp.Captures (js "Growth Backend") (js " ") (js "2.3.1")
                          (Some (js " rollout")))
  /\ compactReleaseLabel (js "Growth Backend 2.3.1 rollout")
     = js "Growth BE 2.3.1".
Proof. split; vm_compute; reflexivity. Qed.

(* ===================================================================== *)
(** * Stage tone *)
(* ===================================================================== *)

Section Includes.

Lemma startsWith_map (f : N -> N) (s pat : jsstring) :
  startsWith s pat = true -> startsWith (map f s) (map f pat) = true.
Proof.
  revert s. induction pat as [|p pat IH]; intros [|c s]; simpl; try done.
  intros [Hpc Hrest]%andb_prop. apply N.eqb_eq in Hpc. subst c.
  rewrite N.eqb_refl. simpl. apply IH, Hrest.
Qed.

Lemma includes_map (f : N -> N) (s pat : jsstring) :
  includes s pat = true -> includes (map f s) (map f pat) = true.
Proof.
  induction s as [|c s IH]; simpl.
  - rewrite !orb_false_r. apply (startsWith_map f []).
  - intros [H|H]%orb_prop; apply orb_true_iff.
    + left. apply (startsWith_map f (c :: s)), H.
    + right. apply IH, H.
Qed.

(** A keyword in lower case survives the lower-casing of the text
    around it. *)
Lemma includes_toLowerCase (s pat : jsstring) :
  Builtins.toLowerCase pat = pat ->
  includes s pat = true -> includes (Builtins.toLowerCase s) pat = true.
Proof.
  intros Hpat H. rewrite <- Hpat. apply includes_map, H.
Qed.

Lemma stageTone_running (toLowerCase : jsstring -> jsstring) (stage : jsstring) :
  hasAny (toLowerCase stage) runningKeywords = true ->
  stageTone toLowerCase stage = running.
Proof.
  unfold hasAny, stageTone, runningKeywords. simpl.
  rewrite orb_false_r, orb_assoc. intros ->. reflexivity.
Qed.

End Includes.

(** C9.  The three keyword tables are tried in the order running, winner,
    ended on the lower-cased stage, and neutral is what is left; so a
    stage with "running" and "ended" is running, and "Winner - Ended" is
    a winner. *)
Theorem stageTone_priority (toLowerCase : jsstring -> jsstring) (stage : jsstring) :
  let lower := toLowerCase stage in
  (hasAny lower runningKeywords = true -> stageTone toLowerCase stage = running)
  /\ (hasAny lower runningKeywords = false ->
      hasAny lower winnerKeywords = true -> stageTone toLowerCase stage = winner)
  /\ (hasAny lower runningKeywords = false ->
      hasAny lower winnerKeywords = false ->
      hasAny lower endedKeywords = true -> stageTone toLowerCase stage = ended)
  /\ (hasAny lower runningKeywords = false ->
      hasAny lower winnerKeywords = false ->
      hasAny lower endedKeywords = false -> stageTone toLowerCase stage = neutral)
  /\ (includes lower (js "running") = true ->
      includes lower (js "ended") = true -> stageTone toLowerCase stage = running)
  /\ (includes stage (js "running") = true ->
      includes stage (js "ended") = true ->
      stageTone Builtins.toLowerCase stage = running)
  /\ stageTone Builtins.toLowerCase (js "Winner - Ended") = winner.
Proof.
  cbv zeta. split; [apply stageTone_running|].
  split; [|split; [|split; [|split; [|split]]]].
  - unfold hasAny, stageTone, runningKeywords, winnerKeywords. simpl.
    rewrite !orb_false_r, !orb_assoc. intros -> ->. reflexivity.
  - unfold hasAny, stageTone, runningKeywords, winnerKeywords, endedKeywords.
    simpl. rewrite !orb_false_r, !orb_assoc. intros -> -> ->. reflexivity.
  - unfold hasAny, stageTone, runningKeywords, winnerKeywords, endedKeywords.
    simpl. rewrite !orb_false_r, !orb_assoc. intros -> -> ->. reflexivity.
  - intros Hrun _. apply stageTone_running.
    unfold hasAny, runningKeywords. simpl. rewrite Hrun. reflexivity.
  - intros Hrun _. apply stageTone_running.
    unfold hasAny, runningKeywords. simpl.
    rewrite (includes_toLowerCase stage (js "running")); [reflexivity..|exact Hrun].
  - vm_compute. reflexivity.
Qed.

Lemma stageTone_priority_witness :
  stageTone Builtins.toLowerCase (js "Running - Ended") = running.
Proof.
  apply (proj1 (stageTone_priority Builtins.toLowerCase (js "Running - Ended"))).
  vm_compute. reflexivity.
Defined.

(* ===================================================================== *)
(** * Array helpers: facts *)
(* ===================================================================== *)

Section ArrayFacts.
Context {A : Type}.

Lemma findIndex_range (p : A -> bool) (l : list A) :
  -1 <= findIndex p l < Z.of_nat (length l).
Proof.
  induction l as [|x l IH]; simpl; [lia|].
  destruct (p x); [lia|].
  destruct (findIndex p l <? 0) eqn:E; lia.
Qed.

(** No element satisfies the predicate when the search gives -1. *)
Lemma findIndex_none (p : A -> bool) (l : list A) :
  findIndex p l < 0 ->
  forall (j : nat) (y : A), l !! j = Some y -> p y = false.
Proof.
  induction l as [|x l IH]; simpl; intros Hneg j y Hj; [done|].
  destruct (p x) eqn:Hx; [lia|].
  destruct (findIndex p l <? 0) eqn:E; [|lia].
  destruct j as [|j]; simpl in Hj.
  - congruence.
  - apply (IH ltac:(lia) j y Hj).
Qed.

(** Otherwise the result is the first index whose element satisfies it. *)
Lemma findIndex_first (p : A -> bool) (l : list A) :
  0 <= findIndex p l ->
  (exists x, l !! Z.to_nat (findIndex p l) = Some x /\ p x = true)
  /\ (forall (j : nat) (y : A),
        l !! j = Some y -> Z.of_nat j < findIndex p l -> p y = false).
Proof.
  induction l as [|x l IH]; simpl; [lia|].
  destruct (p x) eqn:Hx.
  - intros _. split; [exists x; done|]. intros j y _ Hlt. lia.
  - destruct (findIndex p l <? 0) eqn:E; [lia|]. intros _.
    apply Z.ltb_ge in E. destruct (IH E) as [(z & Hz & Hpz) Hbefore].
    split.
    + exists z. split; [|exact Hpz].
      replace (Z.to_nat (findIndex p l + 1)) with (S (Z.to_nat (findIndex p l)))
        by lia. exact Hz.
    + intros [|j] y Hj Hlt; simpl in Hj; [congruence|].
      apply (Hbefore j y Hj). lia.
Qed.

End ArrayFacts.

Section MapWithState.
Context {S A B : Type} (f : S -> A -> B * S).

Lemma mapWithState_app (st : S) (l1 l2 : list A) :
  mapWithState f st (l1 ++ l2)
  = ((mapWithState f st l1).1
       ++ (mapWithState f (mapWithState f st l1).2 l2).1,
     (mapWithState f (mapWithState f st l1).2 l2).2).
Proof.
  revert st. induction l1 as [|x l1 IH]; intros st; simpl.
  - destruct (mapWithState f st l2); reflexivity.
  - destruct (f st x) as [y st1]. rewrite IH.
    destruct (mapWithState f st1 l1) as [ys st2]. simpl.
    destruct (mapWithState f st2 l2); reflexivity.
Qed.

Lemma mapWithState_length (st : S) (l : list A) :
  length (mapWithState f st l).1 = length l.
Proof.
  revert st. induction l as [|x l IH]; intros st; simpl; [reflexivity|].
  destruct (f st x) as [y st1]. specialize (IH st1).
  destruct (mapWithState f st1 l). simpl in *. lia.
Qed.

(** The loop rule: a relation between the outputs so far and the state
    that holds at the start and is kept by each call holds at the end. *)
Lemma mapWithState_invariant (I : list B -> S -> Prop) (st : S) (l : list A) :
  I [] st ->
  (forall done s x, I done s -> I (done ++ [(f s x).1]) (f s x).2) ->
  I (mapWithState f st l).1 (mapWithState f st l).2.
Proof.
  intros Hinit Hstep.
  enough (Hgen : forall done s, I done s ->
            I (done ++ (mapWithState f s l).1) (mapWithState f s l).2)
    by exact (Hgen [] st Hinit).
  induction l as [|x l IH]; intros done s Hdone; simpl.
  - rewrite app_nil_r. exact Hdone.
  - specialize (Hstep done s x Hdone). destruct (f s x) as [y s1].
    specialize (IH (done ++ [y]) s1 Hstep).
    destruct (mapWithState f s1 l) as [ys s2]. simpl in *.
    rewrite <- app_assoc in IH. exact IH.
Qed.

(** The output at index [k] is produced from the state left by the
    first [k] calls. *)
Lemma mapWithState_lookup (st : S) (l : list A) (k : nat) (x : A) :
  l !! k = Some x ->
  (mapWithState f st l).1 !! k
  = Some (f (mapWithState f st (take k l)).2 x).1
  /\ (mapWithState f st (take (Datatypes.S k) l)).2
     = (f (mapWithState f st (take k l)).2 x).2.
Proof.
  intros Hk. split.
  - rewrite <- (take_drop_middle l k x Hk) at 1.
    rewrite mapWithState_app. cbn [fst].
    rewrite lookup_app_r; rewrite mapWithState_length, length_take_le;
      try (apply Nat.lt_le_incl, (lookup_lt_Some l k x Hk)); [|lia].
    rewrite Nat.sub_diag. simpl.
    destruct (f (mapWithState f st (take k l)).2 x) as [y st1].
    destruct (mapWithState f st1 (drop (Datatypes.S k) l)). reflexivity.
  - rewrite (take_S_r l k x Hk), mapWithState_app. simpl.
    destruct (f (mapWithState f st (take k l)).2 x). reflexivity.
Qed.

End MapWithState.

(* ===================================================================== *)
(** * The layout: experiment rows *)
(* ===================================================================== *)

Section Rows.
Variable Date_parse : jsstring -> Z.
Variable localeCompare : jsstring -> jsstring -> Z.

(** What one call of the experiment callback does: the indexes are
    clamped, and the row is the first free one or a new one. *)
Lemma placeExperiment_step (startDate : Z) (rowEnds : list Z)
    (x : ExperimentItem.t) :
  let p := (placeExperiment Date_parse startDate rowEnds x).1 in
  let rowEnds' := (placeExperiment Date_parse startDate rowEnds x).2 in
  let s := PositionedExperiment.startIndex p in
  let e := PositionedExperiment.endIndex p in
  let r := PositionedExperiment.row p in
  PositionedExperiment.item p = x
  /\ s = Z.max 0 (diffDays startDate (utcDate Date_parse (ExperimentItem.startDate x)))
  /\ e = Z.max s (diffDays startDate (utcDate Date_parse (ExperimentItem.endDate x)))
  /\ (forall (j : nat) (o : Z), rowEnds !! j = Some o -> Z.of_nat j < r -> o >= s)
  /\ ((r = Z.of_nat (length rowEnds) /\ rowEnds' = rowEnds ++ [e])
      \/ (0 <= r < Z.of_nat (length rowEnds)
          /\ (exists o, rowEnds !! Z.to_nat r = Some o /\ s > o)
          /\ rowEnds' = <[Z.to_nat r := e]> rowEnds)).
Proof.
  unfold placeExperiment.
  set (s := Z.max 0 _). set (e := Z.max s _).
  set (q := fun rowEnd : Z => s >? rowEnd).
  pose proof (findIndex_range q rowEnds) as Hrange.
  destruct (findIndex q rowEnds <? 0) eqn:Hneg; cbn.
  - apply Z.ltb_lt in Hneg.
    repeat split; try reflexivity.
    + intros j o Hj _. pose proof (findIndex_none q rowEnds Hneg j o Hj) as Hq.
      unfold q in Hq. lia.
    + left. done.
  - apply Z.ltb_ge in Hneg.
    destruct (findIndex_first q rowEnds Hneg) as [(o & Ho & Hqo) Hbefore].
    repeat split; try reflexivity.
    + intros j o' Hj Hlt. pose proof (Hbefore j o' Hj Hlt) as Hq.
      unfold q in Hq. lia.
    + right. repeat split; try lia.
      exists o. split; [exact Ho|]. unfold q in Hqo. lia.
Qed.

Lemma rowsInvariant_step (startDate : Z) (placed : list PositionedExperiment.t)
    (rowEnds : list Z) (x : ExperimentItem.t) :
  rowsInvariant placed rowEnds ->
  rowsInvariant (placed ++ [(placeExperiment Date_parse startDate rowEnds x).1])
                (placeExperiment Date_parse startDate rowEnds x).2.
Proof.
  intros [Hends Hrows].
  pose proof (placeExperiment_step startDate rowEnds x) as Hstep.
  cbv zeta in Hstep.
  set (p := (placeExperiment Date_parse startDate rowEnds x).1) in *.
  set (rowEnds' := (placeExperiment Date_parse startDate rowEnds x).2) in *.
  destruct Hstep as (_ & Hs & He & _ & Hrow).
  assert (Hse : 0 <= PositionedExperiment.startIndex p
                <= PositionedExperiment.endIndex p) by lia.
  (* an earlier experiment of the row of [p] has ended before [p] starts *)
  assert (Hearlier : forall k a, placed !! k = Some a ->
            PositionedExperiment.row a = PositionedExperiment.row p ->
            PositionedExperiment.startIndex p > PositionedExperiment.endIndex a).
  { intros k a Hk Hsame. destruct (Hends k a Hk) as (_ & Hr0 & o & Ho & Hle).
    destruct Hrow as [[Hnew _]|(Hr & (o' & Ho' & Hgt) & _)].
    - apply lookup_lt_Some in Ho. lia.
    - rewrite Hsame in Ho. rewrite Ho' in Ho. injection Ho as ->. lia. }
  split.
  - intros k q Hk. apply lookup_app_Some in Hk as [Hk|[Hlen Hk]].
    + destruct (Hends k q Hk) as (Hq & Hr0 & o & Ho & Hle).
      split; [exact Hq|]. split; [exact Hr0|].
      destruct Hrow as [[_ ->]|(Hr & (o' & Ho' & Hgt) & ->)].
      * exists o. split; [|exact Hle]. apply lookup_app_l_Some, Ho.
      * destruct (decide (PositionedExperiment.row q = PositionedExperiment.row p)) as [Heq|Hne].
        -- exists (PositionedExperiment.endIndex p).
           rewrite Heq. split; [apply list_lookup_insert_eq; lia|].
           specialize (Hearlier k q Hk Heq). lia.
        -- exists o. split; [|exact Hle].
           rewrite list_lookup_insert_ne by lia. exact Ho.
    + apply list_lookup_singleton_Some in Hk as [_ <-].
      split; [exact Hse|].
      destruct Hrow as [[Hnew ->]|(Hr & _ & ->)].
      * split; [lia|]. exists (PositionedExperiment.endIndex p).
        split; [|lia]. rewrite Hnew, Nat2Z.id.
        apply list_lookup_middle. reflexivity.
      * split; [lia|]. exists (PositionedExperiment.endIndex p).
        split; [|lia]. apply list_lookup_insert_eq. lia.
  - intros i j a b Hi Hj Hij Hsame.
    apply lookup_app_Some in Hj as [Hj|[Hlen Hj]].
    + assert (Hi' : placed !! i = Some a).
      { apply lookup_lt_Some in Hj. rewrite lookup_app_l in Hi by lia. exact Hi. }
      exact (Hrows i j a b Hi' Hj Hij Hsame).
    + apply list_lookup_singleton_Some in Hj as [Hj0 <-].
      assert (Hi' : placed !! i = Some a).
      { rewrite lookup_app_l in Hi by lia. exact Hi. }
      exact (Hearlier i a Hi' Hsame).
Qed.

Lemma rowsInvariant_loop (startDate : Z) (items : list ExperimentItem.t) :
  rowsInvariant
    (mapWithState (placeExperiment Date_parse startDate) [] items).1
    (mapWithState (placeExperiment Date_parse startDate) [] items).2.
Proof.
  apply (mapWithState_invariant _ rowsInvariant).
  - split; intros; done.
  - intros placed rowEnds x. apply rowsInvariant_step.
Qed.

End Rows.

(* ===================================================================== *)
(** * The layout: fields of the result *)
(* ===================================================================== *)

Ltac layout_fields :=
  cbn [TimelineLayout.startDate TimelineLayout.endDate TimelineLayout.totalDays
       TimelineLayout.positionedExperiments TimelineLayout.positionedReleases
       TimelineLayout.experimentRows TimelineLayout.releaseLanes
       TimelineLayout.canvasWidth fst snd].

Section Fields.
Variable Date_parse : jsstring -> Z.
Variable localeCompare : jsstring -> jsstring -> Z.
Variables (now : Z) (experiments : list ExperimentItem.t)
          (releases : list ReleaseItem.t) (windowStartIso : jsstring).

Let L := layoutTimeline Date_parse localeCompare now experiments releases
                        windowStartIso.

Lemma layoutTimeline_dates :
  TimelineLayout.startDate L = utcDate Date_parse windowStartIso
  /\ TimelineLayout.endDate L
     = fold_left (fun latest candidate =>
                    if candidate >? latest then candidate else latest)
         ([startOfUtcDay now]
          ++ map (fun exp => utcDate Date_parse (ExperimentItem.endDate exp))
                 experiments
          ++ map (fun rel => utcDate Date_parse (ReleaseItem.date rel)) releases)
         (startOfUtcDay now)
  /\ TimelineLayout.totalDays L
     = Z.max 1 (diffDays (TimelineLayout.startDate L) (TimelineLayout.endDate L) + 1).
Proof.
  subst L. unfold layoutTimeline.
  destruct (mapWithState (placeExperiment _ _) _ _) as [pe re].
  destruct (mapWithState (placeRelease _ _) _ _) as [pr [lo mx]].
  layout_fields. done.
Qed.

Lemma layoutTimeline_experiments :
  let run := mapWithState (placeExperiment Date_parse (TimelineLayout.startDate L)) []
               (sort (byStartDate localeCompare) experiments) in
  TimelineLayout.positionedExperiments L = run.1
  /\ TimelineLayout.experimentRows L = Z.max 1 (Z.of_nat (length run.2)).
Proof.
  subst L. unfold layoutTimeline.
  destruct (mapWithState (placeRelease _ _) _ _) as [pr [lo mx]].
  destruct (mapWithState (placeExperiment _ _) _ _) as [pe re] eqn:E.
  layout_fields. unfold byStartDate. rewrite E. done.
Qed.

Lemma layoutTimeline_releases :
  let run := mapWithState (placeRelease Date_parse (TimelineLayout.startDate L))
               ([], TimelineLayout.totalDays L * DAY_WIDTH)
               (sort (byDate localeCompare) releases) in
  TimelineLayout.positionedReleases L = run.1
  /\ TimelineLayout.releaseLanes L = Z.max 1 (Z.of_nat (length run.2.1))
  /\ TimelineLayout.canvasWidth L
     = Z.max (TimelineLayout.totalDays L * DAY_WIDTH) run.2.2.
Proof.
  subst L. unfold layoutTimeline.
  destruct (mapWithState (placeExperiment _ _) _ _) as [pe re].
  destruct (mapWithState (placeRelease _ _) _ _) as [pr [lo mx]] eqn:E.
  layout_fields. unfold byDate. rewrite E. done.
Qed.

End Fields.

(** C1.  Two experiments that share a row never share a day, not even an
    end point: one starts strictly after the other has ended.  So two
    experiments whose ranges touch are in different rows.  (The ranges
    are well formed: [0 <= startIndex <= endIndex].) *)
Theorem rows_hold_disjoint_ranges
    (Date_parse : jsstring -> Z) (localeCompare : jsstring -> jsstring -> Z)
    (now : Z) (experiments : list ExperimentItem.t)
    (releases : list ReleaseItem.t) (windowStartIso : jsstring) :
  let placed :=
    TimelineLayout.positionedExperiments
      (layoutTimeline Date_parse localeCompare now experiments releases
                      windowStartIso) in
  (forall (i j : nat) (a b : PositionedExperiment.t),
      placed !! i = Some a -> placed !! j = Some b -> i <> j ->
      PositionedExperiment.row a = PositionedExperiment.row b ->
      PositionedExperiment.startIndex a > PositionedExperiment.endIndex b
      \/ PositionedExperiment.startIndex b > PositionedExperiment.endIndex a)
  /\ (forall (i j : nat) (a b : PositionedExperiment.t),
        placed !! i = Some a -> placed !! j = Some b -> i <> j ->
        PositionedExperiment.startIndex a = PositionedExperiment.endIndex b ->
        PositionedExperiment.row a <> PositionedExperiment.row b)
  /\ (forall (i : nat) (a : PositionedExperiment.t),
        placed !! i = Some a ->
        0 <= PositionedExperiment.startIndex a <= PositionedExperiment.endIndex a).
Proof.
  intros placed.
  destruct (layoutTimeline_experiments Date_parse localeCompare now experiments
              releases windowStartIso) as [Hplaced _].
  cbv zeta in Hplaced. fold placed in Hplaced.
  pose proof (rowsInvariant_loop Date_parse
                (TimelineLayout.startDate
                   (layoutTimeline Date_parse localeCompare now experiments
                                   releases windowStartIso))
                (sort (byStartDate localeCompare) experiments)) as [Hends Hrows].
  rewrite <- Hplaced in Hends, Hrows.
  assert (Hpair : forall (i j : nat) (a b : PositionedExperiment.t),
      placed !! i = Some a -> placed !! j = Some b -> i <> j ->
      PositionedExperiment.row a = PositionedExperiment.row b ->
      PositionedExperiment.startIndex a > PositionedExperiment.endIndex b
      \/ PositionedExperiment.startIndex b > PositionedExperiment.endIndex a).
  { intros i j a b Hi Hj Hij Hsame.
    destruct (Nat.lt_total i j) as [Hlt|[Heq|Hgt]]; [|done|].
    - right. exact (Hrows i j a b Hi Hj Hlt Hsame).
    - left. exact (Hrows j i b a Hj Hi Hgt (eq_sym Hsame)). }
  split; [exact Hpair|]. split.
  - intros i j a b Hi Hj Hij Htouch Hsame.
    destruct (Hends i a Hi) as (Ha & _). destruct (Hends j b Hj) as (Hb & _).
    destruct (Hpair i j a b Hi Hj Hij Hsame); lia.
  - intros i a Hi. destruct (Hends i a Hi) as (Ha & _). exact Ha.
Qed.

(* ===================================================================== *)
(** * The layout: release lanes *)
(* ===================================================================== *)

Section Lanes.
Variable Date_parse : jsstring -> Z.

Lemma labelWidth_clamp (v : Z) : Z.max 92 (Z.min 240 v) = Z.min 240 (Z.max 92 v).
Proof. lia. Qed.

(** What one call of the release callback does. *)
Lemma placeRelease_step (startDate : Z) (st : list Z * Z) (x : ReleaseItem.t) :
  let p := (placeRelease Date_parse startDate st x).1 in
  let st' := (placeRelease Date_parse startDate st x).2 in
  PositionedRelease.item p = x
  /\ PositionedRelease.dayIndex p
     = Z.max 0 (diffDays startDate (utcDate Date_parse (ReleaseItem.date x)))
  /\ PositionedRelease.labelEnd p
     = anchorX (PositionedRelease.dayIndex p)
       + labelWidthOf (compactReleaseLabel (ReleaseItem.name x))
  /\ firstFreeLane st.1 (anchorX (PositionedRelease.dayIndex p))
                   (PositionedRelease.lane p)
  /\ occupyLane st.1 (PositionedRelease.lane p) (PositionedRelease.labelEnd p)
                st'.1
  /\ st'.2 = Z.max st.2 (PositionedRelease.labelEnd p + 20).
Proof.
  destruct st as [occ mx]. unfold placeRelease, labelWidthOf, anchorX.
  rewrite labelWidth_clamp.
  set (d := Z.max 0 _). set (ax := d * DAY_WIDTH + DAY_WIDTH / 2).
  set (w := Z.min 240 _).
  set (q := fun occupiedUntil : Z => ax >? occupiedUntil + 12).
  pose proof (findIndex_range q occ) as Hrange.
  destruct (findIndex q occ <? 0) eqn:Hneg; cbn.
  - apply Z.ltb_lt in Hneg.
    repeat split; try reflexivity; try lia.
    + intros j o Hj _. pose proof (findIndex_none q occ Hneg j o Hj) as Hq.
      unfold q in Hq. lia.
    + rewrite Nat2Z.id. apply list_lookup_middle. reflexivity.
    + intros j Hj. rewrite Nat2Z.id in Hj.
      destruct (Nat.lt_total j (length occ)) as [Hlt|[Heq|Hgt]]; [|done|].
      * apply lookup_app_l, Hlt.
      * rewrite (lookup_ge_None_2 occ) by lia.
        apply lookup_ge_None_2. rewrite length_app. simpl. lia.
  - apply Z.ltb_ge in Hneg.
    destruct (findIndex_first q occ Hneg) as [(o & Ho & Hqo) Hbefore].
    repeat split; try reflexivity; try lia.
    + intros j o' Hj Hlt. pose proof (Hbefore j o' Hj Hlt) as Hq.
      unfold q in Hq. lia.
    + intros _. exists o. split; [exact Ho|]. unfold q in Hqo. lia.
    + apply list_lookup_insert_eq. lia.
    + intros j Hj. apply list_lookup_insert_ne. congruence.
Qed.

End Lanes.

Section RunningMax.

Lemma runningMax_snoc (init : Z) (l : list Z) (y : Z) :
  runningMax init (l ++ [y]) = Z.max (runningMax init l) y.
Proof. unfold runningMax. rewrite fold_left_app. reflexivity. Qed.

Lemma runningMax_bounds (init : Z) (l : list Z) :
  init <= runningMax init l
  /\ (forall (k : nat) (y : Z), l !! k = Some y -> y <= runningMax init l)
  /\ (runningMax init l = init
      \/ exists (k : nat), l !! k = Some (runningMax init l)).
Proof.
  induction l as [|y l IH] using rev_ind.
  - split; [reflexivity|]. split; [done|]. left. reflexivity.
  - rewrite runningMax_snoc. destruct IH as (Hinit & Hall & Hhit).
    split; [lia|]. split.
    + intros k z Hk. apply lookup_app_Some in Hk as [Hk|[_ Hk]].
      * specialize (Hall k z Hk). lia.
      * apply list_lookup_singleton_Some in Hk as [_ <-]. lia.
    + destruct (Z.max_spec (runningMax init l) y) as [[Hlt ->]|[Hge ->]].
      * right. exists (length l). apply list_lookup_middle. reflexivity.
      * destruct Hhit as [->|[k Hk]]; [left; reflexivity|].
        right. exists k. apply lookup_app_l_Some, Hk.
Qed.

End RunningMax.

Section MapWithStateItems.
Context {S A B : Type} (f : S -> A -> B * S) (g : B -> A).

(** A callback that keeps its argument in the result keeps the list. *)
Lemma mapWithState_items (st : S) (l : list A) :
  (forall s x, g (f s x).1 = x) -> map g (mapWithState f st l).1 = l.
Proof.
  intros Hg. revert st. induction l as [|x l IH]; intros st; simpl; [reflexivity|].
  specialize (Hg st x). destruct (f st x) as [y st1]. specialize (IH st1).
  destruct (mapWithState f st1 l). simpl in *. congruence.
Qed.

End MapWithStateItems.

(** C3.  The releases are placed in their sorted order.  Each release has
    its day index clamped at 0, its anchor [x] and its label width; it
    takes the first lane whose occupied-until coordinate [o] has
    [x > o + 12], or a new lane behind the existing ones; that lane is
    then occupied until [x + labelWidth], which is the [labelEnd] of the
    release.  [occupancy k] is the lane occupancy met by the release at
    index [k]. *)
Theorem releases_take_first_free_lane
    (Date_parse : jsstring -> Z) (localeCompare : jsstring -> jsstring -> Z)
    (now : Z) (experiments : list ExperimentItem.t)
    (releases : list ReleaseItem.t) (windowStartIso : jsstring) :
  let L := layoutTimeline Date_parse localeCompare now experiments releases
                          windowStartIso in
  let placed := TimelineLayout.positionedReleases L in
  map PositionedRelease.item placed = sort (byDate localeCompare) releases
  /\ exists occupancy : nat -> list Z,
      occupancy 0%nat = []
      /\ forall (k : nat) (p : PositionedRelease.t),
          placed !! k = Some p ->
          let x := anchorX (PositionedRelease.dayIndex p) in
          let labelWidth :=
            labelWidthOf (compactReleaseLabel
                            (ReleaseItem.name (PositionedRelease.item p))) in
          PositionedRelease.dayIndex p
          = Z.max 0 (diffDays (TimelineLayout.startDate L)
                              (utcDate Date_parse
                                 (ReleaseItem.date (PositionedRelease.item p))))
          /\ firstFreeLane (occupancy k) x (PositionedRelease.lane p)
          /\ occupyLane (occupancy k) (PositionedRelease.lane p) (x + labelWidth)
                        (occupancy (Datatypes.S k))
          /\ PositionedRelease.labelEnd p = x + labelWidth.
Proof.
  intros L placed.
  destruct (layoutTimeline_releases Date_parse localeCompare now experiments
              releases windowStartIso) as (Hplaced & _).
  cbv zeta in Hplaced. fold L in Hplaced. fold placed in Hplaced.
  set (f := placeRelease Date_parse (TimelineLayout.startDate L)) in *.
  set (init := (([] : list Z), TimelineLayout.totalDays L * DAY_WIDTH)) in *.
  set (sorted := sort (byDate localeCompare) releases) in *.
  split.
  - rewrite Hplaced. apply mapWithState_items. intros s x.
    apply (placeRelease_step Date_parse (TimelineLayout.startDate L) s x).
  - exists (fun k => (mapWithState f init (take k sorted)).2.1).
    split; [reflexivity|]. intros k p Hk. rewrite Hplaced in Hk.
    assert (Hlen : (k < length sorted)%nat).
    { apply lookup_lt_Some in Hk. rewrite mapWithState_length in Hk. exact Hk. }
    destruct (lookup_lt_is_Some_2 sorted k Hlen) as [x Hx].
    destruct (mapWithState_lookup f init sorted k x Hx) as [Hout Hnext].
    rewrite Hout in Hk. injection Hk as <-. rewrite Hnext.
    destruct (placeRelease_step Date_parse (TimelineLayout.startDate L)
                (mapWithState f init (take k sorted)).2 x)
      as (Hitem & Hday & Hend & Hfree & Hocc & _).
    cbv zeta in *. fold f in Hitem, Hday, Hend, Hfree, Hocc.
    rewrite Hitem. rewrite <- Hend. done.
Qed.

(* ===================================================================== *)
(** * The layout: canvas width *)
(* ===================================================================== *)

Section Canvas.
Variable Date_parse : jsstring -> Z.

(** The loop invariant of the release callback for the running maximum. *)
Lemma maxReleaseLabelEnd_loop (startDate init : Z) (items : list ReleaseItem.t) :
  let run := mapWithState (placeRelease Date_parse startDate) ([], init) items in
  run.2.2
  = runningMax init (map (fun p => PositionedRelease.labelEnd p + 20) run.1)
  /\ forall (k : nat) (p : PositionedRelease.t),
      run.1 !! k = Some p ->
      PositionedRelease.labelEnd p
      = anchorX (PositionedRelease.dayIndex p)
        + labelWidthOf (compactReleaseLabel
                          (ReleaseItem.name (PositionedRelease.item p))).
Proof.
  apply (mapWithState_invariant (placeRelease Date_parse startDate)
           (fun placed st =>
              st.2 = runningMax init
                       (map (fun p => PositionedRelease.labelEnd p + 20) placed)
              /\ forall (k : nat) (p : PositionedRelease.t),
                  placed !! k = Some p ->
                  PositionedRelease.labelEnd p
                  = anchorX (PositionedRelease.dayIndex p)
                    + labelWidthOf (compactReleaseLabel
                                      (ReleaseItem.name (PositionedRelease.item p))))).
  - split; [reflexivity|done].
  - intros placed st x [Hmax Hends].
    destruct (placeRelease_step Date_parse startDate st x)
      as (Hitem & _ & Hend & _ & _ & Hnext).
    cbv zeta in *. split.
    + rewrite Hnext, Hmax, map_app. cbn [map]. rewrite runningMax_snoc. reflexivity.
    + intros k p Hk. apply lookup_app_Some in Hk as [Hk|[_ Hk]].
      * exact (Hends k p Hk).
      * apply list_lookup_singleton_Some in Hk as [_ <-].
        rewrite Hitem. exact Hend.
Qed.

End Canvas.

(** C5.  The canvas width is the larger of the width of the day columns
    and the running maximum of [labelEnd + 20] over the placed releases,
    where [labelEnd = x + labelWidth]: it is at least the width of the day
    columns, it leaves 20 pixels behind every label, and it is one of
    these values. *)
Theorem canvas_holds_days_and_labels
    (Date_parse : jsstring -> Z) (localeCompare : jsstring -> jsstring -> Z)
    (now : Z) (experiments : list ExperimentItem.t)
    (releases : list ReleaseItem.t) (windowStartIso : jsstring) :
  let L := layoutTimeline Date_parse localeCompare now experiments releases
                          windowStartIso in
  let placed := TimelineLayout.positionedReleases L in
  let daysWidth := TimelineLayout.totalDays L * DAY_WIDTH in
  TimelineLayout.canvasWidth L
  = Z.max daysWidth
          (runningMax daysWidth
             (map (fun p => PositionedRelease.labelEnd p + 20) placed))
  /\ TimelineLayout.canvasWidth L >= daysWidth
  /\ (forall (k : nat) (p : PositionedRelease.t),
        placed !! k = Some p ->
        TimelineLayout.canvasWidth L >= PositionedRelease.labelEnd p + 20)
  /\ (TimelineLayout.canvasWidth L = daysWidth
      \/ exists (k : nat) (p : PositionedRelease.t),
          placed !! k = Some p
          /\ TimelineLayout.canvasWidth L = PositionedRelease.labelEnd p + 20)
  /\ (forall (k : nat) (p : PositionedRelease.t),
        placed !! k = Some p ->
        PositionedRelease.labelEnd p
        = anchorX (PositionedRelease.dayIndex p)
          + labelWidthOf (compactReleaseLabel
                            (ReleaseItem.name (PositionedRelease.item p)))).
Proof.
  intros L placed daysWidth. subst daysWidth placed L.
  destruct (layoutTimeline_releases Date_parse localeCompare now experiments
              releases windowStartIso) as (Hplaced & _ & Hwidth).
  destruct (maxReleaseLabelEnd_loop Date_parse
              (TimelineLayout.startDate
                 (layoutTimeline Date_parse localeCompare now experiments
                                 releases windowStartIso))
              (TimelineLayout.totalDays
                 (layoutTimeline Date_parse localeCompare now experiments
                                 releases windowStartIso) * DAY_WIDTH)
              (sort (byDate localeCompare) releases)) as [Hmax Hends].
  cbv zeta in *. rewrite <- Hplaced in Hmax, Hends.
  rewrite Hmax in Hwidth. clear Hmax.
  set (L := layoutTimeline Date_parse localeCompare now experiments releases
                           windowStartIso) in *.
  set (daysWidth := TimelineLayout.totalDays L * DAY_WIDTH) in *.
  set (placed := TimelineLayout.positionedReleases L) in *.
  set (ends := map (fun p => PositionedRelease.labelEnd p + 20) placed) in *.
  destruct (runningMax_bounds daysWidth ends) as (Hinit & Hall & Hhit).
  split; [exact Hwidth|]. split; [lia|]. split; [|split; [|exact Hends]].
  - intros k p Hk.
    assert (Hk' : ends !! k = Some (PositionedRelease.labelEnd p + 20)).
    { subst ends. rewrite list_lookup_fmap, Hk. reflexivity. }
    specialize (Hall k _ Hk'). lia.
  - rewrite Hwidth, Z.max_r by lia.
    destruct Hhit as [->|[k Hk]]; [left; reflexivity|]. right.
    subst ends. rewrite list_lookup_fmap in Hk.
    destruct (placed !! k) as [p|] eqn:Hp; [|done].
    exists k, p. split; [exact Hp|]. simpl in Hk. congruence.
Qed.

(** Two releases of one day take the lanes 0 and 1, a release two weeks
    later takes lane 0 again. *)
Example release_lanes_sample :
  let L := layoutTimeline Builtins.Date_parse Builtins.localeCompare
             1704110400000 []
             [release "iOS 2.3.1" "2024-01-03";
              release "Growth Backend 2.3.1 rollout" "2024-01-03";
              release "Android 2.4" "2024-01-17"]
             (js "2024-01-01") in
  map (fun p => (PositionedRelease.lane p, PositionedRelease.dayIndex p,
                 PositionedRelease.labelEnd p))
      (TimelineLayout.positionedReleases L)
  = [(0, 2, 192); (1, 2, 234); (0, 16, 682)]
  /\ TimelineLayout.releaseLanes L = 2
  /\ TimelineLayout.totalDays L = 17
  /\ TimelineLayout.canvasWidth L = 702.
Proof. vm_compute. done. Qed.

(* ===================================================================== *)
(** * The layout: the day window *)
(* ===================================================================== *)

Section Window.

Lemma latest_is_runningMax (today : Z) (dates : list Z) :
  fold_left (fun latest candidate =>
               if candidate >? latest then candidate else latest)
            ([today] ++ dates) today
  = runningMax today dates.
Proof.
  unfold runningMax. simpl. rewrite Z.gtb_ltb, Z.ltb_irrefl.
  generalize today as acc. induction dates as [|d dates IH]; intros acc; simpl.
  - reflexivity.
  - rewrite <- IH. f_equal. rewrite Z.gtb_ltb.
    destruct (Z.ltb_spec acc d); lia.
Qed.

Lemma roundDiv_days_nonneg (n : Z) : 0 <= n -> 0 <= roundDiv n MS_PER_DAY.
Proof.
  intros Hn. unfold roundDiv. apply Z.div_pos; unfold MS_PER_DAY; lia.
Qed.

(** The day difference is exact on dates a whole number of days apart. *)
Lemma diffDays_addUtcDays (date days : Z) :
  diffDays date (addUtcDays date days) = days.
Proof.
  unfold diffDays, addUtcDays, roundDiv, MS_PER_DAY.
  replace (2 * (date + days * 24 * 60 * 60 * 1000 - date) + 24 * 60 * 60 * 1000)
    with (days * (2 * (24 * 60 * 60 * 1000)) + 24 * 60 * 60 * 1000) by lia.
  rewrite Z.div_add_l by lia. rewrite Z.div_small by lia. lia.
Qed.

End Window.

(** C2, as the code has it.  The window starts at the date of the caller
    and ends at the latest of today, the experiment end dates and the
    release dates.  [totalDays] is [diffDays(startDate, endDate) + 1]
    clamped from below at 1, so it is always at least 1, and it is
    [diffDays(startDate, endDate) + 1] exactly when that difference is not
    negative, as it is when the window does not start after its end. *)
Theorem totalDays_spans_window
    (Date_parse : jsstring -> Z) (localeCompare : jsstring -> jsstring -> Z)
    (now : Z) (experiments : list ExperimentItem.t)
    (releases : list ReleaseItem.t) (windowStartIso : jsstring) :
  let L := layoutTimeline Date_parse localeCompare now experiments releases
                          windowStartIso in
  let startDate := TimelineLayout.startDate L in
  let endDate := TimelineLayout.endDate L in
  startDate = utcDate Date_parse windowStartIso
  /\ endDate
     = runningMax (startOfUtcDay now)
         (map (fun exp => utcDate Date_parse (ExperimentItem.endDate exp)) experiments
          ++ map (fun rel => utcDate Date_parse (ReleaseItem.date rel)) releases)
  /\ TimelineLayout.totalDays L = Z.max 1 (diffDays startDate endDate + 1)
  /\ TimelineLayout.totalDays L >= 1
  /\ (TimelineLayout.totalDays L = diffDays startDate endDate + 1
      <-> 0 <= diffDays startDate endDate)
  /\ (startDate <= endDate ->
      TimelineLayout.totalDays L = diffDays startDate endDate + 1).
Proof.
  intros L startDate endDate.
  destruct (layoutTimeline_dates Date_parse localeCompare now experiments
              releases windowStartIso) as (Hstart & Hend & Htotal).
  rewrite latest_is_runningMax in Hend.
  fold L in Hstart, Hend, Htotal. fold startDate in Hstart, Htotal.
  fold endDate in Hend, Htotal.
  split; [exact Hstart|]. split; [exact Hend|]. split; [exact Htotal|].
  split; [lia|]. split; [lia|].
  intros Hle. pose proof (roundDiv_days_nonneg (endDate - startDate)) as Hd.
  unfold diffDays in *. lia.
Qed.

Lemma totalDays_spans_window_witness :
  TimelineLayout.totalDays
    (layoutTimeline Builtins.Date_parse Builtins.localeCompare 1704110400000
                    [experiment "A" "2024-01-03" "2024-01-10"] []
                    (js "2024-01-01"))
  = 10.
Proof.
  pose proof (totalDays_spans_window Builtins.Date_parse Builtins.localeCompare
                1704110400000 [experiment "A" "2024-01-03" "2024-01-10"] []
                (js "2024-01-01")) as H.
  cbv zeta in H. destruct H as (_ & _ & _ & _ & _ & H).
  rewrite H; vm_compute; [reflexivity | discriminate].
Defined.

(** C2 as stated fails when the window starts after its end: with today
    the 1st of January 2024, nothing to place and a window start on the
    10th, the difference plus one is -8 and [totalDays] is 1. *)
Lemma totalDays_window_after_end_counterexample :
  let L := layoutTimeline Builtins.Date_parse Builtins.localeCompare
                          1704110400000 [] [] (js "2024-01-10") in
  TimelineLayout.totalDays L = 1
  /\ diffDays (TimelineLayout.startDate L) (TimelineLayout.endDate L) + 1 = -8
  /\ TimelineLayout.totalDays L
     <> diffDays (TimelineLayout.startDate L) (TimelineLayout.endDate L) + 1.
Proof. vm_compute. repeat split. discriminate. Qed.

(* ===================================================================== *)
(** * The layout: two overlapping experiments *)
(* ===================================================================== *)

(** C4.  With the window start 2024-01-01, the experiment A from
    2024-01-03 to 2024-01-10 and the experiment B from 2024-01-05 to
    2024-01-08 are placed in the rows 0 and 1, in either input order and
    whatever the other fields and the clock are, and two rows are
    counted. *)
Theorem overlapping_experiments_take_two_rows
    (now : Z) (idA nameA urlA stageA idB nameB urlB stageB : jsstring) :
  let A := ExperimentItem.mk idA nameA urlA (js "2024-01-03") (js "2024-01-10")
                             stageA in
  let B := ExperimentItem.mk idB nameB urlB (js "2024-01-05") (js "2024-01-08")
                             stageB in
  let layout experiments :=
    layoutTimeline Builtins.Date_parse Builtins.localeCompare now experiments []
                   (js "2024-01-01") in
  TimelineLayout.positionedExperiments (layout [A; B])
  = [PositionedExperiment.mk A 0 2 9; PositionedExperiment.mk B 1 4 7]
  /\ TimelineLayout.experimentRows (layout [A; B]) = 2
  /\ TimelineLayout.positionedExperiments (layout [B; A])
     = [PositionedExperiment.mk A 0 2 9; PositionedExperiment.mk B 1 4 7]
  /\ TimelineLayout.experimentRows (layout [B; A]) = 2.
Proof.
  intros A B layout. subst layout. cbv beta.
  destruct (layoutTimeline_experiments Builtins.Date_parse Builtins.localeCompare
              now [A; B] [] (js "2024-01-01")) as [-> ->].
  destruct (layoutTimeline_experiments Builtins.Date_parse Builtins.localeCompare
              now [B; A] [] (js "2024-01-01")) as [-> ->].
  rewrite !(proj1 (layoutTimeline_dates Builtins.Date_parse Builtins.localeCompare
                     now _ [] (js "2024-01-01"))).
  subst A B. vm_compute. done.
Qed.

(* ===================================================================== *)
(** * Sorting *)
(* ===================================================================== *)

Section Sorting.
Context {A : Type} (compareFn : A -> A -> Z).

Lemma insertSorted_Permutation (x : A) (l : list A) :
  insertSorted compareFn x l ≡ₚ x :: l.
Proof.
  induction l as [|y l IH]; simpl; [reflexivity|].
  destruct (compareFn x y <=? 0); [reflexivity|].
  rewrite IH. apply Permutation_swap.
Qed.

Lemma sort_Permutation (l : list A) : sort compareFn l ≡ₚ l.
Proof.
  induction l as [|x l IH]; simpl; [reflexivity|].
  rewrite insertSorted_Permutation, IH. reflexivity.
Qed.

Hypothesis consistent : consistentComparator compareFn.

Lemma compareFn_refl (a : A) : compareFn a a = 0.
Proof. destruct consistent as [Hswap _]. specialize (Hswap a a). lia. Qed.

Lemma compareFn_zero_swap (a b : A) : compareFn a b = 0 -> compareFn b a = 0.
Proof.
  destruct consistent as [Hswap _].
  pose proof (Hswap a b). pose proof (Hswap b a). lia.
Qed.

Lemma insertSorted_StronglySorted (x : A) (l : list A) :
  StronglySorted (fun a b => compareFn a b <= 0) l ->
  StronglySorted (fun a b => compareFn a b <= 0) (insertSorted compareFn x l).
Proof.
  destruct consistent as [Hswap Htrans].
  induction l as [|y l IH]; simpl; intros Hl.
  - repeat constructor.
  - apply StronglySorted_cons in Hl as [Hy Hl].
    destruct (compareFn x y <=? 0) eqn:Hxy.
    + apply Z.leb_le in Hxy. apply StronglySorted_cons. split.
      * constructor; [exact Hxy|].
        eapply Forall_impl; [exact Hy|]. intros z Hz. simpl in Hz.
        exact (Htrans x y z Hxy Hz).
      * apply StronglySorted_cons. done.
    + apply Z.leb_gt in Hxy. apply StronglySorted_cons. split; [|apply IH, Hl].
      rewrite insertSorted_Permutation. constructor; [|exact Hy].
      pose proof (Hswap y x). lia.
Qed.

Lemma sort_StronglySorted (l : list A) :
  StronglySorted (fun a b => compareFn a b <= 0) (sort compareFn l).
Proof.
  induction l as [|x l IH]; simpl; [constructor|].
  apply insertSorted_StronglySorted, IH.
Qed.

Lemma StronglySorted_ascending (l : list A) :
  StronglySorted (fun a b => compareFn a b <= 0) l -> ascending compareFn l.
Proof.
  induction l as [|x l IH]; intros Hl i j a b Hi Hj Hij; [done|].
  apply StronglySorted_cons in Hl as [Hx Hl].
  destruct j as [|j]; [lia|]. simpl in Hj. destruct i as [|i]; simpl in Hi.
  - injection Hi as <-. rewrite Forall_forall in Hx.
    apply Hx. apply list_elem_of_lookup. eauto.
  - apply (IH Hl i j a b Hi Hj). lia.
Qed.

Lemma ascending_cons (x : A) (l : list A) :
  ascending compareFn (x :: l) ->
  (forall y, y ∈ l -> compareFn x y <= 0) /\ ascending compareFn l.
Proof.
  intros Hasc. split.
  - intros y [k Hk]%list_elem_of_lookup.
    apply (Hasc 0%nat (Datatypes.S k) x y); [done|exact Hk|lia].
  - intros i j a b Hi Hj Hij.
    apply (Hasc (Datatypes.S i) (Datatypes.S j) a b); [exact Hi|exact Hj|lia].
Qed.

(** Insertion moves the new element past strictly smaller ones only, so
    the elements that compare equal keep their order. *)
Lemma insertSorted_equalTo (k x : A) (l : list A) :
  equalTo compareFn k (insertSorted compareFn x l) = equalTo compareFn k (x :: l).
Proof.
  destruct consistent as [Hswap Htrans]. unfold equalTo.
  induction l as [|y l IH]; simpl; [reflexivity|].
  destruct (compareFn x y <=? 0) eqn:Hxy; [reflexivity|].
  apply Z.leb_gt in Hxy.
  rewrite (filter_cons _ y), IH, !(filter_cons _ x), (filter_cons _ y).
  destruct (decide (compareFn k y = 0)) as [Hy|Hy]; [|reflexivity].
  destruct (decide (compareFn k x = 0)) as [Hx|Hx]; [|reflexivity].
  exfalso. apply compareFn_zero_swap in Hx.
  pose proof (Htrans x k y). lia.
Qed.

Lemma sort_equalTo (k : A) (l : list A) :
  equalTo compareFn k (sort compareFn l) = equalTo compareFn k l.
Proof.
  induction l as [|x l IH]; simpl; [reflexivity|].
  rewrite insertSorted_equalTo. unfold equalTo in *.
  rewrite !(filter_cons _ x), IH. reflexivity.
Qed.

Lemma equalTo_self (a : A) (l : list A) :
  a ∈ l -> a ∈ equalTo compareFn a l.
Proof.
  intros Ha. apply list_elem_of_filter. split; [apply compareFn_refl|exact Ha].
Qed.

(** An ascending arrangement that keeps the order of equal elements is
    determined by the list: every stable sort gives the same result. *)
Lemma stable_ascending_unique (l1 l2 : list A) :
  ascending compareFn l1 -> ascending compareFn l2 ->
  (forall k, equalTo compareFn k l1 = equalTo compareFn k l2) ->
  l1 = l2.
Proof.
  destruct consistent as [Hswap Htrans].
  revert l2. induction l1 as [|a t1 IH]; intros l2 H1 H2 Heq.
  - destruct l2 as [|b t2]; [reflexivity|].
    pose proof (equalTo_self b (b :: t2) ltac:(left)) as Hb.
    rewrite <- Heq in Hb. inversion Hb.
  - destruct l2 as [|b t2].
    + pose proof (equalTo_self a (a :: t1) ltac:(left)) as Ha.
      rewrite Heq in Ha. inversion Ha.
    + apply ascending_cons in H1 as [Ha H1]. apply ascending_cons in H2 as [Hb H2].
      assert (Hab : compareFn a b = 0).
      { assert (Hle : compareFn a b <= 0).
        { pose proof (equalTo_self b (b :: t2) ltac:(left)) as Hin.
          rewrite <- Heq in Hin. apply list_elem_of_filter in Hin as [_ Hin].
          apply elem_of_cons in Hin as [->|Hin]; [rewrite compareFn_refl; lia|].
          apply Ha, Hin. }
        assert (Hge : compareFn b a <= 0).
        { pose proof (equalTo_self a (a :: t1) ltac:(left)) as Hin.
          rewrite Heq in Hin. apply list_elem_of_filter in Hin as [_ Hin].
          apply elem_of_cons in Hin as [->|Hin]; [rewrite compareFn_refl; lia|].
          apply Hb, Hin. }
        pose proof (Hswap a b). lia. }
      assert (a = b) as <-.
      { specialize (Heq a). unfold equalTo in Heq.
        rewrite filter_cons_True in Heq by apply compareFn_refl.
        rewrite filter_cons_True in Heq by exact Hab. congruence. }
      f_equal. apply IH; [exact H1|exact H2|].
      intros k. specialize (Heq k). unfold equalTo in *.
      rewrite !(filter_cons _ a) in Heq.
      destruct (decide (compareFn k a = 0)); congruence.
Qed.

End Sorting.

Section Comparators.

Lemma byStartDate_consistent (localeCompare : jsstring -> jsstring -> Z) :
  consistentComparator localeCompare ->
  consistentComparator (byStartDate localeCompare).
Proof.
  intros [Hswap Htrans]. unfold byStartDate. split.
  - intros a b. apply Hswap.
  - intros a b c. apply Htrans.
Qed.

Lemma byDate_consistent (localeCompare : jsstring -> jsstring -> Z) :
  consistentComparator localeCompare ->
  consistentComparator (byDate localeCompare).
Proof.
  intros [Hswap Htrans]. unfold byDate. split.
  - intros a b. apply Hswap.
  - intros a b c. apply Htrans.
Qed.

(** The comparison by code units is consistent. *)
Lemma codeUnits_consistent : consistentComparator Builtins.localeCompare.
Proof.
  split.
  - induction a as [|x a IH]; intros [|y b]; simpl; try lia.
    destruct (N.ltb_spec x y), (N.ltb_spec y x); try lia. apply IH.
  - induction a as [|x a IH]; intros [|y b] [|z c]; simpl; try lia.
    destruct (N.ltb_spec x y), (N.ltb_spec y x), (N.ltb_spec y z),
      (N.ltb_spec z y), (N.ltb_spec x z), (N.ltb_spec z x); try lia.
    apply IH.
Qed.

End Comparators.

Section Determinism.
Variable Date_parse : jsstring -> Z.

(** The placement of the releases does not read the running maximum. *)
Lemma placeRelease_ignores_max (startDate : Z) (occ : list Z) (mx mx' : Z)
    (x : ReleaseItem.t) :
  (placeRelease Date_parse startDate (occ, mx) x).1
  = (placeRelease Date_parse startDate (occ, mx') x).1
  /\ (placeRelease Date_parse startDate (occ, mx) x).2.1
     = (placeRelease Date_parse startDate (occ, mx') x).2.1.
Proof. unfold placeRelease. destruct (findIndex _ occ <? 0); done. Qed.

Lemma placeRelease_loop_ignores_max (startDate : Z) (items : list ReleaseItem.t) :
  forall (occ : list Z) (mx mx' : Z),
    (mapWithState (placeRelease Date_parse startDate) (occ, mx) items).1
    = (mapWithState (placeRelease Date_parse startDate) (occ, mx') items).1.
Proof.
  induction items as [|x items IH]; intros occ mx mx'; [reflexivity|].
  cbn [mapWithState].
  destruct (placeRelease_ignores_max startDate occ mx mx' x) as [Hout Hocc].
  destruct (placeRelease Date_parse startDate (occ, mx) x) as [y [occ1 m1]].
  destruct (placeRelease Date_parse startDate (occ, mx') x) as [y' [occ1' m1']].
  simpl in Hout, Hocc. subst y' occ1'. specialize (IH occ1 m1 m1').
  destruct (mapWithState _ (occ1, m1) items), (mapWithState _ (occ1, m1') items).
  simpl in *. congruence.
Qed.

End Determinism.

(** C10.  For a consistent [localeCompare] the placed experiments hold the
    input records in ascending order of the raw start date, the placed
    releases in ascending order of the raw date, and records whose keys
    compare equal keep their input order.  That order is the only one
    with these properties, and it is read from the list alone: the placed
    experiments do not depend on the clock or on the releases, nor the
    placed releases on the clock or on the experiments. *)
Theorem layout_order_is_stable
    (Date_parse : jsstring -> Z) (localeCompare : jsstring -> jsstring -> Z)
    (now : Z) (experiments : list ExperimentItem.t)
    (releases : list ReleaseItem.t) (windowStartIso : jsstring) :
  consistentComparator localeCompare ->
  let layout := layoutTimeline Date_parse localeCompare in
  let L := layout now experiments releases windowStartIso in
  let es := map PositionedExperiment.item (TimelineLayout.positionedExperiments L) in
  let rs := map PositionedRelease.item (TimelineLayout.positionedReleases L) in
  (es ≡ₚ experiments /\ rs ≡ₚ releases)
  /\ (ascending (byStartDate localeCompare) es
      /\ ascending (byDate localeCompare) rs)
  /\ ((forall k, equalTo (byStartDate localeCompare) k es
                 = equalTo (byStartDate localeCompare) k experiments)
      /\ (forall k, equalTo (byDate localeCompare) k rs
                    = equalTo (byDate localeCompare) k releases))
  /\ ((forall es', ascending (byStartDate localeCompare) es' ->
                   (forall k, equalTo (byStartDate localeCompare) k es'
                              = equalTo (byStartDate localeCompare) k experiments) ->
                   es' = es)
      /\ (forall rs', ascending (byDate localeCompare) rs' ->
                      (forall k, equalTo (byDate localeCompare) k rs'
                                 = equalTo (byDate localeCompare) k releases) ->
                      rs' = rs))
  /\ ((forall now' releases',
          TimelineLayout.positionedExperiments
            (layout now' experiments releases' windowStartIso)
          = TimelineLayout.positionedExperiments L)
      /\ (forall now' experiments',
            TimelineLayout.positionedReleases
              (layout now' experiments' releases windowStartIso)
            = TimelineLayout.positionedReleases L)).
Proof.
  intros Hcmp layout L es rs.
  pose proof (byStartDate_consistent localeCompare Hcmp) as HcmpE.
  pose proof (byDate_consistent localeCompare Hcmp) as HcmpR.
  assert (Hes : es = sort (byStartDate localeCompare) experiments).
  { subst es L layout.
    rewrite (proj1 (layoutTimeline_experiments Date_parse localeCompare now
                      experiments releases windowStartIso)).
    apply mapWithState_items. intros s x.
    apply (placeExperiment_step Date_parse _ s x). }
  assert (Hrs : rs = sort (byDate localeCompare) releases).
  { subst rs L layout.
    rewrite (proj1 (layoutTimeline_releases Date_parse localeCompare now
                      experiments releases windowStartIso)).
    apply mapWithState_items. intros s x.
    apply (placeRelease_step Date_parse _ s x). }
  rewrite Hes, Hrs.
  split; [split; apply sort_Permutation|].
  split; [split; apply StronglySorted_ascending, sort_StronglySorted; assumption|].
  split; [split; intros k; apply sort_equalTo; assumption|].
  split; [split|split].
  - intros es' Hasc Hstable.
    apply (stable_ascending_unique (byStartDate localeCompare) HcmpE);
      [exact Hasc|apply StronglySorted_ascending, sort_StronglySorted; exact HcmpE|].
    intros k. rewrite Hstable, sort_equalTo by exact HcmpE. reflexivity.
  - intros rs' Hasc Hstable.
    apply (stable_ascending_unique (byDate localeCompare) HcmpR);
      [exact Hasc|apply StronglySorted_ascending, sort_StronglySorted; exact HcmpR|].
    intros k. rewrite Hstable, sort_equalTo by exact HcmpR. reflexivity.
  - intros now' releases'. subst L layout.
    rewrite !(proj1 (layoutTimeline_experiments Date_parse localeCompare _
                       experiments _ windowStartIso)).
    rewrite !(proj1 (layoutTimeline_dates Date_parse localeCompare _ _ _
                       windowStartIso)).
    reflexivity.
  - intros now' experiments'. subst L layout.
    rewrite !(proj1 (layoutTimeline_releases Date_parse localeCompare _
                       _ releases windowStartIso)).
    rewrite !(proj1 (layoutTimeline_dates Date_parse localeCompare _ _ _
                       windowStartIso)).
    apply placeRelease_loop_ignores_max.
Qed.

Lemma layout_order_is_stable_witness :
  map PositionedExperiment.item
    (TimelineLayout.positionedExperiments
       (layoutTimeline Builtins.Date_parse Builtins.localeCompare 1704110400000
          [experiment "B" "2024-01-05" "2024-01-08";
           experiment "C" "2024-01-03" "2024-01-04";
           experiment "A" "2024-01-03" "2024-01-10"]
          [] (js "2024-01-01")))
  ≡ₚ [experiment "B" "2024-01-05" "2024-01-08";
      experiment "C" "2024-01-03" "2024-01-04";
      experiment "A" "2024-01-03" "2024-01-10"].
Proof.
  apply (layout_order_is_stable Builtins.Date_parse Builtins.localeCompare
           1704110400000
           [experiment "B" "2024-01-05" "2024-01-08";
            experiment "C" "2024-01-03" "2024-01-04";
            experiment "A" "2024-01-03" "2024-01-10"]
           [] (js "2024-01-01") codeUnits_consistent).
Defined.

Example layout_order_sample :
  map PositionedExperiment.item
    (TimelineLayout.positionedExperiments
       (layoutTimeline Builtins.Date_parse Builtins.localeCompare 1704110400000
          [experiment "B" "2024-01-05" "2024-01-08";
           experiment "C" "2024-01-03" "2024-01-04";
           experiment "A" "2024-01-03" "2024-01-10"]
          [] (js "2024-01-01")))
  = [experiment "C" "2024-01-03" "2024-01-04";
     experiment "A" "2024-01-03" "2024-01-10";
     experiment "B" "2024-01-05" "2024-01-08"].
Proof. vm_compute. reflexivity. Qed.

(* ===================================================================== *)
(** * Date utilities *)
(* ===================================================================== *)

Section DateUtilities.

Lemma MS_PER_DAY_value : MS_PER_DAY = 86400000.
Proof. reflexivity. Qed.

Lemma roundDiv_days_shift (n k : Z) :
  roundDiv (n + k * MS_PER_DAY) MS_PER_DAY = roundDiv n MS_PER_DAY + k.
Proof.
  unfold roundDiv. rewrite MS_PER_DAY_value.
  replace (2 * (n + k * 86400000) + 86400000)
    with (2 * n + 86400000 + k * (2 * 86400000)) by lia.
  apply Z.div_add. lia.
Qed.

Lemma roundDiv_days_mono (n m : Z) :
  n <= m -> roundDiv n MS_PER_DAY <= roundDiv m MS_PER_DAY.
Proof.
  intros Hnm. unfold roundDiv. rewrite MS_PER_DAY_value.
  apply Z.div_le_mono; lia.
Qed.

Lemma roundDiv_days_near_zero (n : Z) :
  - (MS_PER_DAY / 2) <= n < MS_PER_DAY / 2 -> roundDiv n MS_PER_DAY = 0.
Proof.
  rewrite MS_PER_DAY_value. change (86400000 / 2) with 43200000.
  intros Hn. unfold roundDiv. apply Z.div_small. lia.
Qed.

Lemma diffDays_mono_end (start a b : Z) :
  a <= b -> diffDays start a <= diffDays start b.
Proof. intros Hab. unfold diffDays. apply roundDiv_days_mono. lia. Qed.

Lemma addUtcDays_ms (date days : Z) :
  addUtcDays date days = date + days * MS_PER_DAY.
Proof. unfold addUtcDays. rewrite MS_PER_DAY_value. lia. Qed.

Lemma startOfUtcDay_bounds (date : Z) :
  startOfUtcDay date <= date < startOfUtcDay date + MS_PER_DAY.
Proof.
  unfold startOfUtcDay. rewrite MS_PER_DAY_value.
  pose proof (Z.div_mod date 86400000 ltac:(lia)).
  pose proof (Z.mod_pos_bound date 86400000 ltac:(lia)). lia.
Qed.

End DateUtilities.

Lemma diffDays_shift_end (start end_ k : Z) :
  diffDays start (addUtcDays end_ k) = diffDays start end_ + k.
Proof.
  unfold diffDays. rewrite addUtcDays_ms.
  replace (end_ + k * MS_PER_DAY - start) with (end_ - start + k * MS_PER_DAY) by lia.
  apply roundDiv_days_shift.
Qed.

Lemma diffDays_shift_start (start end_ k : Z) :
  diffDays (addUtcDays start k) end_ = diffDays start end_ - k.
Proof.
  unfold diffDays. rewrite addUtcDays_ms.
  replace (end_ - (start + k * MS_PER_DAY))
    with (end_ - start + (- k) * MS_PER_DAY) by lia.
  rewrite roundDiv_days_shift. lia.
Qed.

Lemma diffDays_same (start : Z) : diffDays start start = 0.
Proof. unfold diffDays. rewrite Z.sub_diag. reflexivity. Qed.

Lemma diffDays_near_day (start k offset : Z) :
  - (MS_PER_DAY / 2) <= offset < MS_PER_DAY / 2 ->
  diffDays start (addUtcDays start k + offset) = k
  /\ diffDays start (addUtcDays start k + MS_PER_DAY / 2) = k + 1.
Proof.
  intros Hoff. unfold diffDays. rewrite addUtcDays_ms. split.
  - replace (start + k * MS_PER_DAY + offset - start)
      with (offset + k * MS_PER_DAY) by lia.
    rewrite roundDiv_days_shift, roundDiv_days_near_zero by exact Hoff. lia.
  - replace (start + k * MS_PER_DAY + MS_PER_DAY / 2 - start)
      with (MS_PER_DAY / 2 + k * MS_PER_DAY) by lia.
    rewrite roundDiv_days_shift.
    change (roundDiv (MS_PER_DAY / 2) MS_PER_DAY) with 1. lia.
Qed.

(* ===================================================================== *)
(** * The Number type: rounding *)
(* ===================================================================== *)

Section DoubleFacts.
Import Double.

Lemma Zdiv_between (a b r : Z) : 0 < b -> b * r <= a < b * (r + 1) -> a / b = r.
Proof.
  intros Hb [Hlo Hhi]. symmetry. apply (Z.div_unique_pos a b r (a - b * r)); lia.
Qed.

Lemma pow2_negative (e : Z) :
  e < 0 -> pow2 e = 1 # Z.to_pos (2 ^ (- e)).
Proof. intros He. unfold pow2. destruct (Z.leb_spec 0 e); [lia|reflexivity]. Qed.

Lemma pow2_nonpositive (e : Z) :
  e <= 0 -> (pow2 e == 1 # Z.to_pos (2 ^ (- e)))%Q.
Proof.
  intros He. destruct (Z.eq_dec e 0) as [->|Hne]; [reflexivity|].
  rewrite pow2_negative by lia. reflexivity.
Qed.

Lemma floorLog2_upper (q : Q) (k : Z) :
  1 <= k -> (0 < q)%Q -> (q < inject_Z (2 ^ k))%Q -> floorLog2 q < k.
Proof.
  intros Hk Hpos Hlt. destruct q as [a b]. unfold floorLog2. cbn [Qnum Qden].
  unfold Qlt in Hpos, Hlt. cbn in Hpos, Hlt.
  destruct (Z.leb_spec (Zpos b) a) as [Hba|Hab].
  - apply Z.log2_lt_pow2.
    + apply Z.div_str_pos. lia.
    + apply Z.div_lt_upper_bound; lia.
  - pose proof (Z.log2_up_nonneg ((Zpos b + a - 1) / a)). lia.
Qed.

Lemma roundHalfEven_integer (q : Q) (n : Z) :
  (q == inject_Z n)%Q -> roundHalfEven q = n.
Proof.
  intros Hq. unfold roundHalfEven.
  rewrite (Qfloor_comp _ _ Hq), Qfloor_Z.
  destruct (Qcompare_spec (q - inject_Z n) (1 # 2)) as [Heq|Hlt|Hgt];
    [rewrite Hq in Heq; lra | reflexivity | rewrite Hq in Hgt; lra].
Qed.

(** The nearest integer is at most a half away. *)
Lemma roundHalfEven_near (q : Q) :
  (inject_Z (roundHalfEven q) - (1 # 2) <= q
   /\ q <= inject_Z (roundHalfEven q) + (1 # 2))%Q.
Proof.
  unfold roundHalfEven.
  pose proof (Qfloor_le q) as Hlo. pose proof (Qlt_floor q) as Hhi.
  rewrite inject_Z_plus in Hhi. change (inject_Z 1) with 1%Q in Hhi.
  destruct (Qcompare_spec (q - inject_Z (Qfloor q)) (1 # 2)) as [Heq|Hlt|Hgt].
  - destruct (Z.even (Qfloor q)); rewrite ?inject_Z_plus;
      change (inject_Z 1) with 1%Q; lra.
  - lra.
  - rewrite inject_Z_plus. change (inject_Z 1) with 1%Q. lra.
Qed.

(** The result of [round] from the value of the rounded mantissa. *)
Lemma round_value (q x : Q) :
  ~ (q == 0)%Q ->
  (inject_Z (roundHalfEven
               (q / pow2 (Z.max (floorLog2 (Qabs q) - 52) (-1074))))
   * pow2 (Z.max (floorLog2 (Qabs q) - 52) (-1074)) == x)%Q ->
  (Qabs x < inject_Z (2 ^ 1024))%Q ->
  round q = Some (Qred x).
Proof.
  intros Hq Hx Hsmall. unfold round.
  destruct (Qeq_bool q 0) eqn:Hzero; [apply Qeq_bool_iff in Hzero; contradiction|].
  cbv zeta. rewrite (Qred_complete _ _ Hx).
  destruct (Qle_bool (pow2 1024) (Qabs (Qred x))) eqn:Hover; [|reflexivity].
  apply Qle_bool_iff in Hover. rewrite Qred_correct in Hover.
  change (pow2 1024) with (inject_Z (2 ^ 1024)) in Hover. lra.
Qed.

Lemma pow2_1024_large (z : Z) :
  Z.abs z < 2 ^ 64 -> (Qabs (inject_Z z) < inject_Z (2 ^ 1024))%Q.
Proof.
  intros Hz. change (Qabs (inject_Z z)) with (inject_Z (Z.abs z)).
  rewrite <- Zlt_Qlt.
  assert (2 ^ 64 <= 2 ^ 1024) by (apply Z.pow_le_mono_r; lia). lia.
Qed.

(** An integer below [2^53] is a Number: rounding returns it. *)
Lemma round_integer (q : Q) (z : Z) :
  (q == inject_Z z)%Q -> Z.abs z < 2 ^ 53 -> round q = Some (inject_Z z).
Proof.
  intros Hq Hz. destruct (Z.eq_dec z 0) as [->|Hne].
  - unfold round. rewrite (proj2 (Qeq_bool_iff q 0) Hq). reflexivity.
  - assert (Hred : Qred (inject_Z z) = inject_Z z)
      by (apply Qcanon.Qred_identity; cbn; apply Z.gcd_1_r).
    rewrite <- Hred. apply round_value.
    + rewrite Hq. unfold Qeq. cbn. lia.
    + set (e := Z.max _ _).
      assert (He : -1074 <= e <= 0).
      { subst e. split; [lia|]. apply Z.max_lub; [|lia].
        assert (floorLog2 (Qabs q) < 53); [|lia].
        apply floorLog2_upper; [lia| |].
        - rewrite Hq. change (Qabs (inject_Z z)) with (inject_Z (Z.abs z)).
          change 0%Q with (inject_Z 0). rewrite <- Zlt_Qlt. lia.
        - rewrite Hq. change (Qabs (inject_Z z)) with (inject_Z (Z.abs z)).
          rewrite <- Zlt_Qlt. exact Hz. }
      assert (Hpos : 0 < 2 ^ (- e)) by (apply Z.pow_pos_nonneg; lia).
      assert (Hscaled : (q / pow2 e == inject_Z (z * 2 ^ (- e)))%Q).
      { rewrite Hq, (pow2_nonpositive e) by lia.
        unfold Qeq, Qdiv, Qmult, Qinv. cbn.
        rewrite Z2Pos.id by exact Hpos. lia. }
      rewrite (roundHalfEven_integer _ _ Hscaled), (pow2_nonpositive e) by lia.
      unfold Qeq, Qmult. cbn. rewrite Pos.mul_1_l, Z2Pos.id by exact Hpos. lia.
    + apply pow2_1024_large.
      assert (2 ^ 53 <= 2 ^ 64) by (apply Z.pow_le_mono_r; lia). lia.
Qed.

(** The quotient of a time span by the length of a day rounds to the same
    integer as the exact quotient, for a span below [2^53] milliseconds:
    the quotient is then below [2^27], so the last bit of its mantissa is
    worth at most [2^-26] and rounding moves it by at most [2^-27], while
    an exact quotient that is not half an odd integer is at least
    [1 / 86400000] away from one. *)
Lemma round_days (q : Q) (d : Z) :
  (q == d # 86400000)%Q -> Z.abs d < 2 ^ 53 ->
  exists x, round q = Some x /\ Math_round x = roundDiv d MS_PER_DAY.
Proof.
  change (2 ^ 53) with 9007199254740992.
  intros Hq Hd. destruct (Z.eq_dec d 0) as [->|Hne].
  - exists 0%Q. split; [|reflexivity].
    unfold round. rewrite (proj2 (Qeq_bool_iff q 0)); [reflexivity|].
    rewrite Hq. reflexivity.
  - set (e := Z.max (floorLog2 (Qabs q) - 52) (-1074)).
    assert (He : -1074 <= e <= -26).
    { subst e. split; [lia|]. apply Z.max_lub; [|lia].
      assert (floorLog2 (Qabs q) < 27); [|lia].
      apply floorLog2_upper; [lia| |]; rewrite Hq.
      - unfold Qlt. cbn. lia.
      - unfold Qlt. cbn. lia. }
    set (N2 := 2 ^ (- e - 1)).
    assert (HN : 2 ^ (- e) = 2 * N2).
    { subst N2. replace (- e) with (Z.succ (- e - 1)) at 1 by lia.
      apply Z.pow_succ_r. lia. }
    assert (HN2 : 2 ^ 25 <= N2) by (apply Z.pow_le_mono_r; lia).
    change (2 ^ 25) with 33554432 in HN2.
    set (M := roundHalfEven (q / pow2 e)).
    destruct (roundHalfEven_near (q / pow2 e)) as [Hlo Hhi]. fold M in Hlo, Hhi.
    assert (Hscaled : (q / pow2 e == (d * (2 * N2)) # 86400000)%Q).
    { rewrite Hq, pow2_negative, HN by lia.
      unfold Qeq, Qdiv, Qmult, Qinv. cbn. rewrite Z2Pos.id by lia. lia. }
    rewrite Hscaled in Hlo, Hhi. unfold Qle in Hlo, Hhi. cbn in Hlo, Hhi.
    set (R := roundDiv d MS_PER_DAY).
    assert (HR : 2 * 86400000 * R <= 2 * d + 86400000
                 < 2 * 86400000 * R + 2 * 86400000).
    { subst R. unfold roundDiv. rewrite MS_PER_DAY_value.
      pose proof (Z.div_mod (2 * d + 86400000) (2 * 86400000) ltac:(lia)).
      pose proof (Z.mod_pos_bound (2 * d + 86400000) (2 * 86400000) ltac:(lia)).
      lia. }
    assert (G1 : (2 * R - 1) * 86400000 * N2 <= 2 * d * N2)
      by (apply Z.mul_le_mono_nonneg_r; lia).
    assert (G2 : 2 * d * N2 <= ((2 * R + 1) * 86400000 - 2) * N2)
      by (apply Z.mul_le_mono_nonneg_r; lia).
    assert (Hbounds : 2 * R * N2 - N2 <= M < 2 * R * N2 + N2) by lia.
    exists (Qred (M # Z.to_pos (2 * N2))). split.
    + apply round_value.
      * rewrite Hq. unfold Qeq. cbn. lia.
      * fold e. fold M. rewrite pow2_negative, HN by lia.
        unfold Qeq, Qmult. cbn. lia.
      * assert (HRabs : -104249993 <= R <= 104249993) by lia.
        assert (Hup : (2 * R + 1) * N2 <= 208499987 * N2)
          by (apply Z.mul_le_mono_nonneg_r; lia).
        assert (Hdown : - 208499987 * N2 <= (2 * R - 1) * N2)
          by (apply Z.mul_le_mono_nonneg_r; lia).
        assert (Hbig : 2 ^ 64 * (2 * N2) <= 2 ^ 1024 * (2 * N2)).
        { apply Z.mul_le_mono_nonneg_r; [lia|]. apply Z.pow_le_mono_r; lia. }
        change (2 ^ 64) with 18446744073709551616 in Hbig.
        unfold Qlt. cbn [Qabs Qnum Qden inject_Z].
        rewrite Z2Pos.id by lia. lia.
    + unfold Math_round.
      rewrite (Qfloor_comp _ ((M # Z.to_pos (2 * N2)) + (1 # 2))%Q)
        by (rewrite Qred_correct; reflexivity).
      unfold Qfloor, Qplus. cbn [Qnum Qden].
      apply Zdiv_between; [lia|].
      rewrite Pos2Z.inj_mul, Z2Pos.id by lia. lia.
Qed.

Lemma TimeClip_integer (q : Q) (z : Z) :
  (q == inject_Z z)%Q ->
  DateObject.TimeClip q = if Z.abs z <=? 8640000000000000 then Some z else None.
Proof.
  intros Hq. unfold DateObject.TimeClip.
  assert (Hle : Qle_bool (Qabs q) (inject_Z 8640000000000000)
                = (Z.abs z <=? 8640000000000000)).
  { apply eq_true_iff_eq. rewrite Qle_bool_iff, Hq, Z.leb_le.
    change (Qabs (inject_Z z)) with (inject_Z (Z.abs z)).
    rewrite <- Zle_Qle. reflexivity. }
  rewrite Hle. destruct (Z.abs z <=? 8640000000000000); [|reflexivity].
  f_equal. destruct q as [a b]. unfold Qeq in Hq. cbn in Hq |- *.
  rewrite Z.mul_1_r in Hq. subst a. apply Z.quot_mul. lia.
Qed.

End DoubleFacts.

(** On two dates less than [2^53] milliseconds apart, the difference and
    the rounding of its quotient are those of the integers. *)
Lemma Runtime_diffDays_exact (start end_ : Z) :
  Z.abs (end_ - start) < 2 ^ 53 ->
  Runtime.diffDays start end_ = Some (diffDays start end_).
Proof.
  intros Hspan. unfold Runtime.diffDays, Double.sub, Double.div.
  rewrite (round_integer _ (end_ - start)).
  - cbn [mbind option_bind].
    change (inject_Z (24 * 60 * 60 * 1000)) with (86400000 # 1).
    replace (Qeq_bool (86400000 # 1) 0) with false by reflexivity.
    destruct (round_days (inject_Z (end_ - start) / (86400000 # 1))
                (end_ - start)) as (x & -> & Hx); [|exact Hspan|].
    + unfold Qeq, Qdiv, Qmult, Qinv. cbn. lia.
    + cbn [mbind option_bind]. unfold diffDays. rewrite Hx. reflexivity.
  - unfold Qeq. cbn. lia.
  - exact Hspan.
Qed.

(** Moving a date by up to 100,000,000 days to a valid date is the sum
    of the integers. *)
Lemma Runtime_addUtcDays_exact (date days : Z) :
  Z.abs days <= 100000000 ->
  validTime (addUtcDays date days) ->
  Runtime.addUtcDays date days = Some (addUtcDays date days).
Proof.
  unfold validTime, addUtcDays. intros Hdays Hvalid.
  unfold Runtime.addUtcDays, Double.mul, Double.add.
  rewrite (round_integer _ (days * 24))
    by (rewrite ?inject_Z_mult; try reflexivity;
        change (2 ^ 53) with 9007199254740992; lia).
  cbn [mbind option_bind].
  rewrite (round_integer _ (days * 24 * 60))
    by (rewrite ?inject_Z_mult; try reflexivity;
        change (2 ^ 53) with 9007199254740992; lia).
  cbn [mbind option_bind].
  rewrite (round_integer _ (days * 24 * 60 * 60))
    by (rewrite ?inject_Z_mult; try reflexivity;
        change (2 ^ 53) with 9007199254740992; lia).
  cbn [mbind option_bind].
  rewrite (round_integer _ (days * 24 * 60 * 60 * 1000))
    by (rewrite ?inject_Z_mult; try reflexivity;
        change (2 ^ 53) with 9007199254740992; lia).
  cbn [mbind option_bind].
  rewrite (round_integer _ (date + days * 24 * 60 * 60 * 1000))
    by (rewrite ?inject_Z_plus; try reflexivity;
        change (2 ^ 53) with 9007199254740992; lia).
  cbn [mbind option_bind].
  rewrite (TimeClip_integer _ (date + days * 24 * 60 * 60 * 1000)) by reflexivity.
  destruct (Z.leb_spec (Z.abs (date + days * 24 * 60 * 60 * 1000)) 8640000000000000);
    [reflexivity|lia].
Qed.

(** The rounding agrees with the IEEE 754 operations of the standard
    library on the quotients of sample spans: whole days, half days, the
    widest span of two valid dates, and spans beyond [2^53]. *)
Example round_agrees_with_reference :
  forallb
    (fun span : Z * Z =>
       Reference.sameNumber
         (difference ← Double.sub (inject_Z span.2) (inject_Z span.1);
          Double.div difference (inject_Z MS_PER_DAY))
         (Reference.quotientOfDays span.1 span.2))
    [(0, 0); (0, 1); (0, 43199999); (0, 43200000); (0, 43200001);
     (1704067200000, 1704326400000); (1704326400000, 1704067200000);
     (1704067200000, 1704369599999); (1704067200000, 1704369600000);
     (-62198755200000, 253402300799999);
     (-4320000000000000, 4320000043199999);
     (-8640000000000000, 2956411742399999);
     (-8640000000000000, 8640000000000000);
     (8640000000000000, -8639999999956800001);
     (-8639999999999999, 8640000000000000)]
  = true.
Proof. vm_compute. reflexivity. Qed.

(** Beyond that range the runtime departs from the integers: of two
    valid dates [2^27] days and one millisecond less than half a day
    apart the difference is rounded to an even number of milliseconds,
    and the quotient to a half. *)
Example diffDays_beyond_range :
  validTime (-8640000000000000) /\ validTime 2956411742399999
  /\ Runtime.diffDays (-8640000000000000) 2956411742399999 = Some 134217729
  /\ diffDays (-8640000000000000) 2956411742399999 = 134217728.
Proof. repeat split; vm_compute; congruence. Qed.

(** Within 50,000,000 days of the epoch the runtime computes
    [addUtcDays] and [diffDays] as the integers do, and [diffDays] counts
    what [addUtcDays] adds: moving the end by [k] days adds [k] to the
    difference, moving the start takes [k] off, and a date is 0 days from
    itself. *)
Theorem diffDays_counts_added_days (start end_ k : Z) :
  nearEpoch start -> nearEpoch end_ ->
  nearEpoch (addUtcDays start k) -> nearEpoch (addUtcDays end_ k) ->
  Runtime.addUtcDays start k = Some (addUtcDays start k)
  /\ Runtime.addUtcDays end_ k = Some (addUtcDays end_ k)
  /\ Runtime.diffDays start end_ = Some (diffDays start end_)
  /\ Runtime.diffDays start (addUtcDays end_ k) = Some (diffDays start end_ + k)
  /\ Runtime.diffDays (addUtcDays start k) end_ = Some (diffDays start end_ - k)
  /\ Runtime.diffDays start start = Some 0
  /\ Runtime.diffDays start (addUtcDays start k) = Some k.
Proof.
  unfold nearEpoch. intros Hstart Hend Hstart' Hend'.
  assert (Hk : Z.abs k <= 100000000)
    by (rewrite addUtcDays_ms, MS_PER_DAY_value in Hstart'; lia).
  change (2 ^ 53) with 9007199254740992.
  split; [apply Runtime_addUtcDays_exact; unfold validTime; lia|].
  split; [apply Runtime_addUtcDays_exact; unfold validTime; lia|].
  split; [apply Runtime_diffDays_exact; change (2 ^ 53) with 9007199254740992; lia|].
  split; [|split; [|split]].
  - rewrite Runtime_diffDays_exact, diffDays_shift_end;
      [reflexivity|change (2 ^ 53) with 9007199254740992; lia].
  - rewrite Runtime_diffDays_exact, diffDays_shift_start;
      [reflexivity|change (2 ^ 53) with 9007199254740992; lia].
  - rewrite Runtime_diffDays_exact, diffDays_same;
      [reflexivity|change (2 ^ 53) with 9007199254740992; lia].
  - rewrite Runtime_diffDays_exact, diffDays_shift_end, diffDays_same;
      [reflexivity|change (2 ^ 53) with 9007199254740992; lia].
Qed.

Lemma diffDays_counts_added_days_witness :
  Runtime.addUtcDays 1704067200000 3 = Some 1704326400000
  /\ Runtime.diffDays 1701388800000 1704326400000
     = Some (diffDays 1701388800000 1704067200000 + 3).
Proof.
  assert (Hstart : nearEpoch 1701388800000) by (vm_compute; discriminate).
  assert (Hend : nearEpoch 1704067200000) by (vm_compute; discriminate).
  assert (Hstart' : nearEpoch (addUtcDays 1701388800000 3))
    by (vm_compute; discriminate).
  assert (Hend' : nearEpoch (addUtcDays 1704067200000 3))
    by (vm_compute; discriminate).
  destruct (diffDays_counts_added_days 1701388800000 1704067200000 3
              Hstart Hend Hstart' Hend') as (_ & Hmoved & _ & Hdiff & _).
  split; [exact Hmoved|exact Hdiff].
Defined.

(** Within 50,000,000 days of the epoch the rounding of [diffDays]
    absorbs an end that is off by less than half a day: from 12 hours
    before to just under 12 hours after the [k]-th day the difference is
    [k]; at 12 hours after it is [k + 1]. *)
Theorem diffDays_tolerates_half_day (start k offset : Z) :
  nearEpoch start -> nearEpoch (addUtcDays start k) ->
  - (MS_PER_DAY / 2) <= offset < MS_PER_DAY / 2 ->
  Runtime.diffDays start (addUtcDays start k + offset) = Some k
  /\ Runtime.diffDays start (addUtcDays start k + MS_PER_DAY / 2) = Some (k + 1).
Proof.
  unfold nearEpoch. intros Hstart Hday Hoff.
  destruct (diffDays_near_day start k offset Hoff) as [Hnear Hhalf].
  rewrite MS_PER_DAY_value in Hoff. change (86400000 / 2) with 43200000 in Hoff.
  rewrite !Runtime_diffDays_exact.
  - rewrite Hnear, Hhalf. split; reflexivity.
  - rewrite MS_PER_DAY_value. change (86400000 / 2) with 43200000.
    change (2 ^ 53) with 9007199254740992. lia.
  - change (2 ^ 53) with 9007199254740992. lia.
Qed.

Lemma diffDays_tolerates_half_day_witness :
  Runtime.diffDays 1704067200000 (addUtcDays 1704067200000 3 + 3600000) = Some 3.
Proof.
  apply (diffDays_tolerates_half_day 1704067200000 3 3600000).
  - vm_compute. discriminate.
  - vm_compute. discriminate.
  - vm_compute. split; [discriminate|reflexivity].
Defined.

(* ===================================================================== *)
(** * The Date object: the calendar *)
(* ===================================================================== *)

Section CalendarFacts.

Lemma dayFromYear_step (y : Z) :
  Builtins.dayFromYear (y + 1)
  = Builtins.dayFromYear y + 365 + (if Builtins.isLeapYear y then 1 else 0).
Proof.
  unfold Builtins.dayFromYear, Builtins.isLeapYear.
  destruct (Z.eqb_spec (y mod 4) 0), (Z.eqb_spec (y mod 100) 0),
    (Z.eqb_spec (y mod 400) 0); cbn [andb orb negb];
    Z.to_euclidean_division_equations; lia.
Qed.

Lemma dayFromYear_mono (a b : Z) :
  a <= b -> Builtins.dayFromYear a <= Builtins.dayFromYear b.
Proof.
  intros Hab. unfold Builtins.dayFromYear.
  Z.to_euclidean_division_equations. lia.
Qed.

(** The year of a date is the one the date falls in. *)
Lemma YearFromTime_spec (t : Z) :
  Builtins.dayFromYear (DateObject.YearFromTime t) <= DateObject.Day t
  < Builtins.dayFromYear (DateObject.YearFromTime t + 1).
Proof.
  unfold DateObject.YearFromTime. cbv zeta.
  set (day := DateObject.Day t). set (y := 1970 + 400 * day / 146097).
  assert (Hest : Builtins.dayFromYear (y - 1) <= day < Builtins.dayFromYear (y + 2)).
  { subst y. unfold Builtins.dayFromYear.
    Z.to_euclidean_division_equations. lia. }
  destruct (Z.leb_spec (Builtins.dayFromYear (y + 1)) day).
  - replace (y + 1 + 1) with (y + 2) by lia. lia.
  - destruct (Z.leb_spec (Builtins.dayFromYear y) day).
    + lia.
    + replace (y - 1 + 1) with y by lia. lia.
Qed.

Lemma YearFromTime_unique (t y : Z) :
  Builtins.dayFromYear y <= DateObject.Day t < Builtins.dayFromYear (y + 1) ->
  DateObject.YearFromTime t = y.
Proof.
  intros Hy. pose proof (YearFromTime_spec t) as Hspec.
  destruct (Z.lt_trichotomy (DateObject.YearFromTime t) y) as [Hlt|[Heq|Hgt]];
    [|exact Heq|].
  - pose proof (dayFromYear_mono (DateObject.YearFromTime t + 1) y ltac:(lia)). lia.
  - pose proof (dayFromYear_mono (y + 1) (DateObject.YearFromTime t) ltac:(lia)). lia.
Qed.

Lemma dayOfYearOfMonth_table (y : Z) :
  let leap := if Builtins.isLeapYear y then 1 else 0 in
  Builtins.dayOfYearOfMonth y 1 = 0
  /\ Builtins.dayOfYearOfMonth y 2 = 31
  /\ Builtins.dayOfYearOfMonth y 3 = 59 + leap
  /\ Builtins.dayOfYearOfMonth y 4 = 90 + leap
  /\ Builtins.dayOfYearOfMonth y 5 = 120 + leap
  /\ Builtins.dayOfYearOfMonth y 6 = 151 + leap
  /\ Builtins.dayOfYearOfMonth y 7 = 181 + leap
  /\ Builtins.dayOfYearOfMonth y 8 = 212 + leap
  /\ Builtins.dayOfYearOfMonth y 9 = 243 + leap
  /\ Builtins.dayOfYearOfMonth y 10 = 273 + leap
  /\ Builtins.dayOfYearOfMonth y 11 = 304 + leap
  /\ Builtins.dayOfYearOfMonth y 12 = 334 + leap.
Proof.
  unfold Builtins.dayOfYearOfMonth, Builtins.daysInMonth. cbn.
  destruct (Builtins.isLeapYear y); repeat split; reflexivity.
Qed.

(** The day number made of the month and the day of the month of a date,
    in a year of one's choice: the same day of that year, but for the
    leap day. *)
Lemma MakeDay_of_date (t year : Z) :
  DateObject.MakeDay year (DateObject.MonthFromTime t) (DateObject.DateFromTime t)
  = Builtins.dayFromYear year + DateObject.DayWithinYear t
    + (if DateObject.MonthFromTime t <? 2 then 0
       else (if Builtins.isLeapYear year then 1 else 0)
            - (if Builtins.isLeapYear (DateObject.YearFromTime t) then 1 else 0)).
Proof.
  unfold DateObject.MakeDay, DateObject.DateFromTime.
  unfold DateObject.MonthFromTime, DateObject.InLeapYear.
  set (d := DateObject.DayWithinYear t).
  set (l := if Builtins.isLeapYear (DateObject.YearFromTime t) then 1 else 0).
  destruct (dayOfYearOfMonth_table year)
    as (T1 & T2 & T3 & T4 & T5 & T6 & T7 & T8 & T9 & T10 & T11 & T12).
  cbv zeta in T3, T4, T5, T6, T7, T8, T9, T10, T11, T12.
  repeat match goal with
         | |- context [if ?a <? ?b then _ else _] =>
             destruct (Z.ltb_spec a b)
         end.
  all: repeat match goal with
              | |- context [Zpos ?a / 12] =>
                  let v := eval vm_compute in (Zpos a / 12) in
                  change (Zpos a / 12) with v
              | |- context [0 / 12] => change (0 / 12) with 0
              | |- context [Zpos ?a mod 12 + 1] =>
                  let v := eval vm_compute in (Zpos a mod 12 + 1) in
                  change (Zpos a mod 12 + 1) with v
              | |- context [0 mod 12 + 1] => change (0 mod 12 + 1) with 1
              end.
  all: rewrite !Z.add_0_r.
  all: try first [rewrite T1|rewrite T2|rewrite T3|rewrite T4|rewrite T5|rewrite T6
                 |rewrite T7|rewrite T8|rewrite T9|rewrite T10|rewrite T11
                 |rewrite T12].
  all: lia.
Qed.

Lemma MonthFromTime_before_March (t : Z) :
  (DateObject.MonthFromTime t <? 2)
  = (DateObject.DayWithinYear t <? 59 + DateObject.InLeapYear t).
Proof.
  unfold DateObject.MonthFromTime. cbv zeta.
  assert (0 <= DateObject.InLeapYear t <= 1)
    by (unfold DateObject.InLeapYear; destruct (Builtins.isLeapYear _); lia).
  repeat match goal with
         | |- context [if ?a <? ?b then _ else _] =>
             destruct (Z.ltb_spec a b)
         end;
    try reflexivity; symmetry; (apply Z.ltb_lt || apply Z.ltb_ge); lia.
Qed.

Lemma validTime_Day (t : Z) :
  validTime t -> -100000000 <= DateObject.Day t <= 100000000.
Proof.
  unfold validTime, DateObject.Day. rewrite MS_PER_DAY_value. intros Ht.
  Z.to_euclidean_division_equations. lia.
Qed.

Lemma Date_UTC_value (year month date : Z) :
  ~ (0 <= year <= 99) ->
  Z.abs (DateObject.MakeDay year month date) <= 100000000 ->
  DateObject.Date_UTC year month date
  = Some (DateObject.MakeDay year month date * MS_PER_DAY).
Proof.
  intros Hyear Hday. unfold DateObject.Date_UTC, DateObject.MakeDate.
  replace ((0 <=? year) && (year <=? 99)) with false
    by (symmetry; apply andb_false_iff; rewrite Z.leb_gt, Z.leb_gt; lia).
  rewrite (TimeClip_integer _ _ (Qeq_refl _)), Z.add_0_r.
  destruct (Z.leb_spec (Z.abs (DateObject.MakeDay year month date * MS_PER_DAY))
              8640000000000000) as [_|Hout]; [reflexivity|].
  rewrite MS_PER_DAY_value in Hout. lia.
Qed.

(** Outside the years 0 to 99 the start of the day is the midnight at or
    before the date. *)
Lemma Runtime_startOfUtcDay_exact (date : Z) :
  validTime date ->
  ~ (0 <= DateObject.YearFromTime date <= 99) ->
  Runtime.startOfUtcDay date = Some (startOfUtcDay date).
Proof.
  intros Hvalid Hyear. unfold Runtime.startOfUtcDay.
  unfold DateObject.getUTCFullYear, DateObject.getUTCMonth, DateObject.getUTCDate.
  pose proof (MakeDay_of_date date (DateObject.YearFromTime date)) as Hday.
  assert (Hsame : DateObject.MakeDay (DateObject.YearFromTime date)
                    (DateObject.MonthFromTime date) (DateObject.DateFromTime date)
                  = DateObject.Day date).
  { rewrite Hday. unfold DateObject.DayWithinYear.
    destruct (DateObject.MonthFromTime date <? 2); lia. }
  pose proof (validTime_Day date Hvalid) as Hrange.
  rewrite Date_UTC_value; [|exact Hyear|rewrite Hsame; lia].
  rewrite Hsame. reflexivity.
Qed.

(** A date in the years 0 to 99 is moved 1900 years on. *)
Lemma Runtime_startOfUtcDay_two_digit_year (date : Z) :
  0 <= DateObject.YearFromTime date <= 99 ->
  exists day,
    Runtime.startOfUtcDay date = Some day
    /\ (MS_PER_DAY | day)
    /\ date < day
    /\ DateObject.YearFromTime day = 1900 + DateObject.YearFromTime date.
Proof.
  intros Hyear. unfold Runtime.startOfUtcDay, DateObject.Date_UTC.
  unfold DateObject.getUTCFullYear, DateObject.getUTCMonth, DateObject.getUTCDate.
  replace ((0 <=? DateObject.YearFromTime date) && (DateObject.YearFromTime date <=? 99))
    with true by (symmetry; apply andb_true_iff; rewrite !Z.leb_le; exact Hyear).
  pose proof (MakeDay_of_date date (1900 + DateObject.YearFromTime date)) as Hday.
  pose proof (YearFromTime_spec date) as Hspec.
  set (Y := DateObject.YearFromTime date) in *.
  set (day := DateObject.MakeDay (1900 + Y) _ _) in *.
  pose proof (dayFromYear_step Y) as Hstep.
  pose proof (dayFromYear_step (1900 + Y)) as Hstep'.
  replace (1900 + Y + 1) with (1900 + (Y + 1)) in Hstep' by lia.
  assert (Hleap : Y <> 0 -> Builtins.isLeapYear (1900 + Y) = Builtins.isLeapYear Y).
  { intros HY. unfold Builtins.isLeapYear.
    destruct (Z.eqb_spec ((1900 + Y) mod 4) 0), (Z.eqb_spec (Y mod 4) 0),
      (Z.eqb_spec ((1900 + Y) mod 100) 0), (Z.eqb_spec (Y mod 100) 0),
      (Z.eqb_spec ((1900 + Y) mod 400) 0), (Z.eqb_spec (Y mod 400) 0);
      cbn [andb orb negb]; try reflexivity;
      exfalso; Z.to_euclidean_division_equations; lia. }
  assert (Hin : Builtins.dayFromYear (1900 + Y) <= day
                < Builtins.dayFromYear (1900 + (Y + 1))).
  { unfold DateObject.DayWithinYear in Hday. fold Y in Hday.
    destruct (Z.eq_dec Y 0) as [HY0|HY0].
    - pose proof (MonthFromTime_before_March date) as Hmarch.
      unfold DateObject.DayWithinYear, DateObject.InLeapYear in Hmarch.
      fold Y in Hmarch. rewrite HY0 in *.
      change (Builtins.isLeapYear (1900 + 0)) with false in *.
      change (Builtins.isLeapYear 0) with true in *.
      cbv beta iota in Hstep, Hstep', Hday, Hmarch.
      destruct (DateObject.MonthFromTime date <? 2);
        symmetry in Hmarch; [apply Z.ltb_lt in Hmarch|apply Z.ltb_ge in Hmarch]; lia.
    - rewrite (Hleap HY0) in *.
      destruct (DateObject.MonthFromTime date <? 2);
        destruct (Builtins.isLeapYear Y); lia. }
  assert (Hrange : -25567 <= Builtins.dayFromYear (1900 + Y)
                   /\ Builtins.dayFromYear (1900 + (Y + 1)) <= 10957
                   /\ Builtins.dayFromYear (Y + 1) <= -683003).
  { unfold Builtins.dayFromYear. Z.to_euclidean_division_equations. lia. }
  exists (day * MS_PER_DAY). unfold DateObject.MakeDate.
  rewrite (TimeClip_integer _ _ (Qeq_refl _)), Z.add_0_r.
  assert (HDay : DateObject.Day (day * MS_PER_DAY) = day)
    by (unfold DateObject.Day; apply Z.div_mul; rewrite MS_PER_DAY_value; lia).
  repeat split.
  - destruct (Z.leb_spec (Z.abs (day * MS_PER_DAY)) 8640000000000000) as [_|Hout];
      [reflexivity|]. rewrite MS_PER_DAY_value in Hout. lia.
  - exists day. reflexivity.
  - unfold DateObject.Day in Hspec. rewrite MS_PER_DAY_value in *.
    Z.to_euclidean_division_equations. lia.
  - apply YearFromTime_unique. rewrite HDay.
    replace (1900 + Y + 1) with (1900 + (Y + 1)) by lia. exact Hin.
Qed.

End CalendarFacts.

(** The calendar on sample dates: a leap day, the last day before the
    epoch, and the first and the last valid date. *)
Example calendar_samples :
  map (fun t => (DateObject.getUTCFullYear t, DateObject.getUTCMonth t,
                 DateObject.getUTCDate t))
      [951782400000; -1; -8640000000000000; 8640000000000000]
  = [(2000, 1, 29); (1969, 11, 31); (-271821, 3, 20); (275760, 8, 13)].
Proof. reflexivity. Qed.

(** [startOfUtcDay] of a valid date whose year is not one of 0 to
    99 is the midnight at or before the date: a multiple of a day, less
    than a day back, the value [startOfUtcDay] of the layout, and its own
    start of day.  In the years 0 to 99 [Date.UTC] reads the year as a
    year of the 1900s, and the result is a midnight 1900 years after the
    date. *)
Theorem startOfUtcDay_is_midnight (date : Z) :
  validTime date ->
  let year := DateObject.getUTCFullYear date in
  (Builtins.dayFromYear year * MS_PER_DAY <= date
   < Builtins.dayFromYear (year + 1) * MS_PER_DAY)
  /\ (~ (0 <= year <= 99) ->
      exists day,
        Runtime.startOfUtcDay date = Some day
        /\ day = startOfUtcDay date
        /\ (MS_PER_DAY | day)
        /\ day <= date < day + MS_PER_DAY
        /\ Runtime.startOfUtcDay day = Some day)
  /\ (0 <= year <= 99 ->
      exists day,
        Runtime.startOfUtcDay date = Some day
        /\ (MS_PER_DAY | day)
        /\ date < day
        /\ DateObject.getUTCFullYear day = 1900 + year).
Proof.
  intros Hvalid year. subst year. unfold DateObject.getUTCFullYear.
  split; [|split].
  - pose proof (YearFromTime_spec date) as Hspec. unfold DateObject.Day in Hspec.
    rewrite MS_PER_DAY_value in *. Z.to_euclidean_division_equations. lia.
  - intros Hyear. exists (startOfUtcDay date).
    pose proof (startOfUtcDay_bounds date) as Hbounds.
    assert (HDay : DateObject.Day (startOfUtcDay date) = DateObject.Day date)
      by (unfold DateObject.Day, startOfUtcDay; apply Z.div_mul;
          rewrite MS_PER_DAY_value; lia).
    split; [apply Runtime_startOfUtcDay_exact; assumption|].
    split; [reflexivity|].
    split; [exists (date / MS_PER_DAY); reflexivity|].
    split; [exact Hbounds|].
    rewrite Runtime_startOfUtcDay_exact.
    + unfold startOfUtcDay at 1. fold (DateObject.Day (startOfUtcDay date)).
      rewrite HDay. reflexivity.
    + unfold validTime in *. unfold startOfUtcDay in *.
      rewrite MS_PER_DAY_value in *. Z.to_euclidean_division_equations. lia.
    + unfold DateObject.YearFromTime. rewrite HDay. exact Hyear.
  - apply Runtime_startOfUtcDay_two_digit_year.
Qed.

Lemma startOfUtcDay_is_midnight_witness :
  Runtime.startOfUtcDay 1704110400000 = Some 1704067200000
  /\ exists day,
       Runtime.startOfUtcDay (-60575004000000) = Some day
       /\ -60575004000000 < day.
Proof.
  assert (Hnow : validTime 1704110400000) by (vm_compute; discriminate).
  assert (Hold : validTime (-60575004000000)) by (vm_compute; discriminate).
  split.
  - destruct (startOfUtcDay_is_midnight 1704110400000 Hnow) as (_ & Hday & _).
    destruct Hday as (day & -> & -> & _);
      [vm_compute; intros [_ H]; exact (H eq_refl)|].
    reflexivity.
  - destruct (startOfUtcDay_is_midnight (-60575004000000) Hold) as (_ & _ & Hday).
    destruct Hday as (day & Hday & _ & Hlater & _);
      [vm_compute; split; discriminate|].
    exists day. split; [exact Hday|exact Hlater].
Defined.

(* ===================================================================== *)
(** * First-fit placement *)
(* ===================================================================== *)

Section FirstFit.
Context {S A B : Type} (f : S -> A -> B * S) (slots : S -> list Z).
Context (slotOf startOf endOf : B -> Z) (gap : Z).

Hypothesis gap_nonneg : 0 <= gap.
Hypothesis step :
  forall (st : S) (x : A),
    firstFitStep slotOf startOf endOf gap (slots st) (f st x).1 (slots (f st x).2).

Lemma firstFitInvariant_step (placed : list B) (st : S) (x : A) :
  firstFitInvariant slotOf startOf endOf gap placed (slots st) ->
  firstFitInvariant slotOf startOf endOf gap (placed ++ [(f st x).1])
                    (slots (f st x).2).
Proof.
  intros (Hends & Hapart & (lastOf & Hlen & Hlast) & Hcount).
  destruct (step st x) as [Hse Hcase].
  set (p := (f st x).1) in *. set (slots' := slots (f st x).2) in *.
  (* an earlier item of the slot of [p] ends more than [gap] before [p] *)
  assert (Hearlier : forall k a, placed !! k = Some a -> slotOf a = slotOf p ->
            startOf p > endOf a + gap).
  { intros k a Hk Hsame. destruct (Hends k a Hk) as (_ & Hr0 & o & Ho & Hle).
    destruct Hcase as [(Hnew & _ & _)|(Hr & (o' & Ho' & Hgt) & _)].
    - apply lookup_lt_Some in Ho. lia.
    - rewrite Hsame, Ho' in Ho. injection Ho as ->. lia. }
  split; [|split; [|split]].
  - intros k q Hk. apply lookup_app_Some in Hk as [Hk|[_ Hk]].
    + destruct (Hends k q Hk) as (Hq & Hr0 & o & Ho & Hle).
      split; [exact Hq|]. split; [exact Hr0|].
      destruct Hcase as [(_ & -> & _)|(Hr & _ & ->)].
      * exists o. split; [apply lookup_app_l_Some, Ho|exact Hle].
      * destruct (decide (slotOf q = slotOf p)) as [Heq|Hne].
        -- exists (endOf p). rewrite Heq.
           split; [apply list_lookup_insert_eq; lia|].
           specialize (Hearlier k q Hk Heq). lia.
        -- exists o. split; [|exact Hle].
           rewrite list_lookup_insert_ne by lia. exact Ho.
    + apply list_lookup_singleton_Some in Hk as [_ <-]. split; [exact Hse|].
      destruct Hcase as [(Hnew & -> & _)|(Hr & _ & ->)].
      * split; [lia|]. exists (endOf p). split; [|lia].
        rewrite Hnew, Nat2Z.id. apply list_lookup_middle. reflexivity.
      * split; [lia|]. exists (endOf p). split; [|lia].
        apply list_lookup_insert_eq. lia.
  - intros i j a b Hi Hj Hij Hsame.
    apply lookup_app_Some in Hj as [Hj|[Hge Hj]].
    + assert (Hi' : placed !! i = Some a).
      { apply lookup_lt_Some in Hj. rewrite lookup_app_l in Hi by lia. exact Hi. }
      exact (Hapart i j a b Hi' Hj Hij Hsame).
    + apply list_lookup_singleton_Some in Hj as [Hj0 <-].
      assert (Hi' : placed !! i = Some a).
      { rewrite lookup_app_l in Hi by lia. exact Hi. }
      exact (Hearlier i a Hi' Hsame).
  - destruct Hcase as [(Hnew & -> & _)|(Hr & _ & ->)].
    + exists (lastOf ++ [length placed]).
      split; [rewrite !length_app, Hlen; reflexivity|].
      intros r k Hk. apply lookup_app_Some in Hk as [Hk|[Hge Hk]].
      * destruct (Hlast r k Hk) as (q & Hq & Hslot & Hmark).
        exists q. split; [apply lookup_app_l_Some, Hq|].
        split; [exact Hslot|apply lookup_app_l_Some, Hmark].
      * apply list_lookup_singleton_Some in Hk as [Hr <-].
        assert (r = length (slots st)) as -> by lia.
        exists p. split; [apply list_lookup_middle; reflexivity|].
        split; [exact Hnew|apply list_lookup_middle; reflexivity].
    + exists (<[Z.to_nat (slotOf p) := length placed]> lastOf).
      split; [rewrite !length_insert; exact Hlen|].
      intros r k Hk.
      destruct (decide (r = Z.to_nat (slotOf p))) as [->|Hne].
      * rewrite list_lookup_insert_eq in Hk by lia. injection Hk as <-.
        exists p. split; [apply list_lookup_middle; reflexivity|].
        split; [lia|apply list_lookup_insert_eq; lia].
      * rewrite list_lookup_insert_ne in Hk by congruence.
        destruct (Hlast r k Hk) as (q & Hq & Hslot & Hmark).
        exists q. split; [apply lookup_app_l_Some, Hq|].
        split; [exact Hslot|].
        rewrite list_lookup_insert_ne by congruence. exact Hmark.
  - destruct Hcase as [(_ & -> & _)|(_ & _ & ->)].
    + rewrite !length_app. simpl. lia.
    + rewrite length_insert, length_app. lia.
Qed.

Lemma firstFitInvariant_loop (st : S) (l : list A) :
  slots st = [] ->
  firstFitInvariant slotOf startOf endOf gap (mapWithState f st l).1
                    (slots (mapWithState f st l).2).
Proof.
  intros Hempty.
  apply (mapWithState_invariant f
           (fun placed s => firstFitInvariant slotOf startOf endOf gap placed (slots s))).
  - rewrite Hempty. split; [done|]. split; [done|]. split; [|done].
    exists []. split; [reflexivity|done].
  - intros placed s x. apply firstFitInvariant_step.
Qed.

End FirstFit.

Section FirstFitDepth.
Context {S A B : Type} (f : S -> A -> B * S) (slots : S -> list Z).
Context (slotOf startOf endOf : B -> Z) (gap : Z).

Hypothesis gap_nonneg : 0 <= gap.
Hypothesis step :
  forall (st : S) (x : A),
    firstFitStep slotOf startOf endOf gap (slots st) (f st x).1 (slots (f st x).2).

Lemma busyTogether_more (placed : list B) (p : B) (n : nat) :
  busyTogether startOf endOf gap placed n ->
  busyTogether startOf endOf gap (placed ++ [p]) n.
Proof.
  intros (d & ks & Hnodup & Hlen & Hbusy). exists d, ks.
  split; [exact Hnodup|]. split; [exact Hlen|].
  intros k Hk. destruct (Hbusy k Hk) as (q & Hq & Hd).
  exists q. split; [apply lookup_app_l_Some, Hq|exact Hd].
Qed.

(** When a new slot is opened, the last item of every slot is still busy
    where the new item starts. *)
Lemma firstFit_depth_step (placed : list B) (st : S) (x : A) :
  firstFitInvariant slotOf startOf endOf gap placed (slots st) ->
  (startsAscend startOf placed ->
   busyTogether startOf endOf gap placed (length (slots st))) ->
  startsAscend startOf (placed ++ [(f st x).1]) ->
  busyTogether startOf endOf gap (placed ++ [(f st x).1])
               (length (slots (f st x).2)).
Proof.
  intros (_ & _ & (lastOf & Hlen & Hlast) & _) Hbusy Hasc.
  assert (Hasc' : startsAscend startOf placed).
  { intros i j a b Hi Hj Hij.
    apply (Hasc i j a b); [apply lookup_app_l_Some, Hi|apply lookup_app_l_Some, Hj|exact Hij]. }
  specialize (Hbusy Hasc'). destruct (step st x) as [Hse Hcase].
  set (p := (f st x).1) in *.
  destruct Hcase as [(_ & -> & Hfull)|(_ & _ & ->)].
  - exists (startOf p), (length placed :: lastOf).
    split; [|split].
    + apply NoDup_cons. split.
      * intros [r Hr]%list_elem_of_lookup.
        destruct (Hlast r _ Hr) as (q & Hq & _). apply lookup_lt_Some in Hq. lia.
      * apply NoDup_alt. intros i j k Hi Hj.
        destruct (Hlast i k Hi) as (q & Hq & Hslot & _).
        destruct (Hlast j k Hj) as (q' & Hq' & Hslot' & _).
        rewrite Hq in Hq'. injection Hq' as <-. lia.
    + rewrite length_app. simpl. lia.
    + intros k [->|[r Hr]%list_elem_of_lookup]%elem_of_cons.
      * exists p. split; [apply list_lookup_middle; reflexivity|lia].
      * destruct (Hlast r k Hr) as (q & Hq & _ & Hmark).
        exists q. split; [apply lookup_app_l_Some, Hq|]. split.
        -- apply (Hasc k (length placed) q p);
             [apply lookup_app_l_Some, Hq|apply list_lookup_middle; reflexivity|].
           apply lookup_lt_Some in Hq. exact Hq.
        -- apply (Hfull r _ Hmark).
  - rewrite length_insert. apply busyTogether_more, Hbusy.
Qed.

Lemma firstFit_depth_loop (st : S) (l : list A) :
  slots st = [] ->
  startsAscend startOf (mapWithState f st l).1 ->
  busyTogether startOf endOf gap (mapWithState f st l).1
               (length (slots (mapWithState f st l).2)).
Proof.
  intros Hempty.
  apply (mapWithState_invariant f
           (fun placed s =>
              firstFitInvariant slotOf startOf endOf gap placed (slots s)
              /\ (startsAscend startOf placed ->
                  busyTogether startOf endOf gap placed (length (slots s))))).
  - split.
    + rewrite Hempty. split; [done|]. split; [done|]. split; [|done].
      exists []. split; [reflexivity|done].
    + intros _. rewrite Hempty. exists 0, []. split; [constructor|].
      split; [reflexivity|]. intros k Hk. inversion Hk.
  - intros placed s x [Hinv Hbusy]. split.
    + apply (firstFitInvariant_step f slots slotOf startOf endOf gap gap_nonneg step),
        Hinv.
    + apply firstFit_depth_step; assumption.
Qed.

End FirstFitDepth.

Section PlacementIsFirstFit.
Variable Date_parse : jsstring -> Z.
Variable localeCompare : jsstring -> jsstring -> Z.

Lemma placeExperiment_firstFit (startDate : Z) (rowEnds : list Z)
    (x : ExperimentItem.t) :
  firstFitStep PositionedExperiment.row PositionedExperiment.startIndex
               PositionedExperiment.endIndex 0 rowEnds
               (placeExperiment Date_parse startDate rowEnds x).1
               (placeExperiment Date_parse startDate rowEnds x).2.
Proof.
  destruct (placeExperiment_step Date_parse startDate rowEnds x)
    as (_ & Hs & He & Hbefore & Hcase).
  cbv zeta in *. split; [lia|].
  destruct Hcase as [[Hnew Hends]|(Hr & (o & Ho & Hgt) & Hends)]; [left|right].
  - split; [exact Hnew|]. split; [exact Hends|].
    intros j o Hj. pose proof (lookup_lt_Some _ _ _ Hj) as Hlt.
    specialize (Hbefore j o Hj). lia.
  - split; [exact Hr|]. split; [|exact Hends].
    exists o. split; [exact Ho|lia].
Qed.

Lemma labelWidthOf_bounds (label : jsstring) : 92 <= labelWidthOf label <= 240.
Proof. unfold labelWidthOf. lia. Qed.

Lemma placeRelease_firstFit (startDate : Z) (st : list Z * Z) (x : ReleaseItem.t) :
  firstFitStep PositionedRelease.lane
               (fun p => anchorX (PositionedRelease.dayIndex p))
               PositionedRelease.labelEnd 12 st.1
               (placeRelease Date_parse startDate st x).1
               (placeRelease Date_parse startDate st x).2.1.
Proof.
  destruct (placeRelease_step Date_parse startDate st x)
    as (_ & _ & Hend & _ & _ & _).
  cbv zeta in Hend.
  pose proof (labelWidthOf_bounds (compactReleaseLabel (ReleaseItem.name x))) as Hw.
  split; [lia|]. clear Hend Hw.
  destruct st as [occ mx]. unfold placeRelease, anchorX.
  set (d := Z.max 0 _). set (w := Z.max 92 _).
  set (q := fun occupiedUntil : Z => d * DAY_WIDTH + DAY_WIDTH / 2 >? occupiedUntil + 12).
  pose proof (findIndex_range q occ) as Hrange.
  destruct (findIndex q occ <? 0) eqn:Hneg; cbn.
  - apply Z.ltb_lt in Hneg. left. split; [reflexivity|]. split; [reflexivity|].
    intros j o Hj. pose proof (findIndex_none q occ Hneg j o Hj) as Hq.
    unfold q in Hq. lia.
  - apply Z.ltb_ge in Hneg. right.
    destruct (findIndex_first q occ Hneg) as [(o & Ho & Hqo) _].
    split; [lia|]. split; [|reflexivity].
    exists o. split; [exact Ho|]. unfold q in Hqo. lia.
Qed.

(** The rows of a layout: the marks behind the placed experiments. *)
Lemma layout_rows (now : Z) (experiments : list ExperimentItem.t)
    (releases : list ReleaseItem.t) (windowStartIso : jsstring) :
  let L := layoutTimeline Date_parse localeCompare now experiments releases
                          windowStartIso in
  exists rowEnds : list Z,
    firstFitInvariant PositionedExperiment.row PositionedExperiment.startIndex
                      PositionedExperiment.endIndex 0
                      (TimelineLayout.positionedExperiments L) rowEnds
    /\ (startsAscend PositionedExperiment.startIndex
                     (TimelineLayout.positionedExperiments L) ->
        busyTogether PositionedExperiment.startIndex PositionedExperiment.endIndex 0
                     (TimelineLayout.positionedExperiments L) (length rowEnds))
    /\ TimelineLayout.experimentRows L = Z.max 1 (Z.of_nat (length rowEnds))
    /\ length (TimelineLayout.positionedExperiments L) = length experiments.
Proof.
  intros L.
  destruct (layoutTimeline_experiments Date_parse localeCompare now experiments
              releases windowStartIso) as [Hplaced Hrows].
  cbv zeta in Hplaced, Hrows. fold L in Hplaced, Hrows.
  set (f := placeExperiment Date_parse (TimelineLayout.startDate L)) in *.
  set (sorted := sort (byStartDate localeCompare) experiments) in *.
  exists (mapWithState f [] sorted).2. rewrite Hplaced.
  split; [|split; [|split; [exact Hrows|]]].
  - apply (firstFitInvariant_loop f (fun s => s)
             PositionedExperiment.row PositionedExperiment.startIndex
             PositionedExperiment.endIndex 0 ltac:(lia));
      [intros st x; apply placeExperiment_firstFit|reflexivity].
  - apply (firstFit_depth_loop f (fun s => s)
             PositionedExperiment.row PositionedExperiment.startIndex
             PositionedExperiment.endIndex 0 ltac:(lia));
      [intros st x; apply placeExperiment_firstFit|reflexivity].
  - rewrite mapWithState_length. apply Permutation_length, sort_Permutation.
Qed.

(** The lanes of a layout: the marks behind the placed releases. *)
Lemma layout_lanes (now : Z) (experiments : list ExperimentItem.t)
    (releases : list ReleaseItem.t) (windowStartIso : jsstring) :
  let L := layoutTimeline Date_parse localeCompare now experiments releases
                          windowStartIso in
  exists occupancy : list Z,
    firstFitInvariant PositionedRelease.lane
                      (fun p => anchorX (PositionedRelease.dayIndex p))
                      PositionedRelease.labelEnd 12
                      (TimelineLayout.positionedReleases L) occupancy
    /\ (startsAscend (fun p => anchorX (PositionedRelease.dayIndex p))
                     (TimelineLayout.positionedReleases L) ->
        busyTogether (fun p => anchorX (PositionedRelease.dayIndex p))
                     PositionedRelease.labelEnd 12
                     (TimelineLayout.positionedReleases L) (length occupancy))
    /\ TimelineLayout.releaseLanes L = Z.max 1 (Z.of_nat (length occupancy))
    /\ length (TimelineLayout.positionedReleases L) = length releases.
Proof.
  intros L.
  destruct (layoutTimeline_releases Date_parse localeCompare now experiments
              releases windowStartIso) as (Hplaced & Hlanes & _).
  cbv zeta in Hplaced, Hlanes. fold L in Hplaced, Hlanes.
  set (f := placeRelease Date_parse (TimelineLayout.startDate L)) in *.
  set (init := (([] : list Z), TimelineLayout.totalDays L * DAY_WIDTH)) in *.
  set (sorted := sort (byDate localeCompare) releases) in *.
  exists (mapWithState f init sorted).2.1. rewrite Hplaced.
  split; [|split; [|split; [exact Hlanes|]]].
  - apply (firstFitInvariant_loop f fst
             PositionedRelease.lane
             (fun p => anchorX (PositionedRelease.dayIndex p))
             PositionedRelease.labelEnd 12 ltac:(lia));
      [intros st x; apply placeRelease_firstFit|reflexivity].
  - apply (firstFit_depth_loop f fst
             PositionedRelease.lane
             (fun p => anchorX (PositionedRelease.dayIndex p))
             PositionedRelease.labelEnd 12 ltac:(lia));
      [intros st x; apply placeRelease_firstFit|reflexivity].
  - rewrite mapWithState_length. apply Permutation_length, sort_Permutation.
Qed.

End PlacementIsFirstFit.

Section Minimality.
Context {B : Type} (startOf endOf : B -> Z) (gap : Z).

(** Items that are busy together cannot share a slot: whoever keeps the
    items of a slot more than [gap] apart needs a slot for each. *)
Lemma busyTogether_needs_slots (placed : list B) (n : nat) :
  busyTogether startOf endOf gap placed n ->
  forall assign : nat -> Z,
    (forall (i j : nat) (a b : B),
        placed !! i = Some a -> placed !! j = Some b -> (i < j)%nat ->
        assign i = assign j -> startOf b > endOf a + gap) ->
    exists used : list Z,
      NoDup used /\ length used = n
      /\ forall r : Z, r ∈ used ->
           exists (k : nat) (p : B), placed !! k = Some p /\ assign k = r.
Proof.
  intros (d & ks & Hnodup & Hlen & Hbusy) assign Hassign.
  exists (assign <$> ks). split; [|split].
  - apply NoDup_fmap_2_strong; [|exact Hnodup].
    intros i j Hi Hj Heq.
    destruct (Hbusy i Hi) as (a & Ha & Hda). destruct (Hbusy j Hj) as (b & Hb & Hdb).
    destruct (Nat.lt_total i j) as [Hlt|[->|Hgt]]; [|reflexivity|].
    + specialize (Hassign i j a b Ha Hb Hlt Heq). lia.
    + specialize (Hassign j i b a Hb Ha Hgt (eq_sym Heq)). lia.
  - rewrite length_fmap. exact Hlen.
  - intros r (k & -> & Hk)%list_elem_of_fmap.
    destruct (Hbusy k Hk) as (p & Hp & _). exists k, p. done.
Qed.

Lemma Sorted_startsAscend (placed : list B) :
  Sorted Z.le (map startOf placed) -> startsAscend startOf placed.
Proof.
  intros Hsorted. apply Sorted_StronglySorted in Hsorted; [|intros x y z; lia].
  induction placed as [|x placed IH]; intros i j a b Hi Hj Hij; [done|].
  simpl in Hsorted. apply StronglySorted_cons in Hsorted as [Hx Hrest].
  destruct j as [|j]; [lia|]. simpl in Hj. destruct i as [|i]; simpl in Hi.
  - injection Hi as <-. rewrite Forall_forall in Hx. apply Hx.
    apply list_elem_of_fmap. exists b. split; [reflexivity|].
    apply list_elem_of_lookup. eauto.
  - apply (IH Hrest i j a b Hi Hj). lia.
Qed.

End Minimality.

(** The rows are counted as they are opened.  [experimentRows] is at
    least 1 and at most the number of experiments (1 without any); every
    placed experiment has its row among the counted ones; with at least
    one experiment every counted row holds one; without experiments
    nothing is placed. *)
Theorem rows_are_counted
    (Date_parse : jsstring -> Z) (localeCompare : jsstring -> jsstring -> Z)
    (now : Z) (experiments : list ExperimentItem.t)
    (releases : list ReleaseItem.t) (windowStartIso : jsstring) :
  let L := layoutTimeline Date_parse localeCompare now experiments releases
                          windowStartIso in
  let placed := TimelineLayout.positionedExperiments L in
  1 <= TimelineLayout.experimentRows L <= Z.max 1 (Z.of_nat (length experiments))
  /\ (forall (k : nat) (p : PositionedExperiment.t),
        placed !! k = Some p ->
        0 <= PositionedExperiment.row p < TimelineLayout.experimentRows L)
  /\ (experiments <> [] ->
      forall r : Z, 0 <= r < TimelineLayout.experimentRows L ->
        exists (k : nat) (p : PositionedExperiment.t),
          placed !! k = Some p /\ PositionedExperiment.row p = r)
  /\ (experiments = [] -> placed = [] /\ TimelineLayout.experimentRows L = 1).
Proof.
  intros L placed.
  destruct (layout_rows Date_parse localeCompare now experiments releases
              windowStartIso)
    as (rowEnds & (Hends & _ & (lastOf & Hlen & Hlast) & Hcount) & _ & Hrows & Hsize).
  fold L in Hends, Hlast, Hcount, Hrows, Hsize.
  fold placed in Hends, Hlast, Hcount, Hsize.
  split; [lia|]. split; [|split].
  - intros k p Hk. destruct (Hends k p Hk) as (_ & Hr0 & o & Ho & _).
    apply lookup_lt_Some in Ho. lia.
  - intros Hne r Hr.
    assert (Hsome : (0 < length rowEnds)%nat).
    { destruct placed as [|p0 rest] eqn:Hp.
      - destruct experiments; [done|simpl in Hsize; lia].
      - destruct (Hends 0%nat p0 eq_refl) as (_ & _ & o & Ho & _).
        apply lookup_lt_Some in Ho. lia. }
    assert (Hin : (Z.to_nat r < length lastOf)%nat) by lia.
    destruct (lookup_lt_is_Some_2 lastOf _ Hin) as [k Hk].
    destruct (Hlast _ k Hk) as (p & Hp & Hslot & _).
    exists k, p. split; [exact Hp|lia].
  - intros ->. simpl in Hsize. split; [apply nil_length_inv, Hsize|].
    simpl in Hcount. rewrite Hsize in Hcount. lia.
Qed.

(** With the experiments placed in the order of their start index, no
    layout gets by with fewer rows: as many experiments as there are rows
    run on one day, and every assignment of rows that keeps the
    experiments of a row from sharing a day uses that many rows. *)
Theorem rows_are_all_needed
    (Date_parse : jsstring -> Z) (localeCompare : jsstring -> jsstring -> Z)
    (now : Z) (experiments : list ExperimentItem.t)
    (releases : list ReleaseItem.t) (windowStartIso : jsstring) :
  let L := layoutTimeline Date_parse localeCompare now experiments releases
                          windowStartIso in
  let placed := TimelineLayout.positionedExperiments L in
  Sorted Z.le (map PositionedExperiment.startIndex placed) ->
  experiments <> [] ->
  (exists (day : Z) (ks : list nat),
      NoDup ks /\ Z.of_nat (length ks) = TimelineLayout.experimentRows L
      /\ forall k : nat, k ∈ ks ->
           exists p, placed !! k = Some p
                     /\ PositionedExperiment.startIndex p <= day
                        <= PositionedExperiment.endIndex p)
  /\ forall assign : nat -> Z,
      (forall (i j : nat) (a b : PositionedExperiment.t),
          placed !! i = Some a -> placed !! j = Some b -> i <> j ->
          assign i = assign j ->
          PositionedExperiment.startIndex a > PositionedExperiment.endIndex b
          \/ PositionedExperiment.startIndex b > PositionedExperiment.endIndex a) ->
      exists used : list Z,
        NoDup used /\ Z.of_nat (length used) = TimelineLayout.experimentRows L
        /\ forall r : Z, r ∈ used ->
             exists (k : nat) (p : PositionedExperiment.t),
               placed !! k = Some p /\ assign k = r.
Proof.
  intros L placed Hsorted Hne.
  destruct (layout_rows Date_parse localeCompare now experiments releases
              windowStartIso)
    as (rowEnds & (Hends & _ & _ & _) & Hbusy & Hrows & Hsize).
  fold L in Hends, Hbusy, Hrows, Hsize. fold placed in Hends, Hbusy, Hsize.
  apply Sorted_startsAscend in Hsorted. specialize (Hbusy Hsorted).
  assert (Hsome : (0 < length rowEnds)%nat).
  { destruct placed as [|p0 rest] eqn:Hp.
    - destruct experiments; [done|simpl in Hsize; lia].
    - destruct (Hends 0%nat p0 eq_refl) as (_ & _ & o & Ho & _).
      apply lookup_lt_Some in Ho. lia. }
  split.
  - destruct Hbusy as (d & ks & Hnodup & Hlen & Hks). exists d, ks.
    split; [exact Hnodup|]. split; [lia|].
    intros k Hk. destruct (Hks k Hk) as (p & Hp & Hd). exists p. split; [exact Hp|lia].
  - intros assign Hassign.
    destruct (busyTogether_needs_slots _ _ _ placed _ Hbusy assign)
      as (used & Hnodup & Hlen & Hused).
    + intros i j a b Hi Hj Hij Heq.
      destruct (Hends j b Hj) as (Hb & _).
      pose proof (Hsorted i j a b Hi Hj Hij) as Hstart.
      destruct (Hassign i j a b Hi Hj ltac:(lia) Heq); lia.
    + exists used. split; [exact Hnodup|]. split; [lia|exact Hused].
Qed.

Lemma rows_are_all_needed_witness :
  exists (day : Z) (ks : list nat),
    NoDup ks
    /\ Z.of_nat (length ks)
       = TimelineLayout.experimentRows
           (layoutTimeline Builtins.Date_parse Builtins.localeCompare 1704110400000
              [experiment "A" "2024-01-03" "2024-01-10";
               experiment "B" "2024-01-05" "2024-01-08"] [] (js "2024-01-01"))
    /\ forall k : nat, k ∈ ks ->
         exists p,
           TimelineLayout.positionedExperiments
             (layoutTimeline Builtins.Date_parse Builtins.localeCompare 1704110400000
                [experiment "A" "2024-01-03" "2024-01-10";
                 experiment "B" "2024-01-05" "2024-01-08"] [] (js "2024-01-01"))
           !! k = Some p
           /\ PositionedExperiment.startIndex p <= day
              <= PositionedExperiment.endIndex p.
Proof.
  apply (rows_are_all_needed Builtins.Date_parse Builtins.localeCompare
           1704110400000
           [experiment "A" "2024-01-03" "2024-01-10";
            experiment "B" "2024-01-05" "2024-01-08"] [] (js "2024-01-01")).
  - vm_compute. repeat constructor. discriminate.
  - discriminate.
Defined.

(** The lanes are counted like the rows.  [releaseLanes] is at least 1
    and at most the number of releases (1 without any); every placed
    release has its lane among the counted ones; with at least one release
    every counted lane holds one; without releases nothing is placed. *)
Theorem lanes_are_counted
    (Date_parse : jsstring -> Z) (localeCompare : jsstring -> jsstring -> Z)
    (now : Z) (experiments : list ExperimentItem.t)
    (releases : list ReleaseItem.t) (windowStartIso : jsstring) :
  let L := layoutTimeline Date_parse localeCompare now experiments releases
                          windowStartIso in
  let placed := TimelineLayout.positionedReleases L in
  1 <= TimelineLayout.releaseLanes L <= Z.max 1 (Z.of_nat (length releases))
  /\ (forall (k : nat) (p : PositionedRelease.t),
        placed !! k = Some p ->
        0 <= PositionedRelease.lane p < TimelineLayout.releaseLanes L)
  /\ (releases <> [] ->
      forall l : Z, 0 <= l < TimelineLayout.releaseLanes L ->
        exists (k : nat) (p : PositionedRelease.t),
          placed !! k = Some p /\ PositionedRelease.lane p = l)
  /\ (releases = [] -> placed = [] /\ TimelineLayout.releaseLanes L = 1).
Proof.
  intros L placed.
  destruct (layout_lanes Date_parse localeCompare now experiments releases
              windowStartIso)
    as (occ & (Hends & _ & (lastOf & Hlen & Hlast) & Hcount) & _ & Hlanes & Hsize).
  fold L in Hends, Hlast, Hcount, Hlanes, Hsize.
  fold placed in Hends, Hlast, Hcount, Hsize.
  split; [lia|]. split; [|split].
  - intros k p Hk. destruct (Hends k p Hk) as (_ & Hr0 & o & Ho & _).
    apply lookup_lt_Some in Ho. lia.
  - intros Hne l Hl.
    assert (Hsome : (0 < length occ)%nat).
    { destruct placed as [|p0 rest] eqn:Hp.
      - destruct releases; [done|simpl in Hsize; lia].
      - destruct (Hends 0%nat p0 eq_refl) as (_ & _ & o & Ho & _).
        apply lookup_lt_Some in Ho. lia. }
    assert (Hin : (Z.to_nat l < length lastOf)%nat) by lia.
    destruct (lookup_lt_is_Some_2 lastOf _ Hin) as [k Hk].
    destruct (Hlast _ k Hk) as (p & Hp & Hslot & _).
    exists k, p. split; [exact Hp|lia].
  - intros ->. simpl in Hsize. split; [apply nil_length_inv, Hsize|].
    simpl in Hcount. rewrite Hsize in Hcount. lia.
Qed.

(** The labels of a lane keep the gutter.  A label reaches from the anchor
    of its release over 92 to 240 pixels, and of two releases in one lane
    the one placed later has its anchor more than 12 pixels behind the
    label end of the other. *)
Theorem lane_labels_are_apart
    (Date_parse : jsstring -> Z) (localeCompare : jsstring -> jsstring -> Z)
    (now : Z) (experiments : list ExperimentItem.t)
    (releases : list ReleaseItem.t) (windowStartIso : jsstring) :
  let L := layoutTimeline Date_parse localeCompare now experiments releases
                          windowStartIso in
  let placed := TimelineLayout.positionedReleases L in
  (forall (k : nat) (p : PositionedRelease.t),
      placed !! k = Some p ->
      0 <= PositionedRelease.dayIndex p
      /\ Page.releaseX p + 92 <= PositionedRelease.labelEnd p
         <= Page.releaseX p + 240)
  /\ (forall (i j : nat) (a b : PositionedRelease.t),
        placed !! i = Some a -> placed !! j = Some b -> (i < j)%nat ->
        PositionedRelease.lane a = PositionedRelease.lane b ->
        Page.releaseX b > PositionedRelease.labelEnd a + 12).
Proof.
  intros L placed.
  destruct (layout_lanes Date_parse localeCompare now experiments releases
              windowStartIso) as (occ & (_ & Hapart & _ & _) & _).
  fold L in Hapart. fold placed in Hapart.
  destruct (layoutTimeline_releases Date_parse localeCompare now experiments
              releases windowStartIso) as (Hplaced & _ & _).
  cbv zeta in Hplaced. fold L in Hplaced. fold placed in Hplaced.
  split; [|exact Hapart].
  intros k p Hk. rewrite Hplaced in Hk.
  apply (mapWithState_invariant _
           (fun done _ => forall k p, done !! k = Some p ->
              0 <= PositionedRelease.dayIndex p
              /\ Page.releaseX p + 92 <= PositionedRelease.labelEnd p
                 <= Page.releaseX p + 240))
    with (k := k) (p := p) in Hk; [exact Hk|done|].
  intros done st x Hdone k' p' Hk'.
  apply lookup_app_Some in Hk' as [Hk'|[_ Hk']]; [exact (Hdone k' p' Hk')|].
  apply list_lookup_singleton_Some in Hk' as [_ <-].
  destruct (placeRelease_step Date_parse (TimelineLayout.startDate L) st x)
    as (_ & Hday & Hend & _).
  cbv zeta in Hday, Hend.
  pose proof (labelWidthOf_bounds (compactReleaseLabel (ReleaseItem.name x))).
  unfold Page.releaseX. unfold anchorX in Hend. lia.
Qed.

(** With the releases placed in the order of their day index, no layout
    gets by with fewer lanes: as many labels as there are lanes are within
    the gutter of one coordinate, and every assignment of lanes that keeps
    the gutter behind each label uses that many lanes. *)
Theorem lanes_are_all_needed
    (Date_parse : jsstring -> Z) (localeCompare : jsstring -> jsstring -> Z)
    (now : Z) (experiments : list ExperimentItem.t)
    (releases : list ReleaseItem.t) (windowStartIso : jsstring) :
  let L := layoutTimeline Date_parse localeCompare now experiments releases
                          windowStartIso in
  let placed := TimelineLayout.positionedReleases L in
  Sorted Z.le (map PositionedRelease.dayIndex placed) ->
  releases <> [] ->
  (exists (x : Z) (ks : list nat),
      NoDup ks /\ Z.of_nat (length ks) = TimelineLayout.releaseLanes L
      /\ forall k : nat, k ∈ ks ->
           exists p, placed !! k = Some p
                     /\ Page.releaseX p <= x <= PositionedRelease.labelEnd p + 12)
  /\ forall assign : nat -> Z,
      (forall (i j : nat) (a b : PositionedRelease.t),
          placed !! i = Some a -> placed !! j = Some b -> (i < j)%nat ->
          assign i = assign j ->
          Page.releaseX b > PositionedRelease.labelEnd a + 12) ->
      exists used : list Z,
        NoDup used /\ Z.of_nat (length used) = TimelineLayout.releaseLanes L
        /\ forall l : Z, l ∈ used ->
             exists (k : nat) (p : PositionedRelease.t),
               placed !! k = Some p /\ assign k = l.
Proof.
  intros L placed Hsorted Hne.
  destruct (layout_lanes Date_parse localeCompare now experiments releases
              windowStartIso)
    as (occ & (Hends & _ & _ & _) & Hbusy & Hlanes & Hsize).
  fold L in Hends, Hbusy, Hlanes, Hsize. fold placed in Hends, Hbusy, Hsize.
  assert (Hasc : startsAscend (fun p => anchorX (PositionedRelease.dayIndex p)) placed).
  { apply Sorted_startsAscend in Hsorted. intros i j a b Hi Hj Hij.
    specialize (Hsorted i j a b Hi Hj Hij). unfold anchorX, DAY_WIDTH. lia. }
  specialize (Hbusy Hasc).
  assert (Hsome : (0 < length occ)%nat).
  { destruct placed as [|p0 rest] eqn:Hp.
    - destruct releases; [done|simpl in Hsize; lia].
    - destruct (Hends 0%nat p0 eq_refl) as (_ & _ & o & Ho & _).
      apply lookup_lt_Some in Ho. lia. }
  split.
  - destruct Hbusy as (d & ks & Hnodup & Hlen & Hks). exists d, ks.
    split; [exact Hnodup|]. split; [lia|].
    intros k Hk. destruct (Hks k Hk) as (p & Hp & Hd). exists p.
    split; [exact Hp|exact Hd].
  - intros assign Hassign.
    destruct (busyTogether_needs_slots _ _ _ placed _ Hbusy assign Hassign)
      as (used & Hnodup & Hlen & Hused).
    exists used. split; [exact Hnodup|]. split; [lia|exact Hused].
Qed.

Lemma lanes_are_all_needed_witness :
  exists (x : Z) (ks : list nat),
    NoDup ks
    /\ Z.of_nat (length ks)
       = TimelineLayout.releaseLanes
           (layoutTimeline Builtins.Date_parse Builtins.localeCompare 1704110400000 []
              [release "iOS 2.3.1" "2024-01-03"; release "Android 2.4" "2024-01-04"]
              (js "2024-01-01"))
    /\ forall k : nat, k ∈ ks ->
         exists p,
           TimelineLayout.positionedReleases
             (layoutTimeline Builtins.Date_parse Builtins.localeCompare 1704110400000 []
                [release "iOS 2.3.1" "2024-01-03"; release "Android 2.4" "2024-01-04"]
                (js "2024-01-01"))
           !! k = Some p
           /\ Page.releaseX p <= x <= PositionedRelease.labelEnd p + 12.
Proof.
  apply (lanes_are_all_needed Builtins.Date_parse Builtins.localeCompare
           1704110400000 []
           [release "iOS 2.3.1" "2024-01-03"; release "Android 2.4" "2024-01-04"]
           (js "2024-01-01")).
  - vm_compute. repeat constructor. discriminate.
  - discriminate.
Defined.

(* ===================================================================== *)
(** * The layout inside its window *)
(* ===================================================================== *)

Section InsideWindow.
Variable Date_parse : jsstring -> Z.
Variable localeCompare : jsstring -> jsstring -> Z.
Variables (now : Z) (experiments : list ExperimentItem.t)
          (releases : list ReleaseItem.t) (windowStartIso : jsstring).

Let L := layoutTimeline Date_parse localeCompare now experiments releases
                        windowStartIso.

Lemma layout_endDate_bounds :
  startOfUtcDay now <= TimelineLayout.endDate L
  /\ (forall e, e ∈ experiments ->
        utcDate Date_parse (ExperimentItem.endDate e) <= TimelineLayout.endDate L)
  /\ (forall r, r ∈ releases ->
        utcDate Date_parse (ReleaseItem.date r) <= TimelineLayout.endDate L).
Proof.
  destruct (layoutTimeline_dates Date_parse localeCompare now experiments
              releases windowStartIso) as (_ & Hend & _).
  fold L in Hend. rewrite latest_is_runningMax in Hend. rewrite Hend.
  set (dates := _ ++ _).
  destruct (runningMax_bounds (startOfUtcDay now) dates) as (Hinit & Hall & _).
  split; [exact Hinit|].
  assert (Hin : forall d, d ∈ dates -> d <= runningMax (startOfUtcDay now) dates).
  { intros d [k Hk]%list_elem_of_lookup. exact (Hall k d Hk). }
  split.
  - intros e He. apply Hin. subst dates. apply elem_of_app. left.
    apply list_elem_of_In.
    apply (in_map (fun exp => utcDate Date_parse (ExperimentItem.endDate exp))).
    apply list_elem_of_In, He.
  - intros r Hr. apply Hin. subst dates. apply elem_of_app. right.
    apply list_elem_of_In.
    apply (in_map (fun rel => utcDate Date_parse (ReleaseItem.date rel))).
    apply list_elem_of_In, Hr.
Qed.

Lemma positionedExperiments_fields (k : nat) (p : PositionedExperiment.t) :
  TimelineLayout.positionedExperiments L !! k = Some p ->
  PositionedExperiment.item p ∈ experiments
  /\ PositionedExperiment.startIndex p
     = Z.max 0 (diffDays (TimelineLayout.startDate L)
                  (utcDate Date_parse
                     (ExperimentItem.startDate (PositionedExperiment.item p))))
  /\ PositionedExperiment.endIndex p
     = Z.max (PositionedExperiment.startIndex p)
             (diffDays (TimelineLayout.startDate L)
                (utcDate Date_parse
                   (ExperimentItem.endDate (PositionedExperiment.item p)))).
Proof.
  intros Hk.
  destruct (layoutTimeline_experiments Date_parse localeCompare now experiments
              releases windowStartIso) as [Hplaced _].
  cbv zeta in Hplaced. fold L in Hplaced. rewrite Hplaced in Hk.
  set (f := placeExperiment Date_parse (TimelineLayout.startDate L)) in *.
  set (sorted := sort (byStartDate localeCompare) experiments) in *.
  assert (Hlen : (k < length sorted)%nat).
  { apply lookup_lt_Some in Hk. rewrite mapWithState_length in Hk. exact Hk. }
  destruct (lookup_lt_is_Some_2 sorted k Hlen) as [x Hx].
  destruct (mapWithState_lookup f [] sorted k x Hx) as [Hout _].
  rewrite Hout in Hk. injection Hk as <-.
  destruct (placeExperiment_step Date_parse (TimelineLayout.startDate L)
              (mapWithState f [] (take k sorted)).2 x) as (Hitem & Hs & He & _).
  cbv zeta in Hitem, Hs, He. fold f in Hitem, Hs, He.
  rewrite Hitem. split; [|split; [exact Hs|exact He]].
  rewrite <- (sort_Permutation (byStartDate localeCompare) experiments).
  apply list_elem_of_lookup. eauto.
Qed.

Lemma positionedReleases_fields (k : nat) (p : PositionedRelease.t) :
  TimelineLayout.positionedReleases L !! k = Some p ->
  PositionedRelease.item p ∈ releases
  /\ PositionedRelease.dayIndex p
     = Z.max 0 (diffDays (TimelineLayout.startDate L)
                  (utcDate Date_parse
                     (ReleaseItem.date (PositionedRelease.item p)))).
Proof.
  intros Hk.
  destruct (layoutTimeline_releases Date_parse localeCompare now experiments
              releases windowStartIso) as (Hplaced & _).
  cbv zeta in Hplaced. fold L in Hplaced. rewrite Hplaced in Hk.
  set (f := placeRelease Date_parse (TimelineLayout.startDate L)) in *.
  set (init := (([] : list Z), TimelineLayout.totalDays L * DAY_WIDTH)) in *.
  set (sorted := sort (byDate localeCompare) releases) in *.
  assert (Hlen : (k < length sorted)%nat).
  { apply lookup_lt_Some in Hk. rewrite mapWithState_length in Hk. exact Hk. }
  destruct (lookup_lt_is_Some_2 sorted k Hlen) as [x Hx].
  destruct (mapWithState_lookup f init sorted k x Hx) as [Hout _].
  rewrite Hout in Hk. injection Hk as <-.
  destruct (placeRelease_step Date_parse (TimelineLayout.startDate L)
              (mapWithState f init (take k sorted)).2 x) as (Hitem & Hday & _).
  cbv zeta in Hitem, Hday. fold f in Hitem, Hday.
  rewrite Hitem. split; [|exact Hday].
  rewrite <- (sort_Permutation (byDate localeCompare) releases).
  apply list_elem_of_lookup. eauto.
Qed.

Lemma layout_totalDays :
  TimelineLayout.totalDays L
  = Z.max 1 (diffDays (TimelineLayout.startDate L) (TimelineLayout.endDate L) + 1).
Proof.
  apply (layoutTimeline_dates Date_parse localeCompare now experiments releases
           windowStartIso).
Qed.

Lemma layout_canvas_covers_days :
  TimelineLayout.totalDays L * DAY_WIDTH <= TimelineLayout.canvasWidth L.
Proof.
  destruct (layoutTimeline_releases Date_parse localeCompare now experiments
              releases windowStartIso) as (_ & _ & Hwidth).
  cbv zeta in Hwidth. fold L in Hwidth. lia.
Qed.

End InsideWindow.

(** Every release lies in the window: its day index is one of the
    [totalDays] day columns, so its anchor is on the canvas, whatever the
    dates are. *)
Theorem releases_lie_in_window
    (Date_parse : jsstring -> Z) (localeCompare : jsstring -> jsstring -> Z)
    (now : Z) (experiments : list ExperimentItem.t)
    (releases : list ReleaseItem.t) (windowStartIso : jsstring) :
  let L := layoutTimeline Date_parse localeCompare now experiments releases
                          windowStartIso in
  forall (k : nat) (p : PositionedRelease.t),
    TimelineLayout.positionedReleases L !! k = Some p ->
    0 <= PositionedRelease.dayIndex p < TimelineLayout.totalDays L
    /\ 0 < Page.releaseX p < TimelineLayout.totalDays L * DAY_WIDTH
    /\ Page.releaseX p < TimelineLayout.canvasWidth L.
Proof.
  intros L k p Hk.
  destruct (positionedReleases_fields Date_parse localeCompare now experiments
              releases windowStartIso k p Hk) as [Hin Hday].
  destruct (layout_endDate_bounds Date_parse localeCompare now experiments
              releases windowStartIso) as (_ & _ & Hrel).
  pose proof (layout_totalDays Date_parse localeCompare now experiments
                releases windowStartIso) as Htotal.
  pose proof (layout_canvas_covers_days Date_parse localeCompare now experiments
                releases windowStartIso) as Hcanvas.
  fold L in Hday, Hrel, Htotal, Hcanvas.
  pose proof (diffDays_mono_end (TimelineLayout.startDate L) _ _
                (Hrel _ Hin)) as Hmono.
  unfold Page.releaseX, DAY_WIDTH in *. change (34 / 2) with 17. lia.
Qed.

(** An experiment that does not start after its end lies in the window:
    its day indexes are among the [totalDays] day columns.  Its bar starts
    2 pixels inside its first day column and ends at most 2 pixels behind
    its last one. *)
Theorem experiments_lie_in_window
    (Date_parse : jsstring -> Z) (localeCompare : jsstring -> jsstring -> Z)
    (now : Z) (experiments : list ExperimentItem.t)
    (releases : list ReleaseItem.t) (windowStartIso : jsstring) :
  let L := layoutTimeline Date_parse localeCompare now experiments releases
                          windowStartIso in
  Forall (fun e => utcDate Date_parse (ExperimentItem.startDate e)
                   <= utcDate Date_parse (ExperimentItem.endDate e))
         experiments ->
  forall (k : nat) (p : PositionedExperiment.t),
    TimelineLayout.positionedExperiments L !! k = Some p ->
    0 <= PositionedExperiment.startIndex p <= PositionedExperiment.endIndex p
    /\ PositionedExperiment.endIndex p < TimelineLayout.totalDays L
    /\ PositionedExperiment.startIndex p * DAY_WIDTH < Page.barLeft p
    /\ Page.barLeft p + Page.barWidth p
       <= (PositionedExperiment.endIndex p + 1) * DAY_WIDTH + 2
       <= TimelineLayout.canvasWidth L + 2.
Proof.
  intros L Hranges k p Hk.
  destruct (positionedExperiments_fields Date_parse localeCompare now experiments
              releases windowStartIso k p Hk) as (Hin & Hs & He).
  destruct (layout_endDate_bounds Date_parse localeCompare now experiments
              releases windowStartIso) as (_ & Hexp & _).
  pose proof (layout_totalDays Date_parse localeCompare now experiments
                releases windowStartIso) as Htotal.
  pose proof (layout_canvas_covers_days Date_parse localeCompare now experiments
                releases windowStartIso) as Hcanvas.
  fold L in Hs, He, Hexp, Htotal, Hcanvas.
  rewrite Forall_forall in Hranges. specialize (Hranges _ Hin).
  specialize (Hexp _ Hin).
  pose proof (diffDays_mono_end (TimelineLayout.startDate L) _ _ Hexp) as Hmono.
  pose proof (diffDays_mono_end (TimelineLayout.startDate L) _ _ Hranges) as Hmono'.
  unfold Page.barLeft, Page.barWidth, DAY_WIDTH in *. lia.
Qed.

Lemma releases_lie_in_window_witness :
  let L := layoutTimeline Builtins.Date_parse Builtins.localeCompare 1704110400000 []
             [release "iOS 2.3.1" "2024-01-03"] (js "2024-01-01") in
  exists p : PositionedRelease.t,
    TimelineLayout.positionedReleases L !! 0%nat = Some p
    /\ 0 <= PositionedRelease.dayIndex p < TimelineLayout.totalDays L.
Proof.
  intros L.
  exists (PositionedRelease.mk (release "iOS 2.3.1" "2024-01-03") 0 2 192).
  assert (Hp : TimelineLayout.positionedReleases L !! 0%nat
               = Some (PositionedRelease.mk (release "iOS 2.3.1" "2024-01-03") 0 2 192))
    by (vm_compute; reflexivity).
  split; [exact Hp|].
  exact (proj1 (releases_lie_in_window Builtins.Date_parse Builtins.localeCompare
                  1704110400000 [] [release "iOS 2.3.1" "2024-01-03"]
                  (js "2024-01-01") 0%nat _ Hp)).
Defined.

Lemma experiments_lie_in_window_witness :
  let L := layoutTimeline Builtins.Date_parse Builtins.localeCompare 1704110400000
             [experiment "A" "2024-01-03" "2024-01-10"] [] (js "2024-01-01") in
  exists p : PositionedExperiment.t,
    TimelineLayout.positionedExperiments L !! 0%nat = Some p
    /\ 0 <= PositionedExperiment.startIndex p <= PositionedExperiment.endIndex p
    /\ PositionedExperiment.endIndex p < TimelineLayout.totalDays L.
Proof.
  intros L.
  exists (PositionedExperiment.mk (experiment "A" "2024-01-03" "2024-01-10") 0 2 9).
  assert (Hp : TimelineLayout.positionedExperiments L !! 0%nat
               = Some (PositionedExperiment.mk
                         (experiment "A" "2024-01-03" "2024-01-10") 0 2 9))
    by (vm_compute; reflexivity).
  assert (Hdates :
            Forall (fun e => utcDate Builtins.Date_parse (ExperimentItem.startDate e)
                             <= utcDate Builtins.Date_parse (ExperimentItem.endDate e))
                   [experiment "A" "2024-01-03" "2024-01-10"])
    by (repeat constructor; vm_compute; discriminate).
  split; [exact Hp|].
  pose proof (experiments_lie_in_window Builtins.Date_parse Builtins.localeCompare
                1704110400000 [experiment "A" "2024-01-03" "2024-01-10"] []
                (js "2024-01-01") Hdates 0%nat _ Hp) as (Hidx & Hend & _).
  split; [exact Hidx|exact Hend].
Defined.

(** The today line is drawn exactly when today is not before the window
    start, in whole days; so it is drawn whenever the window starts today
    or earlier, and then it stands on a day column of the canvas.  (The
    page reads the clock again; this is for a reading on the UTC day the
    layout was made for.) *)
Theorem today_line_is_drawn
    (Date_parse : jsstring -> Z) (localeCompare : jsstring -> jsstring -> Z)
    (now now' : Z) (experiments : list ExperimentItem.t)
    (releases : list ReleaseItem.t) (windowStartIso : jsstring) :
  let L := layoutTimeline Date_parse localeCompare now experiments releases
                          windowStartIso in
  startOfUtcDay now' = startOfUtcDay now ->
  (Page.hasToday L now' = true <-> 0 <= Page.todayIndex L now')
  /\ (TimelineLayout.startDate L <= startOfUtcDay now' ->
      Page.hasToday L now' = true)
  /\ (Page.hasToday L now' = true ->
      0 < Page.todayIndex L now' * DAY_WIDTH + DAY_WIDTH / 2
        < TimelineLayout.canvasWidth L).
Proof.
  intros L Hday.
  destruct (layout_endDate_bounds Date_parse localeCompare now experiments
              releases windowStartIso) as (Htoday & _ & _).
  pose proof (layout_totalDays Date_parse localeCompare now experiments
                releases windowStartIso) as Htotal.
  pose proof (layout_canvas_covers_days Date_parse localeCompare now experiments
                releases windowStartIso) as Hcanvas.
  fold L in Htoday, Htotal, Hcanvas.
  pose proof (diffDays_mono_end (TimelineLayout.startDate L) _ _ Htoday) as Hmono.
  unfold Page.hasToday, Page.todayIndex. rewrite Hday.
  set (idx := diffDays (TimelineLayout.startDate L) (startOfUtcDay now)) in *.
  assert (Hiff : (idx >=? 0) && (idx <? TimelineLayout.totalDays L) = true
                 <-> 0 <= idx).
  { rewrite andb_true_iff, Z.geb_le, Z.ltb_lt. lia. }
  split; [exact Hiff|]. split.
  - intros Hstart. apply Hiff.
    apply (roundDiv_days_nonneg (startOfUtcDay now - TimelineLayout.startDate L)).
    lia.
  - intros Hhas. apply Hiff in Hhas.
    unfold DAY_WIDTH in *. change (34 / 2) with 17. lia.
Qed.

Lemma today_line_is_drawn_witness :
  Page.hasToday
    (layoutTimeline Builtins.Date_parse Builtins.localeCompare 1704110400000
       [] [] (js "2023-12-25"))
    1704120000000 = true.
Proof.
  apply (today_line_is_drawn Builtins.Date_parse Builtins.localeCompare
           1704110400000 1704120000000 [] [] (js "2023-12-25"));
    vm_compute; [reflexivity|discriminate].
Defined.

(** The day columns of the page are the [totalDays] consecutive days from
    the window start: column [i] is [i] days after it.  When the window
    end is a whole number of days after the start, the last column is the
    window end. *)
Theorem days_span_the_window
    (Date_parse : jsstring -> Z) (localeCompare : jsstring -> jsstring -> Z)
    (now : Z) (experiments : list ExperimentItem.t)
    (releases : list ReleaseItem.t) (windowStartIso : jsstring) :
  let L := layoutTimeline Date_parse localeCompare now experiments releases
                          windowStartIso in
  Z.of_nat (length (Page.days L)) = TimelineLayout.totalDays L
  /\ (forall (i : nat) (day : Z),
        Page.days L !! i = Some day ->
        day = addUtcDays (TimelineLayout.startDate L) (Z.of_nat i)
        /\ diffDays (TimelineLayout.startDate L) day = Z.of_nat i)
  /\ Page.days L !! 0%nat = Some (TimelineLayout.startDate L)
  /\ (TimelineLayout.startDate L <= TimelineLayout.endDate L ->
      (MS_PER_DAY | TimelineLayout.endDate L - TimelineLayout.startDate L) ->
      Page.days L !! Z.to_nat (TimelineLayout.totalDays L - 1)
      = Some (TimelineLayout.endDate L)).
Proof.
  intros L.
  pose proof (layout_totalDays Date_parse localeCompare now experiments
                releases windowStartIso) as Htotal.
  fold L in Htotal.
  assert (Hlookup : forall (i : nat),
            (i < Z.to_nat (TimelineLayout.totalDays L))%nat ->
            Page.days L !! i
            = Some (addUtcDays (TimelineLayout.startDate L) (Z.of_nat i))).
  { intros i Hi. unfold Page.days.
    rewrite (list_lookup_fmap
               (fun idx => addUtcDays (TimelineLayout.startDate L) (Z.of_nat idx))).
    rewrite lookup_seq_lt by exact Hi. reflexivity. }
  split; [|split; [|split]].
  - unfold Page.days. rewrite length_map, length_seq. lia.
  - intros i day Hi.
    assert (Hlt : (i < Z.to_nat (TimelineLayout.totalDays L))%nat).
    { apply lookup_lt_Some in Hi. unfold Page.days in Hi.
      rewrite length_map, length_seq in Hi. exact Hi. }
    rewrite (Hlookup i Hlt) in Hi. injection Hi as <-. split; [reflexivity|].
    unfold diffDays. rewrite addUtcDays_ms.
    replace (TimelineLayout.startDate L + Z.of_nat i * MS_PER_DAY
             - TimelineLayout.startDate L)
      with (0 + Z.of_nat i * MS_PER_DAY) by lia.
    rewrite roundDiv_days_shift. reflexivity.
  - rewrite (Hlookup 0%nat) by lia. f_equal. unfold addUtcDays. simpl. lia.
  - intros Hle [q Hq].
    assert (Hdiff : diffDays (TimelineLayout.startDate L) (TimelineLayout.endDate L) = q).
    { unfold diffDays. rewrite Hq.
      replace (q * MS_PER_DAY) with (0 + q * MS_PER_DAY) by lia.
      rewrite roundDiv_days_shift. reflexivity. }
    rewrite Hdiff in Htotal.
    rewrite Hlookup by lia. f_equal.
    rewrite addUtcDays_ms. rewrite MS_PER_DAY_value in *. lia.
Qed.

Lemma days_span_the_window_witness :
  let L := layoutTimeline Builtins.Date_parse Builtins.localeCompare 1704110400000
             [experiment "A" "2024-01-03" "2024-01-10"] [] (js "2024-01-01") in
  Page.days L !! Z.to_nat (TimelineLayout.totalDays L - 1)
  = Some (TimelineLayout.endDate L).
Proof.
  apply (days_span_the_window Builtins.Date_parse Builtins.localeCompare
           1704110400000 [experiment "A" "2024-01-03" "2024-01-10"] []
           (js "2024-01-01")).
  - vm_compute. discriminate.
  - exists 9. vm_compute. reflexivity.
Defined.

(* ===================================================================== *)
(** * The layout on the page: bars and bands *)
(* ===================================================================== *)

(** No two experiment bars overlap on the page.  Two bars of one row are
    side by side, the later one starting at or behind the right edge of
    the other; two bars of different rows are one above the other. *)
Theorem bars_do_not_overlap
    (Date_parse : jsstring -> Z) (localeCompare : jsstring -> jsstring -> Z)
    (now : Z) (experiments : list ExperimentItem.t)
    (releases : list ReleaseItem.t) (windowStartIso : jsstring) :
  let L := layoutTimeline Date_parse localeCompare now experiments releases
                          windowStartIso in
  let top := Page.barTop (BandLayout.experimentBandTop (getBandLayout L)) in
  forall (i j : nat) (a b : PositionedExperiment.t),
    TimelineLayout.positionedExperiments L !! i = Some a ->
    TimelineLayout.positionedExperiments L !! j = Some b ->
    (i < j)%nat ->
    (PositionedExperiment.row a = PositionedExperiment.row b ->
     Page.barLeft a + Page.barWidth a <= Page.barLeft b)
    /\ (PositionedExperiment.row a <> PositionedExperiment.row b ->
        top a + EXPERIMENT_BAR_HEIGHT <= top b
        \/ top b + EXPERIMENT_BAR_HEIGHT <= top a).
Proof.
  intros L top i j a b Hi Hj Hij.
  destruct (layout_rows Date_parse localeCompare now experiments releases
              windowStartIso) as (rowEnds & (Hends & Hapart & _ & _) & _).
  fold L in Hends, Hapart.
  destruct (Hends i a Hi) as (Ha & _). destruct (Hends j b Hj) as (Hb & _).
  split.
  - intros Hsame. specialize (Hapart i j a b Hi Hj Hij Hsame).
    unfold Page.barLeft, Page.barWidth, DAY_WIDTH. lia.
  - intros Hdiff. subst top.
    unfold Page.barTop, EXPERIMENT_ROW_HEIGHT, EXPERIMENT_BAR_HEIGHT. lia.
Qed.

Lemma bars_do_not_overlap_witness :
  Page.barLeft (PositionedExperiment.mk (experiment "A" "2024-01-03" "2024-01-04") 0 2 3)
  + Page.barWidth (PositionedExperiment.mk (experiment "A" "2024-01-03" "2024-01-04") 0 2 3)
  <= Page.barLeft (PositionedExperiment.mk (experiment "B" "2024-01-05" "2024-01-08") 0 4 7).
Proof.
  apply (bars_do_not_overlap Builtins.Date_parse Builtins.localeCompare
           1704110400000
           [experiment "A" "2024-01-03" "2024-01-04";
            experiment "B" "2024-01-05" "2024-01-08"] [] (js "2024-01-01")
           0%nat 1%nat); try reflexivity. lia.
Defined.

(** The bands hold what is drawn in them.  Every bar lies inside the
    experiment band, every release row inside the release band; the
    release band begins below the experiment band and ends above the
    bottom of the body. *)
Theorem bands_hold_their_items
    (Date_parse : jsstring -> Z) (localeCompare : jsstring -> jsstring -> Z)
    (now : Z) (experiments : list ExperimentItem.t)
    (releases : list ReleaseItem.t) (windowStartIso : jsstring) :
  let L := layoutTimeline Date_parse localeCompare now experiments releases
                          windowStartIso in
  let band := getBandLayout L in
  (forall (k : nat) (p : PositionedExperiment.t),
      TimelineLayout.positionedExperiments L !! k = Some p ->
      BandLayout.experimentBandTop band
      <= Page.barTop (BandLayout.experimentBandTop band) p
      /\ Page.barTop (BandLayout.experimentBandTop band) p + EXPERIMENT_BAR_HEIGHT
         <= BandLayout.experimentBandTop band + BandLayout.experimentBandHeight band)
  /\ (forall (k : nat) (p : PositionedRelease.t),
        TimelineLayout.positionedReleases L !! k = Some p ->
        BandLayout.releaseBandTop band
        <= Page.releaseY (BandLayout.releaseBandTop band) p
        /\ Page.releaseY (BandLayout.releaseBandTop band) p + RELEASE_LANE_HEIGHT
           <= BandLayout.releaseBandTop band + BandLayout.releaseBandHeight band)
  /\ 0 < BandLayout.experimentBandTop band
  /\ BandLayout.experimentBandTop band + BandLayout.experimentBandHeight band
     < BandLayout.releaseBandTop band
  /\ BandLayout.releaseBandTop band + BandLayout.releaseBandHeight band
     < BandLayout.bodyHeight band.
Proof.
  intros L band.
  destruct (layout_rows Date_parse localeCompare now experiments releases
              windowStartIso) as (rowEnds & (Hrow & _) & _ & Hrows & _).
  destruct (layout_lanes Date_parse localeCompare now experiments releases
              windowStartIso) as (occ & (Hlane & _) & _ & Hlanes & _).
  fold L in Hrow, Hrows, Hlane, Hlanes.
  subst band. unfold getBandLayout. cbn [BandLayout.experimentBandTop
    BandLayout.experimentBandHeight BandLayout.releaseBandTop
    BandLayout.releaseBandHeight BandLayout.bodyHeight].
  unfold Page.barTop, Page.releaseY, EXPERIMENT_BAND_TOP, EXPERIMENT_ROW_HEIGHT,
    EXPERIMENT_BAR_HEIGHT, RELEASE_BAND_GAP, RELEASE_LANE_HEIGHT,
    RELEASE_BAND_EXTRA_HEIGHT, BODY_BOTTOM_PADDING.
  split; [|split; [|lia]].
  - intros k p Hk. destruct (Hrow k p Hk) as (_ & Hr0 & o & Ho & _).
    apply lookup_lt_Some in Ho. lia.
  - intros k p Hk. destruct (Hlane k p Hk) as (_ & Hl0 & o & Ho & _).
    apply lookup_lt_Some in Ho. lia.
Qed.

(* ===================================================================== *)
(** * Release labels: what the pattern captures *)
(* ===================================================================== *)

Section MatcherSoundness.
Context {R : Type}.

Lemma orElse_Some (a b : option R) (r : R) :
  RegExp.orElse a b = Some r -> a = Some r \/ b = Some r.
Proof. destruct a; simpl; intros H; [left|right]; exact H. Qed.

Lemma lazyPlus_sound (p : N -> bool) (s : jsstring)
    (k : jsstring -> jsstring -> option R) (r : R) :
  RegExp.lazyPlus p s k = Some r ->
  exists g rest, s = g ++ rest /\ g <> [] /\ forallb p g = true /\ k g rest = Some r.
Proof.
  revert k. induction s as [|c s IH]; intros k; simpl; [discriminate|].
  destruct (p c) eqn:Hc; [|discriminate].
  intros [H|H]%orElse_Some.
  - exists [c], s. simpl. rewrite Hc. done.
  - destruct (IH _ H) as (g & rest & -> & _ & Hg & Hk).
    exists (c :: g), rest. simpl. rewrite Hc, Hg. done.
Qed.

Lemma greedyPlus_sound (p : N -> bool) (s : jsstring)
    (k : jsstring -> jsstring -> option R) (r : R) :
  RegExp.greedyPlus p s k = Some r ->
  exists g rest, s = g ++ rest /\ g <> [] /\ forallb p g = true /\ k g rest = Some r.
Proof.
  revert k. induction s as [|c s IH]; intros k; simpl; [discriminate|].
  destruct (p c) eqn:Hc; [|discriminate].
  intros [H|H]%orElse_Some.
  - destruct (IH _ H) as (g & rest & -> & _ & Hg & Hk).
    exists (c :: g), rest. simpl. rewrite Hc, Hg. done.
  - exists [c], s. simpl. rewrite Hc. done.
Qed.

Lemma greedyStar_sound (p : N -> bool) (s : jsstring)
    (k : jsstring -> jsstring -> option R) (r : R) :
  RegExp.greedyStar p s k = Some r ->
  exists g rest, s = g ++ rest /\ forallb p g = true /\ k g rest = Some r.
Proof.
  revert k. induction s as [|c s IH]; intros k; simpl.
  - intros H. exists [], []. done.
  - destruct (p c) eqn:Hc.
    + intros [H|H]%orElse_Some.
      * destruct (IH _ H) as (g & rest & -> & Hg & Hk).
        exists (c :: g), rest. simpl. rewrite Hc, Hg. done.
      * exists [], (c :: s). done.
    + intros H. exists [], (c :: s). done.
Qed.

End MatcherSoundness.

Lemma label_pattern_parts (label : jsstring) (m : RegExp.captures) :
  RegExp.execLabel label = Some m ->
  label = RegExp.group1 m ++ RegExp.group2 m ++ RegExp.group3 m
          ++ default [] (RegExp.group4 m)
  /\ (RegExp.group1 m <> [] /\ forallb RegExp.dot (RegExp.group1 m) = true)
  /\ (RegExp.group2 m <> [] /\ forallb RegExp.space (RegExp.group2 m) = true)
  /\ (RegExp.group3 m <> [] /\ forallb RegExp.digitOrDot (RegExp.group3 m) = true)
  /\ (forall g4, RegExp.group4 m = Some g4 ->
        exists h t, g4 = h :: t /\ RegExp.digitOrDot h = false
                    /\ forallb RegExp.dot t = true).
Proof.
  unfold RegExp.execLabel. intros H.
  apply lazyPlus_sound in H as (g1 & r1 & -> & Hg1 & Hd1 & H).
  apply greedyPlus_sound in H as (g2 & r2 & -> & Hg2 & Hd2 & H).
  apply greedyPlus_sound in H as (g3 & r3 & -> & Hg3 & Hd3 & H).
  unfold RegExp.optional in H. apply orElse_Some in H as [H|H].
  - unfold RegExp.one in H. destruct r3 as [|h t]; [discriminate|].
    destruct (RegExp.notDigitOrDot h) eqn:Hh; [|discriminate].
    apply greedyStar_sound in H as (g & rest & -> & Hg & H).
    destruct rest; [|discriminate]. injection H as <-. simpl.
    rewrite app_nil_r. repeat split; try done.
    intros g4 [= <-]. exists h, g. split; [reflexivity|].
    unfold RegExp.notDigitOrDot in Hh. apply negb_true_iff in Hh. done.
  - destruct r3; [|discriminate]. injection H as <-. simpl.
    repeat split; try done.
Qed.

(** A match of the label pattern takes the label apart: the four captures
    in a row are the whole label; the first is a non-empty run without a
    line break, the second a non-empty run of white space, the third a
    non-empty run of digits and dots, and the fourth, when there is one,
    begins with a character that is neither. *)
Theorem label_pattern_takes_label_apart (label : jsstring) (m : RegExp.captures) :
  RegExp.execLabel label = Some m ->
  label = RegExp.group1 m ++ RegExp.group2 m ++ RegExp.group3 m
          ++ default [] (RegExp.group4 m)
  /\ (RegExp.group1 m <> [] /\ forallb RegExp.dot (RegExp.group1 m) = true)
  /\ (RegExp.group2 m <> [] /\ forallb RegExp.space (RegExp.group2 m) = true)
  /\ (RegExp.group3 m <> [] /\ forallb RegExp.digitOrDot (RegExp.group3 m) = true)
  /\ (forall g4, RegExp.group4 m = Some g4 ->
        exists h t, g4 = h :: t /\ RegExp.digitOrDot h = false
                    /\ forallb RegExp.dot t = true).
Proof. apply label_pattern_parts. Qed.

Lemma label_pattern_takes_label_apart_witness :
  js "iOS 2.3.1 beta"
  = js "iOS" ++ js " " ++ js "2.3.1" ++ default [] (Some (js " beta")).
Proof.
  apply (label_pattern_takes_label_apart (js "iOS 2.3.1 beta")
           (RegExp.Captures (js "iOS") (js " ") (js "2.3.1") (Some (js " beta")))).
  vm_compute. reflexivity.
Defined.

Section ReplaceFacts.

Lemma startsWith_length (s pat : jsstring) :
  startsWith s pat = true -> (length pat <= length s)%nat.
Proof.
  revert s. induction pat as [|p pat IH]; intros s.
  - intros _. simpl. lia.
  - destruct s as [|c s]; simpl; [discriminate|].
    intros [_ H]%andb_prop. specialize (IH s H). lia.
Qed.

Lemma replace_length (s pat rep : jsstring) :
  (length rep <= length pat)%nat ->
  (length (replace s pat rep) <= length s)%nat.
Proof.
  intros Hrep. induction s as [|c s IH].
  - destruct pat as [|p pat]; simpl in *; [rewrite length_app; simpl; lia|lia].
  - cbn [replace]. destruct (startsWith (c :: s) pat) eqn:Hp.
    + apply startsWith_length in Hp. rewrite length_app, length_drop. lia.
    + simpl. lia.
Qed.

Lemma execLabel_needs_version (label : jsstring) :
  forallb (fun c => negb (RegExp.digitOrDot c)) label = true ->
  RegExp.execLabel label = None.
Proof.
  intros Hnone. destruct (RegExp.execLabel label) as [m|] eqn:Hm; [|reflexivity].
  destruct (label_pattern_parts label m Hm) as (Hlabel & _ & _ & [Hne Hdigits] & _).
  rewrite Hlabel, !forallb_app in Hnone.
  apply andb_prop in Hnone as [_ [_ [H3 _]%andb_prop]%andb_prop].
  destruct (RegExp.group3 m) as [|c g3]; [done|]. simpl in H3, Hdigits.
  apply andb_prop in H3 as [H3 _]. apply andb_prop in Hdigits as [Hd _].
  rewrite Hd in H3. discriminate.
Qed.

End ReplaceFacts.

Section LabelFacts.

Lemma startsWith_app (a b pat : jsstring) :
  startsWith a pat = true -> startsWith (a ++ b) pat = true.
Proof.
  revert a. induction pat as [|p pat IH]; intros a H.
  - destruct (a ++ b); reflexivity.
  - destruct a as [|c a]; simpl in *; [discriminate|].
    apply andb_prop in H as [Hc H]. rewrite Hc. simpl. apply IH, H.
Qed.

Lemma includes_app (a b pat : jsstring) :
  includes a pat = true -> includes (a ++ b) pat = true.
Proof.
  induction a as [|c a IH]; simpl.
  - rewrite orb_false_r. intros H. destruct pat; [|discriminate].
    destruct b; reflexivity.
  - intros [H|H]%orb_prop; apply orb_true_iff.
    + left. apply (startsWith_app (c :: a) b), H.
    + right. apply IH, H.
Qed.

Lemma replace_absent (s pat rep : jsstring) :
  includes s pat = false -> replace s pat rep = s.
Proof.
  induction s as [|c s IH]; simpl.
  - rewrite orb_false_r. intros ->. reflexivity.
  - intros [Hhere Hlater]%orb_false_elim. rewrite Hhere. f_equal. apply IH, Hlater.
Qed.

End LabelFacts.

(** A compacted label is never longer than the label.  A label without
    "Backend" is cut, not rewritten: the compacted label is its beginning.
    A label without any digit or dot has no version to cut at and stays as
    it is, but for "Backend". *)
Theorem compactReleaseLabel_only_shortens (label : jsstring) :
  jslength (compactReleaseLabel label) <= jslength label
  /\ (includes label (js "Backend") = false ->
      exists dropped, label = compactReleaseLabel label ++ dropped)
  /\ (forallb (fun c => negb (RegExp.digitOrDot c)) label = true ->
      compactReleaseLabel label = replace label (js "Backend") (js "BE")).
Proof.
  unfold compactReleaseLabel, jslength. split; [|split].
  - destruct (RegExp.execLabel label) as [m|] eqn:Hm; cbv beta iota zeta.
    + destruct (label_pattern_parts label m Hm) as (Hlabel & _).
      pose proof (replace_length
                    (RegExp.group1 m ++ RegExp.group2 m ++ RegExp.group3 m)
                    (js "Backend") (js "BE") ltac:(simpl; lia)) as Hlen.
      pose proof (f_equal length Hlabel) as Hl.
      rewrite !length_app in Hlen. rewrite !length_app in Hl. lia.
    + pose proof (replace_length label (js "Backend") (js "BE") ltac:(simpl; lia)).
      lia.
  - intros Hno. destruct (RegExp.execLabel label) as [m|] eqn:Hm;
      cbv beta iota zeta.
    + destruct (label_pattern_parts label m Hm) as (Hlabel & _).
      exists (default [] (RegExp.group4 m)).
      rewrite replace_absent; [rewrite <- !app_assoc; exact Hlabel|].
      destruct (includes (RegExp.group1 m ++ RegExp.group2 m ++ RegExp.group3 m)
                         (js "Backend")) eqn:Hin; [|reflexivity].
      apply (includes_app _ (default [] (RegExp.group4 m))) in Hin.
      rewrite <- !app_assoc, <- Hlabel, Hno in Hin. discriminate.
    + exists []. rewrite app_nil_r, replace_absent by exact Hno. reflexivity.
  - intros Hnone. rewrite execLabel_needs_version by exact Hnone. reflexivity.
Qed.

Lemma compactReleaseLabel_only_shortens_witness :
  exists dropped,
    js "iOS 2.3.1 beta" = compactReleaseLabel (js "iOS 2.3.1 beta") ++ dropped.
Proof.
  apply (compactReleaseLabel_only_shortens (js "iOS 2.3.1 beta")).
  vm_compute. reflexivity.
Defined.

(* ===================================================================== *)
(** * XML escaping *)
(* ===================================================================== *)

Section EscapeXml.

Lemma replaceAll_char (s : jsstring) (p : N) (rep : jsstring) :
  replaceAll s [p] rep = flat_map (fun c => if N.eqb p c then rep else [c]) s.
Proof.
  unfold replaceAll. induction s as [|c s IH]; [reflexivity|].
  cbn [replaceAllFrom startsWith flat_map].
  replace (startsWith s []) with true by (destruct s; reflexivity).
  rewrite andb_true_r. change (length [p] - 1)%nat with 0%nat. rewrite IH.
  destruct (N.eqb p c); reflexivity.
Qed.

Lemma flat_map_flat_map {X Y Z : Type} (f : X -> list Y) (g : Y -> list Z)
    (l : list X) :
  flat_map g (flat_map f l) = flat_map (fun x => flat_map g (f x)) l.
Proof.
  induction l as [|x l IH]; [reflexivity|].
  simpl. rewrite flat_map_app, IH. reflexivity.
Qed.

(** The five passes come to one pass over the characters. *)
Lemma escapeXml_flat_map (value : jsstring) :
  TimelineSvg.escapeXml value = flat_map escapeChar value.
Proof.
  unfold TimelineSvg.escapeXml.
  change (js "&") with [38%N]. change (js "<") with [60%N].
  change (js ">") with [62%N]. change (js "'") with [39%N].
  rewrite !replaceAll_char, !flat_map_flat_map.
  apply flat_map_ext. intros c. unfold escapeChar.
  repeat (cbn [flat_map app]; rewrite ?app_nil_r;
          match goal with
          | |- context [N.eqb ?p c] =>
              destruct (N.eqb_spec p c) as [<-|?]; [vm_compute; reflexivity|]
          end).
  reflexivity.
Qed.

Lemma escapeChar_cases (c : N) :
  (c = 38%N /\ escapeChar c = [38; 97; 109; 112; 59]%N)
  \/ (c = 60%N /\ escapeChar c = [38; 108; 116; 59]%N)
  \/ (c = 62%N /\ escapeChar c = [38; 103; 116; 59]%N)
  \/ (c = 34%N /\ escapeChar c = [38; 113; 117; 111; 116; 59]%N)
  \/ (c = 39%N /\ escapeChar c = [38; 35; 51; 57; 59]%N)
  \/ (needsEscape c = false /\ escapeChar c = [c]).
Proof.
  unfold escapeChar, needsEscape.
  destruct (N.eqb_spec 38 c) as [<-|?]; [left; done|right].
  destruct (N.eqb_spec 60 c) as [<-|?]; [left; done|right].
  destruct (N.eqb_spec 62 c) as [<-|?]; [left; done|right].
  destruct (N.eqb_spec 34 c) as [<-|?]; [left; done|right].
  destruct (N.eqb_spec 39 c) as [<-|?]; [left; done|right].
  done.
Qed.

Lemma flat_map_escapeChar_injective (a b : jsstring) :
  flat_map escapeChar a = flat_map escapeChar b -> a = b.
Proof.
  revert b. induction a as [|c a IH]; intros [|c' b]; simpl.
  - reflexivity.
  - destruct (escapeChar_cases c') as [[_ ->]|[[_ ->]|[[_ ->]|[[_ ->]|[[_ ->]|[_ ->]]]]]];
      discriminate.
  - destruct (escapeChar_cases c) as [[_ ->]|[[_ ->]|[[_ ->]|[[_ ->]|[[_ ->]|[_ ->]]]]]];
      discriminate.
  - destruct (escapeChar_cases c) as [[-> ->]|[[-> ->]|[[-> ->]|[[-> ->]|[[-> ->]|[Hc ->]]]]]];
      destruct (escapeChar_cases c') as [[-> ->]|[[-> ->]|[[-> ->]|[[-> ->]|[[-> ->]|[Hc' ->]]]]]];
      simpl; intros H; simplify_eq; try (f_equal; apply IH; assumption);
      try (vm_compute in Hc; discriminate); try (vm_compute in Hc'; discriminate).
Qed.

End EscapeXml.

(** The five replacement passes of [escapeXml] come to one pass that
    replaces each character by its entity: the ampersands of the entities
    are not escaped again, and the escaping of a text is the escaping of
    its parts. *)
Theorem escapeXml_escapes_each_character (value other : jsstring) :
  TimelineSvg.escapeXml value = flat_map escapeChar value
  /\ TimelineSvg.escapeXml (value ++ other)
     = TimelineSvg.escapeXml value ++ TimelineSvg.escapeXml other.
Proof.
  rewrite !escapeXml_flat_map. split; [reflexivity|apply flat_map_app].
Qed.

(** An escaped text holds no less-than, greater-than, double quote or
    apostrophe; it is at least as long as the text; and a text without
    the five characters is left as it is. *)
Theorem escapeXml_leaves_no_markup (value : jsstring) :
  Forall (fun c => c <> 60%N /\ c <> 62%N /\ c <> 34%N /\ c <> 39%N)
         (TimelineSvg.escapeXml value)
  /\ (length value <= length (TimelineSvg.escapeXml value))%nat
  /\ (forallb (fun c => negb (needsEscape c)) value = true ->
      TimelineSvg.escapeXml value = value).
Proof.
  rewrite escapeXml_flat_map. split; [|split].
  - induction value as [|c value IH]; [constructor|].
    simpl. apply Forall_app. split; [|exact IH].
    destruct (escapeChar_cases c)
      as [[_ ->]|[[_ ->]|[[_ ->]|[[_ ->]|[[_ ->]|[Hc ->]]]]]];
      repeat constructor; try discriminate.
    all: intros ->; vm_compute in Hc; discriminate.
  - induction value as [|c value IH]; [reflexivity|].
    simpl. rewrite length_app.
    destruct (escapeChar_cases c)
      as [[_ ->]|[[_ ->]|[[_ ->]|[[_ ->]|[[_ ->]|[_ ->]]]]]]; simpl; lia.
  - induction value as [|c value IH]; [reflexivity|].
    simpl. intros [Hc Hrest]%andb_prop. apply negb_true_iff in Hc.
    rewrite (IH Hrest).
    destruct (escapeChar_cases c)
      as [[-> _]|[[-> _]|[[-> _]|[[-> _]|[[-> _]|[_ ->]]]]]];
      try (vm_compute in Hc; discriminate). reflexivity.
Qed.

Lemma escapeXml_leaves_no_markup_witness :
  TimelineSvg.escapeXml (js "Down Roadmap") = js "Down Roadmap".
Proof.
  apply (escapeXml_leaves_no_markup (js "Down Roadmap")). vm_compute. reflexivity.
Defined.

(** Escaping loses nothing: two texts with the same escaped form are the
    same text. *)
Theorem escapeXml_is_injective (a b : jsstring) :
  TimelineSvg.escapeXml a = TimelineSvg.escapeXml b -> a = b.
Proof. rewrite !escapeXml_flat_map. apply flat_map_escapeChar_injective. Qed.

Lemma escapeXml_is_injective_witness : js "a<b" = js "a<b".
Proof. apply (escapeXml_is_injective (js "a<b") (js "a<b")). reflexivity. Defined.

(* ===================================================================== *)
(** * The variants of the SVG routes *)
(* ===================================================================== *)

Lemma tiny_words_are_not_small (value : jsstring) :
  strictEquals value (js "tiny") || strictEquals value (js "figma-xs")
  || strictEquals value (js "figma-tiny") = true ->
  strictEquals value (js "small") || strictEquals value (js "figma")
  || strictEquals value (js "figma-small") = false.
Proof.
  unfold strictEquals. intros H.
  apply orb_prop in H as [H|H]; [apply orb_prop in H as [H|H]|];
    apply bool_decide_eq_true in H; subst value; vm_compute; reflexivity.
Qed.

(** The redirect of [api/figma-svg] always asks for a variant that
    [api/timeline-svg] knows under the same name: "figma-tiny" or
    "figma-small", never the default.  Both routes read the same words as
    tiny; a missing parameter is small for the redirect and the default
    for the SVG route. *)
Theorem figma_redirect_selects_a_figma_variant
    (toLowerCase : jsstring -> jsstring) (raw : option jsstring) :
  toLowerCase (js "figma-tiny") = js "figma-tiny" ->
  toLowerCase (js "figma-small") = js "figma-small" ->
  toLowerCase (js "small") = js "small" ->
  toLowerCase (js "default") = js "default" ->
  let variant := FigmaSvg.mapVariant toLowerCase raw in
  (variant = js "figma-tiny" \/ variant = js "figma-small")
  /\ TimelineSvg.id (TimelineSvg.resolveVariant toLowerCase (Some variant)) = variant
  /\ TimelineSvg.filenameTag (TimelineSvg.resolveVariant toLowerCase (Some variant))
     = variant
  /\ (forall text : jsstring,
        raw = Some text ->
        (variant = js "figma-tiny"
         <-> TimelineSvg.id (TimelineSvg.resolveVariant toLowerCase raw)
             = js "figma-tiny"))
  /\ FigmaSvg.mapVariant toLowerCase None = js "figma-small"
  /\ TimelineSvg.id (TimelineSvg.resolveVariant toLowerCase None) = js "default".
Proof.
  intros Htiny Hsmall Hs Hd variant.
  assert (Hresolve_tiny :
            TimelineSvg.resolveVariant toLowerCase (Some (js "figma-tiny"))
            = TimelineSvg.mkVariant (js "figma-tiny") (6 # 10) (js "figma-tiny")).
  { unfold TimelineSvg.resolveVariant. cbn [from_option id].
    change (trim (js "figma-tiny")) with (js "figma-tiny"). rewrite Htiny.
    reflexivity. }
  assert (Hresolve_small :
            TimelineSvg.resolveVariant toLowerCase (Some (js "figma-small"))
            = TimelineSvg.mkVariant (js "figma-small") (74 # 100) (js "figma-small")).
  { unfold TimelineSvg.resolveVariant. cbn [from_option id].
    change (trim (js "figma-small")) with (js "figma-small"). rewrite Hsmall.
    reflexivity. }
  assert (Hcases : variant = js "figma-tiny" \/ variant = js "figma-small").
  { subst variant. unfold FigmaSvg.mapVariant.
    destruct (_ || _); [left|right]; reflexivity. }
  split; [exact Hcases|].
  split; [destruct Hcases as [->| ->]; [rewrite Hresolve_tiny|rewrite Hresolve_small];
          reflexivity|].
  split; [destruct Hcases as [->| ->]; [rewrite Hresolve_tiny|rewrite Hresolve_small];
          reflexivity|].
  split; [|split].
  - intros text ->. subst variant.
    unfold FigmaSvg.mapVariant, TimelineSvg.resolveVariant. cbn [from_option id].
    generalize (toLowerCase (trim text)) as value. intros value.
    destruct (strictEquals value (js "tiny") || strictEquals value (js "figma-xs")
              || strictEquals value (js "figma-tiny")) eqn:Htinyword.
    + rewrite (tiny_words_are_not_small value Htinyword). split; reflexivity.
    + destruct (strictEquals value (js "small") || _ || _); cbn [TimelineSvg.id];
        split; intros Hgoal; vm_compute in Hgoal; discriminate.
  - unfold FigmaSvg.mapVariant. cbn [from_option id].
    change (trim (js "small")) with (js "small"). rewrite Hs. reflexivity.
  - unfold TimelineSvg.resolveVariant. cbn [from_option id].
    change (trim (js "default")) with (js "default"). rewrite Hd. reflexivity.
Qed.

Lemma figma_redirect_selects_a_figma_variant_witness :
  TimelineSvg.id
    (TimelineSvg.resolveVariant Builtins.toLowerCase
       (Some (FigmaSvg.mapVariant Builtins.toLowerCase (Some (js " Tiny ")))))
  = FigmaSvg.mapVariant Builtins.toLowerCase (Some (js " Tiny ")).
Proof.
  apply (figma_redirect_selects_a_figma_variant Builtins.toLowerCase
           (Some (js " Tiny "))); reflexivity.
Defined.

(* ===================================================================== *)
(** * Platform tone *)
(* ===================================================================== *)

(** The platform is classified on its lower-cased text, iOS first: a text
    with "ios" is ios whatever else it names; without it, one with
    "android" is android; without both, one with "backend" or "server" is
    backend; every other text is other.  Under ASCII lower-casing a
    platform with "ios" in it is ios whatever surrounds it. *)
Theorem platformTone_priority (toLowerCase : jsstring -> jsstring)
    (platform : jsstring) :
  let lower := toLowerCase platform in
  (includes lower (js "ios") = true -> platformTone toLowerCase platform = ios)
  /\ (includes lower (js "ios") = false ->
      includes lower (js "android") = true ->
      platformTone toLowerCase platform = android)
  /\ (includes lower (js "ios") = false ->
      includes lower (js "android") = false ->
      includes lower (js "backend") = true \/ includes lower (js "server") = true ->
      platformTone toLowerCase platform = backend)
  /\ (includes lower (js "ios") = false ->
      includes lower (js "android") = false ->
      includes lower (js "backend") = false ->
      includes lower (js "server") = false ->
      platformTone toLowerCase platform = other)
  /\ (includes platform (js "ios") = true ->
      platformTone Builtins.toLowerCase platform = ios).
Proof.
  cbv zeta. unfold platformTone. split; [|split; [|split; [|split]]].
  - intros ->. reflexivity.
  - intros -> ->. reflexivity.
  - intros -> -> [-> | ->]; [reflexivity|]. rewrite orb_true_r. reflexivity.
  - intros -> -> -> ->. reflexivity.
  - intros Hin.
    rewrite (includes_toLowerCase platform (js "ios")); [reflexivity..|exact Hin].
Qed.

Lemma platformTone_priority_witness :
  platformTone Builtins.toLowerCase (js "iOS + Android") = ios.
Proof.
  apply (proj1 (platformTone_priority Builtins.toLowerCase (js "iOS + Android"))).
  vm_compute. reflexivity.
Defined.

(* ===================================================================== *)
(** * Reading a page of the data source *)
(* ===================================================================== *)

Section Trim.

Lemma trimStart_head (s : jsstring) (c : N) (t : jsstring) :
  trimStart s = c :: t -> RegExp.space c = false.
Proof.
  induction s as [|x s IH]; simpl; [discriminate|].
  destruct (RegExp.space x) eqn:Hx; [exact IH|].
  intros [= <- _]. exact Hx.
Qed.

Lemma trimStart_split (s : jsstring) :
  exists pre, s = pre ++ trimStart s /\ forallb RegExp.space pre = true.
Proof.
  induction s as [|x s (pre & Hs & Hpre)]; simpl.
  - exists []. done.
  - destruct (RegExp.space x) eqn:Hx.
    + exists (x :: pre). simpl. rewrite Hx, Hpre, <- Hs. done.
    + exists []. done.
Qed.

Lemma trimEnd_last (s init : jsstring) (c : N) :
  trimEnd s = init ++ [c] -> RegExp.space c = false.
Proof.
  unfold trimEnd. intros H. apply (f_equal (@rev N)) in H.
  rewrite rev_involutive, rev_app_distr in H. simpl in H.
  exact (trimStart_head _ _ _ H).
Qed.

Lemma trimEnd_split (s : jsstring) :
  exists post, s = trimEnd s ++ post /\ forallb RegExp.space post = true.
Proof.
  unfold trimEnd. destruct (trimStart_split (rev s)) as (pre & Hs & Hpre).
  exists (rev pre). split.
  - rewrite <- rev_app_distr, <- Hs, rev_involutive. reflexivity.
  - rewrite forallb_forall in *. intros x Hx. apply Hpre, in_rev, Hx.
Qed.

(** A trimmed text has no white space at either end. *)
Lemma trim_ends (s : jsstring) :
  (forall c t, trim s = c :: t -> RegExp.space c = false)
  /\ (forall init c, trim s = init ++ [c] -> RegExp.space c = false).
Proof.
  unfold trim. split; [|intros init c; apply trimEnd_last].
  intros c t Hc.
  destruct (trimEnd_split (trimStart s)) as (post & Hs & _).
  rewrite Hc in Hs. exact (trimStart_head _ _ _ Hs).
Qed.

Lemma trim_clean (s : jsstring) :
  (forall c t, s = c :: t -> RegExp.space c = false) ->
  (forall init c, s = init ++ [c] -> RegExp.space c = false) ->
  trim s = s.
Proof.
  intros Hhead Hlast. unfold trim.
  assert (Hstart : trimStart s = s).
  { destruct s as [|c t]; [reflexivity|]. simpl.
    rewrite (Hhead c t eq_refl). reflexivity. }
  rewrite Hstart. unfold trimEnd.
  destruct (rev s) as [|c t] eqn:Hrev.
  - apply (f_equal (@rev N)) in Hrev. rewrite rev_involutive in Hrev. done.
  - assert (Hs : s = rev t ++ [c]).
    { apply (f_equal (@rev N)) in Hrev. rewrite rev_involutive in Hrev. exact Hrev. }
    simpl. rewrite (Hlast _ _ Hs). simpl. symmetry. exact Hs.
Qed.

End Trim.

(** [s.trim()] leaves no white space at either end, changes nothing in a
    text that has none there, and so does nothing when applied again. *)
Theorem trim_is_idempotent (s : jsstring) :
  (forall c t, trim s = c :: t -> RegExp.space c = false)
  /\ (forall init c, trim s = init ++ [c] -> RegExp.space c = false)
  /\ trim (trim s) = trim s
  /\ (exists pre post,
        s = pre ++ trim s ++ post
        /\ forallb RegExp.space pre = true /\ forallb RegExp.space post = true).
Proof.
  destruct (trim_ends s) as [Hhead Hlast].
  split; [exact Hhead|]. split; [exact Hlast|]. split.
  - apply trim_clean; assumption.
  - destruct (trimStart_split s) as (pre & Hs & Hpre).
    destruct (trimEnd_split (trimStart s)) as (post & Ht & Hpost).
    exists pre, post. unfold trim. rewrite <- Ht. done.
Qed.

(** The title of a page is never empty and has no white space at either
    end: it is the trimmed text of the title parts in a row, and
    "Untitled" when the property or its title is absent or the parts hold
    white space only. *)
Theorem getTitle_is_never_empty
    (properties : gmap string Notion.NotionProperty) (key : string) :
  let title := Notion.getTitle properties key in
  title <> []
  /\ (forall c t, title = c :: t -> RegExp.space c = false)
  /\ (forall init c, title = init ++ [c] -> RegExp.space c = false)
  /\ (properties !! key = None -> title = js "Untitled")
  /\ (forall parts,
        properties !! key ≫= Notion.title = Some parts ->
        let text :=
          concat (map (fun part => default [] (Notion.plain_text part)) parts) in
        (forallb RegExp.space text = true -> title = js "Untitled")
        /\ (trim text <> [] -> title = trim text)).
Proof.
  cbv zeta. unfold Notion.getTitle.
  set (text := concat _).
  destruct (trim_ends text) as [Hhead Hlast].
  split; [|split; [|split; [|split]]].
  - destruct (trim text); discriminate.
  - destruct (trim text) as [|c0 t0] eqn:Ht.
    + intros c t [= <- _]. reflexivity.
    + exact Hhead.
  - destruct (trim text) as [|c0 t0] eqn:Ht.
    + intros init c H. apply (f_equal (@rev N)) in H.
      rewrite rev_app_distr in H. vm_compute in H. injection H as <-. reflexivity.
    + exact Hlast.
  - intros Hnone. subst text. rewrite Hnone. reflexivity.
  - intros parts Hparts. subst text. rewrite Hparts. cbn [from_option id].
    set (text := concat _). split.
    + intros Hspace.
      assert (Htrim : trim text = []).
      { unfold trim. 
        assert (Hs : trimStart text = []).
        { clear -Hspace. induction text as [|x s IH]; [reflexivity|].
          simpl in *. apply andb_prop in Hspace as [-> Hs]. exact (IH Hs). }
        rewrite Hs. reflexivity. }
      rewrite Htrim. reflexivity.
    + intros Hne. destruct (trim text); done.
Qed.

Lemma getTitle_is_never_empty_witness :
  Notion.getTitle (∅ : gmap string Notion.NotionProperty) "Name" = js "Untitled".
Proof.
  apply (getTitle_is_never_empty ∅ "Name"). reflexivity.
Defined.

Lemma trim_is_idempotent_witness :
  trim (trim (js "  Released ")) = trim (js "  Released ")
  /\ trim (js "  Released ") = js "Released".
Proof.
  split; [apply (trim_is_idempotent (js "  Released "))|reflexivity].
Defined.

(** A status or select label is read without white space at either end,
    and is the empty text when the property, its status or select
    entry, or the name in it is absent. *)
Theorem labels_are_read_trimmed
    (properties : gmap string Notion.NotionProperty) (key : string) :
  let property := properties !! key in
  let statusLabel := Notion.getStatus properties key in
  let selectLabel := Notion.getSelect properties key in
  trim statusLabel = statusLabel /\ trim selectLabel = selectLabel
  /\ ((property ≫= Notion.status) ≫= Notion.name = None -> statusLabel = [])
  /\ ((property ≫= Notion.select) ≫= Notion.name = None -> selectLabel = [])
  /\ (forall entry,
        (property ≫= Notion.status) = Some entry ->
        (property ≫= Notion.select) = Some entry ->
        statusLabel = selectLabel).
Proof.
  cbv zeta. unfold Notion.getStatus, Notion.getSelect.
  assert (Htrim : forall n : option jsstring,
            trim (match n with Some n => trim n | None => [] end)
            = match n with Some n => trim n | None => [] end).
  { intros [n|]; [|reflexivity].
    destruct (trim_ends n). apply trim_clean; assumption. }
  split; [apply Htrim|]. split; [apply Htrim|].
  split; [|split].
  - intros ->. reflexivity.
  - intros ->. reflexivity.
  - intros entry -> ->. reflexivity.
Qed.

Lemma labels_are_read_trimmed_witness :
  Notion.getStatus (∅ : gmap string Notion.NotionProperty) "Stage" = [].
Proof.
  apply (labels_are_read_trimmed ∅ "Stage"). reflexivity.
Defined.

Section DateRange.

Variable newDate : jsstring -> option Z.

(** A text is parsed to null when it is absent, empty, or neither a day
    nor a date to [new Date]; only a text of the shape of a day can give
    an invalid Date object. *)
Theorem parseDateString_rejects_or_parses (value : option jsstring) :
  (Notion.parseDateString newDate value = None <->
     value = None \/ value = Some []
     \/ exists v, value = Some v /\ Notion.isIsoDay v = false /\ newDate v = None)
  /\ (Notion.parseDateString newDate value = Some None <->
     exists v, value = Some v /\ Notion.isIsoDay v = true
               /\ newDate (v ++ js "T00:00:00.000Z") = None)
  /\ (forall v, value = Some v -> Notion.isIsoDay v = true ->
        length v = 10%nat
        /\ Notion.parseDateString newDate value
           = Some (newDate (v ++ js "T00:00:00.000Z"))).
Proof.
  unfold Notion.parseDateString.
  destruct value as [[|c v]|].
  - split; [|split].
    + split; [intros _; right; left; reflexivity|reflexivity].
    + split; [discriminate|]. intros (v & [= <-] & Hday & _). discriminate.
    + intros v [= <-]. discriminate.
  - set (s := c :: v). split; [|split].
    + split.
      * intros H. right. right. exists s. split; [reflexivity|].
        destruct (Notion.isIsoDay s); [discriminate|].
        split; [reflexivity|]. destruct (newDate s); [discriminate|reflexivity].
      * intros [H|[H|(w & [= <-] & Hday & Hnew)]]; try discriminate.
        fold s. rewrite Hday, Hnew. reflexivity.
    + split.
      * intros H. exists s. split; [reflexivity|].
        destruct (Notion.isIsoDay s).
        -- split; [reflexivity|]. injection H as H. exact H.
        -- destruct (newDate s); discriminate.
      * intros (w & [= <-] & Hday & Hnew). fold s. rewrite Hday, Hnew. reflexivity.
    + intros w [= <-] Hday. fold s. rewrite Hday. split; [|reflexivity].
      subst s. unfold Notion.isIsoDay in Hday.
      do 9 (destruct v as [|? v]; [discriminate|]).
      destruct v; [reflexivity|discriminate].
  - split; [|split].
    + split; [intros _; left; reflexivity|reflexivity].
    + split; [discriminate|]. intros (v & H & _). discriminate.
    + intros v H. discriminate.
Qed.

(** The end of a date range defaults to its start: it is null only when
    the start is null, it is the start when the property holds no end,
    and both are null when the property or its date is absent. *)
Theorem getDateRange_end_defaults_to_start
    (properties : gmap string Notion.NotionProperty) (key : string) :
  let range := Notion.getDateRange newDate properties key in
  (Notion.rangeEnd range = None -> Notion.rangeStart range = None)
  /\ (properties !! key ≫= Notion.date = None ->
      range = Notion.mkDateRange None None)
  /\ (forall d,
        properties !! key ≫= Notion.date = Some d ->
        Notion.rangeStart range = Notion.parseDateString newDate (Notion.start d)
        /\ (Notion.parseDateString newDate (Notion.end_ d) = None ->
            Notion.rangeEnd range = Notion.rangeStart range)
        /\ (forall e, Notion.parseDateString newDate (Notion.end_ d) = Some e ->
            Notion.rangeEnd range = Some e)).
Proof.
  cbv zeta. unfold Notion.getDateRange. cbn [Notion.rangeStart Notion.rangeEnd].
  split; [|split].
  - destruct (Notion.parseDateString newDate (_ ≫= Notion.end_)); [discriminate|done].
  - intros ->. reflexivity.
  - intros d ->. cbn [mbind option_bind]. split; [reflexivity|]. split.
    + intros ->. reflexivity.
    + intros e ->. reflexivity.
Qed.

End DateRange.

Lemma parseDateString_rejects_or_parses_witness :
  Notion.parseDateString Builtins.isoTimeValue (Some (js "2024-13-45")) = Some None
  /\ Notion.parseDateString Builtins.isoTimeValue (Some (js "2024-03-05"))
     = Some (Some 1709596800000).
Proof.
  split.
  - apply (parseDateString_rejects_or_parses Builtins.isoTimeValue).
    exists (js "2024-13-45"). repeat split; reflexivity.
  - destruct (parseDateString_rejects_or_parses Builtins.isoTimeValue
                (Some (js "2024-03-05"))) as (_ & _ & H).
    destruct (H (js "2024-03-05") eq_refl eq_refl) as [_ ->]. reflexivity.
Defined.

Lemma getDateRange_end_defaults_to_start_witness :
  let properties : gmap string Notion.NotionProperty :=
    {[ "Dates"%string :=
         Notion.mkNotionProperty None
           (Some (Notion.mkDateProperty (Some (js "2024-03-05")) None))
           None None ]} in
  Notion.rangeEnd (Notion.getDateRange Builtins.isoTimeValue properties "Dates")
  = Notion.rangeStart (Notion.getDateRange Builtins.isoTimeValue properties "Dates").
Proof.
  intros properties.
  destruct (getDateRange_end_defaults_to_start Builtins.isoTimeValue
              properties "Dates") as (_ & _ & H).
  destruct (H (Notion.mkDateProperty (Some (js "2024-03-05")) None))
    as (_ & Hend & _).
  - subst properties. rewrite lookup_singleton_eq. reflexivity.
  - apply Hend. reflexivity.
Defined.
